(** * KeyBridgeClient: the batched remote-call client of dev/key-bridge

    A shallow embedding of [src/dev/key-bridge/KeyBridgeClient.ts]: the
    connection state, the three request queues, the single-flight batch
    scheduler, the response reconciler and the failure policy, together
    with the properties of the specification that concern them.

    JavaScript runs the class on one thread: every method body runs
    without interruption up to its next [await].  Each such run is one
    function of this file, from a [World] to a [World]; the suspended
    calls (the awaits of [initializeConnection] and [processBatch]) and the
    armed timers are part of the [World], and the environment decides when
    they resume ([Event]).

    Around the client, the file also embeds what answers a call when the
    client has no key ([findMock] of dev/api.ts over the mocks of
    dev/mockDataLoader.ts, and the script of
    dev/utils/normalizeMockFiles.ts), and the status that
    dev/key-bridge/ConnectionKeyPanel.vue computes from the state of the
    client. *)

From Stdlib Require Import ZArith List String Ascii Bool Arith Lia DecimalString.
Import ListNotations.

Local Open Scope string_scope.
Local Open Scope list_scope.
Local Open Scope Z_scope.

Set Implicit Arguments.
Set Warnings "-register-all".

(** ** JavaScript containers *)

(** A JS [Map<string, V>]: keys are unique and keep their insertion order;
    [set] on a key already there replaces the value in place. *)
Module JsMap.

Definition t (V : Type) := list (string * V).

Section Ops.
Variable V : Type.

Definition empty : t V := [].

Fixpoint get (k : string) (m : t V) : option V :=
  match m with
  | [] => None
  | (k', v) :: m' => if String.eqb k k' then Some v else get k m'
  end.

Fixpoint set (k : string) (v : V) (m : t V) : t V :=
  match m with
  | [] => [(k, v)]
  | (k', v') :: m' =>
      if String.eqb k k' then (k', v) :: m' else (k', v') :: set k v m'
  end.

Fixpoint delete (k : string) (m : t V) : t V :=
  match m with
  | [] => []
  | (k', v') :: m' =>
      if String.eqb k k' then m' else (k', v') :: delete k m'
  end.

Definition has (k : string) (m : t V) : bool :=
  match get k m with Some _ => true | None => false end.

Definition keys (m : t V) : list string := map fst m.
Definition values (m : t V) : list V := map snd m.
Definition size (m : t V) : nat := List.length m.

(** [new Map(m)]: a copy; values are immutable here, so the copy is [m]. *)
Definition copy (m : t V) : t V := m.

(** [m.forEach((v, k) => acc = f(k, v, acc))] *)
Definition forEach {A : Type} (f : string -> V -> A -> A) (m : t V) (a : A) : A :=
  fold_left (fun acc kv => f (fst kv) (snd kv) acc) m a.
End Ops.

Arguments empty {V}.

End JsMap.

(** A JS [Set<string>]: insertion-ordered, no duplicates. *)
Module JsSet.

Definition t := list string.

Definition empty : t := [].

Fixpoint has (k : string) (s : t) : bool :=
  match s with
  | [] => false
  | k' :: s' => if String.eqb k k' then true else has k s'
  end.

Definition add (k : string) (s : t) : t :=
  if has k s then s else s ++ [k].

Definition size (s : t) : nat := List.length s.

Definition forEach {A : Type} (f : string -> A -> A) (s : t) (a : A) : A :=
  fold_left (fun acc k => f k acc) s a.

End JsSet.

(** ** Values that travel as JSON *)

(** The payloads of the wire protocol are JSON values.  A field of an
    object decoded from JSON is never [undefined], so [o.f !== undefined]
    is "[o] has a field [f]". *)
Inductive Json : Type :=
| JNull
| JBool (b : bool)
| JNum (n : Z)
| JStr (s : string)
| JArr (items : list Json)
| JObj (fields : list (string * Json)).

(** [unknown] as it reaches [parseResult]: a JSON value, or [undefined]
    when the optional field is absent. *)
Definition unknown := option Json.

Fixpoint get_field (name : string) (fields : list (string * Json)) : option Json :=
  match fields with
  | [] => None
  | (k, v) :: rest => if String.eqb name k then Some v else get_field name rest
  end.

(** A decoder for the JSON texts of the protocol, to run the client on
    concrete responses: null, booleans, integers, strings with the
    one-character escapes, arrays and objects.  The methods below take
    [JSON.parse] of the platform as a parameter; every property
    proved of them holds for any decoder, and for this one. *)
Module JSON.

Definition quote : ascii := ascii_of_nat 34.
Definition backslash : ascii := ascii_of_nat 92.

Definition isSpace (c : ascii) : bool :=
  let n := nat_of_ascii c in
  ((n =? 32) || (n =? 9) || (n =? 10) || (n =? 13))%nat.

Definition isDigit (c : ascii) : bool :=
  let n := nat_of_ascii c in ((48 <=? n) && (n <=? 57))%nat.

Fixpoint skip (s : string) : string :=
  match s with
  | String c s' => if isSpace c then skip s' else s
  | EmptyString => EmptyString
  end.

(** [expect p s]: [s] without its prefix [p]. *)
Fixpoint expect (p s : string) : option string :=
  match p, s with
  | EmptyString, _ => Some s
  | String a p', String b s' => if Ascii.eqb a b then expect p' s' else None
  | String _ _, EmptyString => None
  end.

Fixpoint digits (acc : Z) (s : string) : Z * string :=
  match s with
  | String c s' =>
      if isDigit c
      then digits (10 * acc + Z.of_nat (nat_of_ascii c - 48)) s'
      else (acc, s)
  | EmptyString => (acc, s)
  end.

Definition number (s : string) : option (Z * string) :=
  match s with
  | String c s' =>
      if isDigit c then Some (digits 0 s)
      else if Ascii.eqb c "-" then
        match s' with
        | String d _ => if isDigit d
                        then let (n, rest) := digits 0 s' in Some (- n, rest)
                        else None
        | EmptyString => None
        end
      else None
  | EmptyString => None
  end.

Definition unescape (c : ascii) : option ascii :=
  let n := nat_of_ascii c in
  if (n =? 34)%nat then Some c            (* quote *)
  else if (n =? 92)%nat then Some c       (* backslash *)
  else if (n =? 47)%nat then Some c       (* slash *)
  else if (n =? 110)%nat then Some (ascii_of_nat 10)
  else if (n =? 116)%nat then Some (ascii_of_nat 9)
  else if (n =? 114)%nat then Some (ascii_of_nat 13)
  else if (n =? 98)%nat then Some (ascii_of_nat 8)
  else if (n =? 102)%nat then Some (ascii_of_nat 12)
  else None.

(** The characters of a string literal after its opening quote. *)
Fixpoint chars (s : string) : option (string * string) :=
  match s with
  | EmptyString => None
  | String c s' =>
      if Ascii.eqb c quote then Some (EmptyString, s')
      else if Ascii.eqb c backslash then
        match s' with
        | String e s'' =>
            match unescape e, chars s'' with
            | Some u, Some (t, rest) => Some (String u t, rest)
            | _, _ => None
            end
        | EmptyString => None
        end
      else
        match chars s' with
        | Some (t, rest) => Some (String c t, rest)
        | None => None
        end
  end.

Fixpoint value (fuel : nat) (s : string) : option (Json * string) :=
  match fuel with
  | O => None
  | S fuel' =>
      match skip s with
      | String c s' =>
          if Ascii.eqb c quote then
            match chars s' with
            | Some (t, rest) => Some (JStr t, rest)
            | None => None
            end
          else if Ascii.eqb c "[" then
            match skip s' with
            | String "]" rest => Some (JArr [], rest)
            | _ =>
                match elements fuel' s' with
                | Some (vs, rest) => Some (JArr vs, rest)
                | None => None
                end
            end
          else if Ascii.eqb c "{" then
            match skip s' with
            | String "}" rest => Some (JObj [], rest)
            | _ =>
                match members fuel' s' with
                | Some (fs, rest) => Some (JObj fs, rest)
                | None => None
                end
            end
          else if Ascii.eqb c "t" then
            option_map (pair (JBool true)) (expect "rue" s')
          else if Ascii.eqb c "f" then
            option_map (pair (JBool false)) (expect "alse" s')
          else if Ascii.eqb c "n" then
            option_map (pair JNull) (expect "ull" s')
          else
            match number (String c s') with
            | Some (n, rest) => Some (JNum n, rest)
            | None => None
            end
      | EmptyString => None
      end
  end

with elements (fuel : nat) (s : string) : option (list Json * string) :=
  match fuel with
  | O => None
  | S fuel' =>
      match value fuel' s with
      | Some (v, rest) =>
          match skip rest with
          | String "]" rest' => Some ([v], rest')
          | String "," rest' =>
              match elements fuel' rest' with
              | Some (vs, rest'') => Some (v :: vs, rest'')
              | None => None
              end
          | _ => None
          end
      | None => None
      end
  end

with members (fuel : nat) (s : string) : option (list (string * Json) * string) :=
  match fuel with
  | O => None
  | S fuel' =>
      match skip s with
      | String c s' =>
          if Ascii.eqb c quote then
            match chars s' with
            | Some (k, rest) =>
                match skip rest with
                | String ":" rest' =>
                    match value fuel' rest' with
                    | Some (v, rest'') =>
                        match skip rest'' with
                        | String "}" rest3 => Some ([(k, v)], rest3)
                        | String "," rest3 =>
                            match members fuel' rest3 with
                            | Some (fs, rest4) => Some ((k, v) :: fs, rest4)
                            | None => None
                            end
                        | _ => None
                        end
                    | None => None
                    end
                | _ => None
                end
            | None => None
            end
          else None
      | EmptyString => None
      end
  end.

Definition parse (s : string) : option Json :=
  match value (S (String.length s)) s with
  | Some (v, rest) =>
      match skip rest with
      | EmptyString => Some v
      | _ => None
      end
  | None => None
  end.

(** [q s]: the text [s] between two quote characters. *)
Definition q (s : string) : string :=
  String quote (s ++ String quote EmptyString)%string.

(** An encoder for the same values, to run the comparison of the mock
    parameters on concrete values: the text [JSON.stringify] gives for
    null, booleans, integers, strings, arrays and objects. *)
Definition hexDigit (n : nat) : ascii :=
  if (n <? 10)%nat then ascii_of_nat (48 + n) else ascii_of_nat (87 + n).

Definition escape (c : ascii) : string :=
  let n := nat_of_ascii c in
  if (n =? 34)%nat then String backslash (String quote EmptyString)
  else if (n =? 92)%nat then String backslash (String backslash EmptyString)
  else if (n =? 8)%nat then String backslash "b"
  else if (n =? 12)%nat then String backslash "f"
  else if (n =? 10)%nat then String backslash "n"
  else if (n =? 13)%nat then String backslash "r"
  else if (n =? 9)%nat then String backslash "t"
  else if (n <? 32)%nat then
    String backslash
      (String "u" (String "0" (String "0"
         (String (hexDigit (n / 16)) (String (hexDigit (n mod 16)) EmptyString)))))
  else String c EmptyString.

Fixpoint escaped (s : string) : string :=
  match s with
  | EmptyString => EmptyString
  | String c s' => (escape c ++ escaped s')%string
  end.

Fixpoint text (v : Json) : string :=
  match v with
  | JNull => "null"
  | JBool true => "true"
  | JBool false => "false"
  | JNum n => NilZero.string_of_int (Z.to_int n)
  | JStr s => q (escaped s)
  | JArr l =>
      ("[" ++ (fix elems (l : list Json) : string :=
                 match l with
                 | [] => EmptyString
                 | [x] => text x
                 | x :: rest => text x ++ "," ++ elems rest
                 end) l ++ "]")%string
  | JObj fs =>
      ("{" ++ (fix membs (fs : list (string * Json)) : string :=
                 match fs with
                 | [] => EmptyString
                 | [(k, x)] => q (escaped k) ++ ":" ++ text x
                 | (k, x) :: rest => q (escaped k) ++ ":" ++ text x ++ "," ++ membs rest
                 end) fs ++ "}")%string
  end.

(** [JSON.stringify(v)]: [undefined] for [undefined]. *)
Definition stringify (v : unknown) : option string := option_map text v.

End JSON.

(** ** Strings: [String.prototype.trim] *)

(** Characters are code units below 256; the white space and line
    terminators of ECMAScript in that range. *)
Definition isWhiteSpace (c : ascii) : bool :=
  let n := nat_of_ascii c in
  ((9 <=? n) && (n <=? 13) || (n =? 32) || (n =? 160))%nat.

Fixpoint trimStart (s : string) : string :=
  match s with
  | EmptyString => EmptyString
  | String c s' => if isWhiteSpace c then trimStart s' else s
  end.

Fixpoint trimEnd (s : string) : string :=
  match s with
  | EmptyString => EmptyString
  | String c s' =>
      match trimEnd s' with
      | EmptyString => if isWhiteSpace c then EmptyString else String c EmptyString
      | t => String c t
      end
  end.

Definition trim (s : string) : string := trimEnd (trimStart s).

Fixpoint allWhiteSpace (s : string) : bool :=
  match s with
  | EmptyString => true
  | String c s' => isWhiteSpace c && allWhiteSpace s'
  end.

(** Truthiness of a [string | null]: [!!s]. *)
Definition truthy (s : option string) : bool :=
  match s with
  | None => false
  | Some EmptyString => false
  | Some _ => true
  end.

(** [a || b] on an optional string: [a] when truthy, otherwise [b]. *)
Definition or_else (a : option string) (b : string) : string :=
  match a with
  | Some (String c s) => String c s
  | _ => b
  end.

(** ** The types of KeyBridgeClient.ts *)

Record ApiCallType := {
  method : string;
  params : option (list Json)
}.

(** A queued request.  Its [resolve] and [reject] are the two
    continuations of one promise; [promise] is the identity of that
    promise, and invoking either continuation is an [Effect]. *)
Record BatchRequestType := {
  requestKey : string;
  call : ApiCallType;
  promise : nat;
  timestamp : Z
}.

Inductive ResultStatus := StatusDone | StatusPending.

Module ServerResult.
Record t := {
  requestKey : string;
  status : ResultStatus;
  result : unknown;
  isError : option bool
}.
End ServerResult.

Module Created.
Record t := {
  requestKey : string;
  status : string
}.
End Created.

(** [ServerBatchResponseType['data']]; an optional field is [None] when
    it is absent.  Intervals are whole milliseconds.  An item of [results]
    or of [created] is [None] when it is null: the type says it is an
    object, but nothing checks the body of a response. *)
Record ServerData := {
  intervalMs : option Z;
  results : option (list (option ServerResult.t));
  created : option (list (option Created.t));
  cleanupCount : option Z
}.

(** The body of an HTTP response ([response.data: unknown]) as
    [validateInitResponse] tells the cases apart: not an object (or null);
    an object with an [ok] and a [data] field, whose [data] is [None] when
    it is null; any other object, read as the data itself. *)
Inductive ResponseBody :=
| NotAnObject
| Wrapped (ok : bool) (data : option ServerData)
| Direct (data : ServerData).

(** [AxiosErrorResponseType] and what [getErrorMessage] reads of a thrown
    value: whether it is an [Error], its [message], and the HTTP response
    when there is one. *)
Record ErrorResponse := {
  status : Z;
  data_message : option string
}.

Record JsError := {
  instanceofError : bool;
  message : string;
  response : option ErrorResponse
}.

(** [new Error(msg)] *)
Definition Error (msg : string) : JsError :=
  {| instanceofError := true; message := msg; response := None |}.

Record KeyBridgeStateType := {
  st_connected : bool;
  st_processing : bool;
  st_error : option string;
  st_pollRate : Z;
  st_pending : nat;
  st_active : nat;
  st_completed : nat
}.

(** The body of a batch request. *)
Record CallPayload := {
  cp_requestKey : string;
  cp_method : string;
  cp_params : list Json
}.

Record Payload := {
  pl_key : string;
  completedKeys : list string;
  statusRequestKeys : list string;
  calls : list CallPayload
}.

(** What the client does to the outside. *)
Inductive Effect :=
| Resolve (p : nat) (value : unknown)
| Reject (p : nat) (reason : string)
| Notify (st : KeyBridgeStateType)
| PostInit (k : string) (timeout : Z)
| PostBatch (payload : Payload) (timeout : Z)
| SetTimeout (delay : Z)
| CallFallback (c : ApiCallType)
| SetKeyReturned
| SetKeyThrew (msg : string).

(** A [processBatch] suspended at its [await]: the two snapshots it holds. *)
Record Round := {
  batchToSend : JsMap.t BatchRequestType;
  completedSnapshot : JsSet.t
}.

(** The client object ([connection], [queues], [state]) and its
    surroundings. *)
Record World := {
  (* this.connection *)
  key : option string;
  pollRate : Z;
  broken : bool;
  (* this.queues *)
  pending : JsMap.t BatchRequestType;
  active : JsMap.t BatchRequestType;
  completed : JsSet.t;
  (* this.state *)
  processing : bool;
  error : option string;
  (* suspended calls and armed timers *)
  awaitingInit : nat;
  awaitingBatch : list Round;
  timers : list Z;
  (* promises created so far, and the effects so far, latest first *)
  promises : nat;
  effects : list Effect
}.

Definition initial : World := {|
  key := None; pollRate := 500; broken := false;
  pending := JsMap.empty; active := JsMap.empty; completed := JsSet.empty;
  processing := false; error := None;
  awaitingInit := 0; awaitingBatch := []; timers := [];
  promises := 0; effects := []
|}.

(** The effects in the order they happened. *)
Definition history (w : World) : list Effect := rev (effects w).

(** ** Field updates *)

Definition set_key (x : option string) (w : World) : World :=
  {| key := x; pollRate := pollRate w; broken := broken w;
     pending := pending w; active := active w; completed := completed w;
     processing := processing w; error := error w;
     awaitingInit := awaitingInit w; awaitingBatch := awaitingBatch w;
     timers := timers w; promises := promises w; effects := effects w |}.

Definition set_pollRate (x : Z) (w : World) : World :=
  {| key := key w; pollRate := x; broken := broken w;
     pending := pending w; active := active w; completed := completed w;
     processing := processing w; error := error w;
     awaitingInit := awaitingInit w; awaitingBatch := awaitingBatch w;
     timers := timers w; promises := promises w; effects := effects w |}.

Definition set_broken (x : bool) (w : World) : World :=
  {| key := key w; pollRate := pollRate w; broken := x;
     pending := pending w; active := active w; completed := completed w;
     processing := processing w; error := error w;
     awaitingInit := awaitingInit w; awaitingBatch := awaitingBatch w;
     timers := timers w; promises := promises w; effects := effects w |}.

Definition set_pending (x : JsMap.t BatchRequestType) (w : World) : World :=
  {| key := key w; pollRate := pollRate w; broken := broken w;
     pending := x; active := active w; completed := completed w;
     processing := processing w; error := error w;
     awaitingInit := awaitingInit w; awaitingBatch := awaitingBatch w;
     timers := timers w; promises := promises w; effects := effects w |}.

Definition set_active (x : JsMap.t BatchRequestType) (w : World) : World :=
  {| key := key w; pollRate := pollRate w; broken := broken w;
     pending := pending w; active := x; completed := completed w;
     processing := processing w; error := error w;
     awaitingInit := awaitingInit w; awaitingBatch := awaitingBatch w;
     timers := timers w; promises := promises w; effects := effects w |}.

Definition set_completed (x : JsSet.t) (w : World) : World :=
  {| key := key w; pollRate := pollRate w; broken := broken w;
     pending := pending w; active := active w; completed := x;
     processing := processing w; error := error w;
     awaitingInit := awaitingInit w; awaitingBatch := awaitingBatch w;
     timers := timers w; promises := promises w; effects := effects w |}.

Definition set_processing (x : bool) (w : World) : World :=
  {| key := key w; pollRate := pollRate w; broken := broken w;
     pending := pending w; active := active w; completed := completed w;
     processing := x; error := error w;
     awaitingInit := awaitingInit w; awaitingBatch := awaitingBatch w;
     timers := timers w; promises := promises w; effects := effects w |}.

Definition set_error (x : option string) (w : World) : World :=
  {| key := key w; pollRate := pollRate w; broken := broken w;
     pending := pending w; active := active w; completed := completed w;
     processing := processing w; error := x;
     awaitingInit := awaitingInit w; awaitingBatch := awaitingBatch w;
     timers := timers w; promises := promises w; effects := effects w |}.

Definition set_awaitingInit (x : nat) (w : World) : World :=
  {| key := key w; pollRate := pollRate w; broken := broken w;
     pending := pending w; active := active w; completed := completed w;
     processing := processing w; error := error w;
     awaitingInit := x; awaitingBatch := awaitingBatch w;
     timers := timers w; promises := promises w; effects := effects w |}.

Definition set_awaitingBatch (x : list Round) (w : World) : World :=
  {| key := key w; pollRate := pollRate w; broken := broken w;
     pending := pending w; active := active w; completed := completed w;
     processing := processing w; error := error w;
     awaitingInit := awaitingInit w; awaitingBatch := x;
     timers := timers w; promises := promises w; effects := effects w |}.

Definition set_timers (x : list Z) (w : World) : World :=
  {| key := key w; pollRate := pollRate w; broken := broken w;
     pending := pending w; active := active w; completed := completed w;
     processing := processing w; error := error w;
     awaitingInit := awaitingInit w; awaitingBatch := awaitingBatch w;
     timers := x; promises := promises w; effects := effects w |}.

Definition set_promises (x : nat) (w : World) : World :=
  {| key := key w; pollRate := pollRate w; broken := broken w;
     pending := pending w; active := active w; completed := completed w;
     processing := processing w; error := error w;
     awaitingInit := awaitingInit w; awaitingBatch := awaitingBatch w;
     timers := timers w; promises := x; effects := effects w |}.

Definition emit (e : Effect) (w : World) : World :=
  {| key := key w; pollRate := pollRate w; broken := broken w;
     pending := pending w; active := active w; completed := completed w;
     processing := processing w; error := error w;
     awaitingInit := awaitingInit w; awaitingBatch := awaitingBatch w;
     timers := timers w; promises := promises w; effects := e :: effects w |}.

(** [setTimeout(() => this.processIfNeeded(), delay)] *)
Definition setTimeout (delay : Z) (w : World) : World :=
  set_timers (timers w ++ [delay]) (emit (SetTimeout delay) w).

(** The TypeError that reading [requestKey] of a null item throws. *)
Definition nullItem : JsError :=
  Error "Cannot read properties of null (reading 'requestKey')".

(** [items.forEach(f)] for a callback that first reads a property of its
    item: the loop runs up to the first null item and throws there.  The
    result is the state reached and whether the loop threw. *)
Fixpoint forEachItem (A : Type) (f : A -> World -> World)
    (items : list (option A)) (w : World) : World * bool :=
  match items with
  | [] => (w, false)
  | None :: _ => (w, true)
  | Some item :: rest => forEachItem f rest (f item w)
  end.

(** ** The methods of the class *)

Section Client.

(** [JSON.parse]: [None] when it throws. *)
Variable JSON_parse : string -> option Json.

Definition getState (w : World) : KeyBridgeStateType := {|
  st_connected := negb (broken w) && truthy (key w);
  st_processing := processing w;
  st_error := error w;
  st_pollRate := pollRate w;
  st_pending := JsMap.size (pending w);
  st_active := JsMap.size (active w);
  st_completed := JsSet.size (completed w)
|}.

Definition notifyStateChange (w : World) : World :=
  emit (Notify (getState w)) w.

Definition getErrorMessage (e : JsError) : string :=
  if instanceofError e then message e else "Unknown error".

Definition isConnected (w : World) : bool :=
  negb (broken w) && truthy (key w) && negb (truthy (error w)).

Definition getLastError (w : World) : option string := error w.

Definition parseResult (result : unknown) : unknown :=
  match result with
  | Some (JStr s) =>
      match JSON_parse s with
      | Some (JObj fields) =>
          match get_field "result" fields with
          | Some r => Some r
          | None => Some (JObj fields)
          end
      | Some parsed => Some parsed
      | None => result
      end
  | Some (JObj fields) =>
      match get_field "method" fields, get_field "result" fields with
      | Some _, Some r => Some r
      | _, _ => result
      end
  | _ => result
  end.

Definition resetState (w : World) : World :=
  let w := fold_left
             (fun w req => emit (Reject (promise req) "Connection reset") w)
             (JsMap.values (pending w) ++ JsMap.values (active w)) w in
  let w := set_pending JsMap.empty w in
  let w := set_active JsMap.empty w in
  let w := set_completed JsSet.empty w in
  let w := set_processing false w in
  notifyStateChange w.

Definition validateInitResponse (body : ResponseBody) : JsError + option ServerData :=
  match body with
  | NotAnObject => inl (Error "Invalid response structure")
  | Wrapped ok d =>
      if negb ok then inl (Error "Server returned error status") else inr d
  | Direct d =>
      match intervalMs d, results d, created d, cleanupCount d with
      | None, None, None, None => inl (Error "Unrecognized response format")
      | _, _, _, _ => inr (Some d)
      end
  end.

Definition clamp (n : Z) : Z := Z.max 500 (Z.min 10000 n).

Definition hasWork (w : World) : bool :=
  (0 <? JsMap.size (pending w))%nat
  || (0 <? JsMap.size (active w))%nat
  || (0 <? JsSet.size (completed w))%nat.

(** The [finally] of [processIfNeeded]; it runs when [processBatch] ends. *)
Definition processIfNeeded_finally (w : World) : World :=
  notifyStateChange (set_processing false w).

Definition callPayload (req : BatchRequestType) : CallPayload := {|
  cp_requestKey := requestKey req;
  cp_method := method (call req);
  cp_params := match params (call req) with Some ps => ps | None => [] end
|}.

(** [processBatch] up to its [await]. *)
Definition processBatch (w : World) : World :=
  match key w with
  | Some (String c k) =>
      if broken w then processIfNeeded_finally w else
      let payload := {|
        pl_key := String c k;
        completedKeys := completed w;
        statusRequestKeys := JsMap.keys (active w);
        calls := map callPayload (JsMap.values (pending w))
      |} in
      let round := {|
        batchToSend := JsMap.copy (pending w);
        completedSnapshot := completed w
      |} in
      let w := set_pending JsMap.empty w in
      let w := set_completed JsSet.empty w in
      let w := emit (PostBatch payload (pollRate w * 2)) w in
      set_awaitingBatch (awaitingBatch w ++ [round]) w
  | _ => processIfNeeded_finally w
  end.

Definition processIfNeeded (w : World) : World :=
  if broken w || processing w || negb (truthy (key w)) then w else
  if negb (hasWork w) then w else
  let w := set_processing true w in
  let w := notifyStateChange w in
  processBatch w.

Definition handleResult (res : ServerResult.t) (w : World) : World :=
  match JsMap.get (ServerResult.requestKey res) (active w) with
  | None => w
  | Some request =>
      match ServerResult.status res with
      | StatusDone =>
          let w :=
            match ServerResult.isError res with
            | Some true =>
                emit (Reject (promise request)
                        match ServerResult.result res with
                        | Some (JStr s) => s
                        | _ => "Execution failed"
                        end) w
            | _ =>
                emit (Resolve (promise request)
                        (parseResult (ServerResult.result res))) w
            end in
          let w := set_active (JsMap.delete (ServerResult.requestKey res) (active w)) w in
          set_completed (JsSet.add (ServerResult.requestKey res) (completed w)) w
      | StatusPending => w
      end
  end.

Definition handleCreated (batch : JsMap.t BatchRequestType)
    (item : Created.t) (w : World) : World :=
  match JsMap.get (Created.requestKey item) batch with
  | None => w
  | Some request =>
      if String.eqb (Created.status item) "pending"
      then set_active (JsMap.set (Created.requestKey item) request (active w)) w
      else emit (Reject (promise request) "Failed to enqueue request") w
  end.

(** [handleBatchResponse]: the state it leaves, and the error it throws
    when it meets a null item.  What was done before the throw stays
    done. *)
Definition handleBatchResponse (data : ServerData)
    (batch : JsMap.t BatchRequestType) (w : World) : World * option JsError :=
  let w := match intervalMs data with
           | Some n => set_pollRate (clamp n) w
           | None => w
           end in
  let (w, threw) := match results data with
                    | Some rs => forEachItem handleResult rs w
                    | None => (w, false)
                    end in
  if threw then (w, Some nullItem) else
  let (w, threw) := match created data with
                    | Some cs => forEachItem (handleCreated batch) cs w
                    | None => (w, false)
                    end in
  if threw then (w, Some nullItem) else
  (notifyStateChange w, None).

Definition isCritical (e : JsError) : bool :=
  match response e with
  | Some r => (status r =? 404) || (status r =? 500)
  | None => false
  end.

Definition handleBatchError (e : JsError) (r : Round) (w : World) : World :=
  let errorMsg := getErrorMessage e in
  let w := JsMap.forEach
             (fun k request w => set_pending (JsMap.set k request (pending w)) w)
             (batchToSend r) w in
  let w := JsSet.forEach
             (fun k w => set_completed (JsSet.add k (completed w)) w)
             (completedSnapshot r) w in
  let w := set_error (Some errorMsg) w in
  let w :=
    if isCritical e then
      let w := set_broken true w in
      let w :=
        match response e with
        | Some rsp =>
            if status rsp =? 404 then
              let w := set_key None w in
              set_error (Some (or_else (data_message rsp)
                                 "Session not found. Create key again.")) w
            else w
        | None => w
        end in
      resetState w
    else
      setTimeout (Z.min 2000 (pollRate w)) w in
  notifyStateChange w.

(** [processBatch] from its [await] to its end, then the [finally] of
    [processIfNeeded]: the post resolved with [body].  Whatever is thrown
    inside the [try] (by [validateInitResponse], for a null [data], or by
    [handleBatchResponse] part of the way through the response) reaches
    [handleBatchError]. *)
Definition processBatch_resolved (r : Round) (body : ResponseBody) (w : World) : World :=
  let w :=
    match validateInitResponse body with
    | inl e => handleBatchError e r w
    | inr None => handleBatchError (Error "Invalid batch response") r w
    | inr (Some responseData) =>
        match handleBatchResponse responseData (batchToSend r) w with
        | (w, Some e) => handleBatchError e r w
        | (w, None) => if hasWork w then setTimeout (pollRate w) w else w
        end
    end in
  processIfNeeded_finally w.

(** The same when the post was rejected with [e]. *)
Definition processBatch_rejected (r : Round) (e : JsError) (w : World) : World :=
  processIfNeeded_finally (handleBatchError e r w).

(** The [catch] of [setKey]. *)
Definition setKey_catch (e : JsError) (w : World) : World :=
  let w := set_error (Some (getErrorMessage e)) w in
  let w := notifyStateChange w in
  emit (SetKeyThrew (getErrorMessage e)) w.

(** The [catch] of [initializeConnection]; what it throws reaches the
    [catch] of [setKey]. *)
Definition initializeConnection_catch (e : JsError) (w : World) : World :=
  match response e with
  | Some rsp =>
      if status rsp =? 404 then
        let w := set_broken true w in
        let w := set_error (Some (or_else (data_message rsp)
                                    "Session not found. Create key again.")) w in
        let w := set_key None w in
        setKey_catch (Error "KEY_NOT_FOUND") w
      else setKey_catch e w
  | None => setKey_catch e w
  end.

(** [initializeConnection] up to its [await]. *)
Definition initializeConnection (w : World) : World :=
  match key w with
  | Some (String c k) =>
      set_awaitingInit (S (awaitingInit w)) (emit (PostInit (String c k) 5000) w)
  | _ => setKey_catch (Error "No connection key") w
  end.

(** [initializeConnection] from its [await] on, then the rest of
    [setKey]: the post resolved with [body].  Reading [intervalMs] of a
    null [data] throws a TypeError inside the [try]. *)
Definition initializeConnection_resolved (body : ResponseBody) (w : World) : World :=
  match validateInitResponse body with
  | inl e => initializeConnection_catch e w
  | inr None =>
      initializeConnection_catch
        (Error "Cannot read properties of null (reading 'intervalMs')") w
  | inr (Some serverResponse) =>
      let w := match intervalMs serverResponse with
               | Some n => if 0 <? n then set_pollRate (clamp n) w else w
               | None => w
               end in
      emit SetKeyReturned (notifyStateChange w)
  end.

Definition initializeConnection_rejected (e : JsError) (w : World) : World :=
  initializeConnection_catch e w.

(** [setKey] up to its [await] (or to its end when there is none). *)
Definition setKey (k : option string) (w : World) : World :=
  let w := set_broken false w in
  let w := set_error None w in
  let w := resetState w in
  let w := set_key match trim (or_else k EmptyString) with
                   | EmptyString => None
                   | s => Some s
                   end w in
  if negb (truthy (key w)) then
    emit SetKeyReturned (notifyStateChange w)
  else
    initializeConnection w.

(** [executeOrFallback]; [requestKey] and [now] are what
    [generateRequestKey] and [Date.now] give at the call. *)
Definition executeOrFallback (requestKey : string) (now : Z)
    (apiCall : ApiCallType) (w : World) : World :=
  if broken w || negb (truthy (key w)) then
    emit (CallFallback apiCall) w
  else
    let request := {|
      requestKey := requestKey;
      call := apiCall;
      promise := promises w;
      timestamp := now
    |} in
    let w := set_promises (S (promises w)) w in
    let w := set_pending (JsMap.set requestKey request (pending w)) w in
    let w := notifyStateChange w in
    processIfNeeded w.

(** ** The environment *)

Inductive Event :=
| CallSetKey (k : option string)
| InitResolved (body : ResponseBody)
| InitRejected (e : JsError)
| CallExecuteOrFallback (requestKey : string) (now : Z) (apiCall : ApiCallType)
| BatchResolved (i : nat) (body : ResponseBody)
| BatchRejected (i : nat) (e : JsError)
| TimerFired (i : nat).

Fixpoint remove_nth {A : Type} (i : nat) (l : list A) : list A :=
  match i, l with
  | _, [] => []
  | O, _ :: l' => l'
  | S i', x :: l' => x :: remove_nth i' l'
  end.

(** One turn of the event loop; [None] when the event cannot happen
    (no such suspended call or timer). *)
Definition step (w : World) (ev : Event) : option World :=
  match ev with
  | CallSetKey k => Some (setKey k w)
  | CallExecuteOrFallback rk now c => Some (executeOrFallback rk now c w)
  | InitResolved body =>
      match awaitingInit w with
      | O => None
      | S n => Some (initializeConnection_resolved body (set_awaitingInit n w))
      end
  | InitRejected e =>
      match awaitingInit w with
      | O => None
      | S n => Some (initializeConnection_rejected e (set_awaitingInit n w))
      end
  | BatchResolved i body =>
      match nth_error (awaitingBatch w) i with
      | None => None
      | Some r =>
          Some (processBatch_resolved r body
                  (set_awaitingBatch (remove_nth i (awaitingBatch w)) w))
      end
  | BatchRejected i e =>
      match nth_error (awaitingBatch w) i with
      | None => None
      | Some r =>
          Some (processBatch_rejected r e
                  (set_awaitingBatch (remove_nth i (awaitingBatch w)) w))
      end
  | TimerFired i =>
      match nth_error (timers w) i with
      | None => None
      | Some _ => Some (processIfNeeded (set_timers (remove_nth i (timers w)) w))
      end
  end.

Fixpoint run (w : World) (evs : list Event) : option World :=
  match evs with
  | [] => Some w
  | ev :: evs' =>
      match step w ev with
      | Some w' => run w' evs'
      | None => None
      end
  end.

Definition reachable (w : World) : Prop :=
  exists evs, run initial evs = Some w.

End Client.


(** ** The other copy of the class *)

(** The repository holds a second copy of KeyBridgeClient.ts (the file
    without a name under [unnamed/]).  It is the class above but for two
    methods: its [parseResult] only decodes, so that its [handleBatchResponse]
    resolves with the decoded value, and its [processBatch] re-arms the
    timer on [pending] and [active] alone. *)
Module OtherCopy.

Definition parseResult (JSON_parse : string -> option Json)
    (result : unknown) : unknown :=
  match result with
  | Some (JStr s) =>
      match JSON_parse s with
      | Some parsed => Some parsed
      | None => result
      end
  | _ => result
  end.

Definition shouldScheduleNext (w : World) : bool :=
  (0 <? JsMap.size (pending w))%nat || (0 <? JsMap.size (active w))%nat.

Definition handleResult (JSON_parse : string -> option Json)
    (res : ServerResult.t) (w : World) : World :=
  match JsMap.get (ServerResult.requestKey res) (active w) with
  | None => w
  | Some request =>
      match ServerResult.status res with
      | StatusDone =>
          let w :=
            match ServerResult.isError res with
            | Some true =>
                emit (Reject (promise request)
                        match ServerResult.result res with
                        | Some (JStr s) => s
                        | _ => "Execution failed"
                        end) w
            | _ =>
                emit (Resolve (promise request)
                        (parseResult JSON_parse (ServerResult.result res))) w
            end in
          let w := set_active (JsMap.delete (ServerResult.requestKey res) (active w)) w in
          set_completed (JsSet.add (ServerResult.requestKey res) (completed w)) w
      | StatusPending => w
      end
  end.

Definition handleBatchResponse (JSON_parse : string -> option Json)
    (data : ServerData) (batch : JsMap.t BatchRequestType) (w : World)
    : World * option JsError :=
  let w := match intervalMs data with
           | Some n => set_pollRate (clamp n) w
           | None => w
           end in
  let (w, threw) := match results data with
                    | Some rs => forEachItem (handleResult JSON_parse) rs w
                    | None => (w, false)
                    end in
  if threw then (w, Some nullItem) else
  let (w, threw) := match created data with
                    | Some cs => forEachItem (handleCreated batch) cs w
                    | None => (w, false)
                    end in
  if threw then (w, Some nullItem) else
  (notifyStateChange w, None).

Definition processBatch_resolved (JSON_parse : string -> option Json)
    (r : Round) (body : ResponseBody) (w : World) : World :=
  let w :=
    match validateInitResponse body with
    | inl e => handleBatchError e r w
    | inr None => handleBatchError (Error "Invalid batch response") r w
    | inr (Some responseData) =>
        match handleBatchResponse JSON_parse responseData (batchToSend r) w with
        | (w, Some e) => handleBatchError e r w
        | (w, None) => if shouldScheduleNext w then setTimeout (pollRate w) w else w
        end
    end in
  processIfNeeded_finally w.

End OtherCopy.

(** * Vocabulary of the properties *)

(** The items of a list before its first null item, which are the ones
    [forEach] hands to its callback, and whether there is a null item. *)
Fixpoint itemsBefore (A : Type) (items : list (option A)) : list A :=
  match items with
  | Some item :: rest => item :: itemsBefore rest
  | _ => []
  end.

Fixpoint hasNull (A : Type) (items : list (option A)) : bool :=
  match items with
  | [] => false
  | None :: _ => true
  | Some _ :: rest => hasNull rest
  end.

(** The results and the acknowledgments that [handleBatchResponse]
    handles, and whether it throws: at the first null item of [results],
    or, when there is none, at the first null item of [created]. *)
Definition resultsOf (d : ServerData) : list ServerResult.t :=
  match results d with
  | Some rs => itemsBefore rs
  | None => []
  end.

Definition resultsThrow (d : ServerData) : bool :=
  match results d with
  | Some rs => hasNull rs
  | None => false
  end.

Definition createdOf (d : ServerData) : list Created.t :=
  if resultsThrow d then []
  else match created d with
       | Some cs => itemsBefore cs
       | None => []
       end.

Definition throws (d : ServerData) : bool :=
  resultsThrow d
  || match created d with
     | Some cs => hasNull cs
     | None => false
     end.

(** The state [handleBatchResponse] reaches before its notification, or
    before it throws. *)
Definition applied (JSON_parse : string -> option Json) (data : ServerData)
    (batch : JsMap.t BatchRequestType) (w : World) : World :=
  fold_left (fun w item => handleCreated batch item w) (createdOf data)
    (fold_left (fun w res => handleResult JSON_parse res w) (resultsOf data)
       match intervalMs data with
       | Some n => set_pollRate (clamp n) w
       | None => w
       end).

(** The connection, the flags, the suspended calls, the timers and the
    promise counter: everything but the queues and the effects. *)
Definition sameConfig (w w' : World) : Prop :=
  key w' = key w /\ pollRate w' = pollRate w /\ broken w' = broken w
  /\ processing w' = processing w /\ error w' = error w
  /\ awaitingInit w' = awaitingInit w /\ awaitingBatch w' = awaitingBatch w
  /\ timers w' = timers w /\ promises w' = promises w.

(** The two loops of [handleBatchError] as functions of the queue alone. *)
Definition restorePending (batch pend : JsMap.t BatchRequestType) : JsMap.t BatchRequestType :=
  fold_left (fun m kv => JsMap.set (fst kv) (snd kv) m) batch pend.

Definition restoreCompleted (snapshot done : JsSet.t) : JsSet.t :=
  fold_left (fun s k => JsSet.add k s) snapshot done.

(** The loop of [resetState]: one rejection for each request, in order. *)
Definition rejections (reason : string) (reqs : list BatchRequestType) : list Effect :=
  map (fun req => Reject (promise req) reason) reqs.

Definition emitAll (es : list Effect) (w : World) : World :=
  fold_left (fun w e => emit e w) es w.

(** The queues after the roll-back of [handleBatchError]. *)
Definition rolledBack (r : Round) (w : World) : World :=
  set_completed (restoreCompleted (completedSnapshot r) (completed w))
    (set_pending (restorePending (batchToSend r) (pending w)) w).

(** How many times a continuation of promise [p] was invoked. *)
Fixpoint invocations (p : nat) (es : list Effect) : nat :=
  match es with
  | [] => 0
  | Resolve p' _ :: es' => (if Nat.eqb p p' then 1 else 0) + invocations p es'
  | Reject p' _ :: es' => (if Nat.eqb p p' then 1 else 0) + invocations p es'
  | _ :: es' => invocations p es'
  end.

(** A request handed to [executeOrFallback]: the key and the time it
    gets, and the call. *)
Definition Submission : Type := string * Z * ApiCallType.

Definition submissionKey (s : Submission) : string := fst (fst s).

Definition submit (s : Submission) : Event :=
  CallExecuteOrFallback (fst (fst s)) (snd (fst s)) (snd s).

(** The entries that a series of submissions adds to [pending], the first
    of them on promise [p]. *)
Fixpoint submitted (p : nat) (subs : list Submission) : JsMap.t BatchRequestType :=
  match subs with
  | [] => []
  | s :: rest =>
      (submissionKey s,
       {| requestKey := submissionKey s; call := snd s;
          promise := p; timestamp := snd (fst s) |})
      :: submitted (S p) rest
  end.

(** How many posts were sent. *)
Fixpoint posts (es : list Effect) : nat :=
  match es with
  | [] => 0
  | PostInit _ _ :: es' => S (posts es')
  | PostBatch _ _ :: es' => S (posts es')
  | _ :: es' => posts es'
  end.

(** What reconciling a response leaves alone: the configuration, the
    [pending] map, and the number of posts sent. *)
Definition reconciled (w w' : World) : Prop :=
  sameConfig w w' /\ pending w' = pending w
  /\ posts (effects w') = posts (effects w).

(** A rejected post carries an error with a message. *)
Definition rejectionHasMessage (ev : Event) : Prop :=
  match ev with
  | InitRejected e => getErrorMessage e <> EmptyString
  | BatchRejected _ e => getErrorMessage e <> EmptyString
  | _ => True
  end.

Definition isSetKey (ev : Event) : bool :=
  match ev with CallSetKey _ => true | _ => false end.

(** The round in flight at index [i] ends in a transient failure before
    any of its response is handled: its post is rejected with an error
    that has no status 404 or 500, or the body of its response is not
    accepted. *)
Definition failsTransiently (i : nat) (ev : Event) : Prop :=
  match ev with
  | BatchRejected j e =>
      j = i
      /\ forall rsp, response e = Some rsp -> status rsp <> 404 /\ status rsp <> 500
  | BatchResolved j body =>
      j = i /\ forall d, validateInitResponse body <> inr (Some d)
  | _ => False
  end.

(** How many entries of a map hold a request of promise [p]. *)
Fixpoint queued (p : nat) (m : JsMap.t BatchRequestType) : nat :=
  match m with
  | [] => 0
  | (_, req) :: m' => (if Nat.eqb p (promise req) then 1 else 0) + queued p m'
  end.

(** The same over the snapshots of the rounds in flight. *)
Fixpoint inFlight (p : nat) (rounds : list Round) : nat :=
  match rounds with
  | [] => 0
  | r :: rounds' => queued p (batchToSend r) + inFlight p rounds'
  end.

(** How many places still hold the request of promise [p]: the [pending]
    map, the [active] map, and the snapshots of the rounds in flight. *)
Definition live (p : nat) (w : World) : nat :=
  queued p (pending w) + queued p (active w) + inFlight p (awaitingBatch w).

(** A batch response holds no null item and acknowledges no request key
    twice in [created]. *)
Definition ackedOnce (ev : Event) : Prop :=
  match ev with
  | BatchResolved _ body =>
      match validateInitResponse body with
      | inr (Some d) =>
          throws d = false /\ NoDup (map Created.requestKey (createdOf d))
      | _ => True
      end
  | _ => True
  end.

(** [setKey] is called only when no round is in flight. *)
Fixpoint calm (JSON_parse : string -> option Json)
    (w : World) (evs : list Event) : Prop :=
  match evs with
  | [] => True
  | ev :: evs' =>
      (isSetKey ev = true -> awaitingBatch w = [])
      /\ match step JSON_parse w ev with
         | Some w' => calm JSON_parse w' evs'
         | None => True
         end
  end.

(** The flag and the rounds in flight agree. *)
Definition oneFlight (w : World) : Prop :=
  List.length (awaitingBatch w) = if processing w then 1%nat else 0%nat.

(** What has become of the request of promise [p]: the invocations of its
    continuations so far, plus the places that still hold it. *)
Definition fate (p : nat) (w : World) : nat :=
  (invocations p (effects w) + live p w)%nat.

(** From [w] to [w'] the continuations of [p] were invoked at most as
    often as requests of [p] left the [active] map, up to [budget]. *)
Definition spends (p budget : nat) (w w' : World) : Prop :=
  (invocations p (effects w) <= invocations p (effects w')
   /\ invocations p (effects w') + queued p (active w')
      <= invocations p (effects w) + queued p (active w) + budget)%nat.

(** ** Scenarios *)

(** The world after a series of events, from the initial one, with the
    decoder of this file. *)
Definition after (w : World) (evs : list Event) : World :=
  match run JSON.parse w evs with
  | Some w' => w'
  | None => w
  end.

Definition worldAfter (evs : list Event) : World := after initial evs.

(** The round that is in flight after [submitA] below. *)
Definition roundA : Round :=
  {| batchToSend :=
       [("A", {| requestKey := "A";
                 call := {| method := "b24Call";
                            params := Some [JStr "user.current"] |};
                 promise := 0; timestamp := 1 |})];
     completedSnapshot := [] |}.

Definition noData : ServerData :=
  {| intervalMs := None; results := None; created := None; cleanupCount := None |}.

Definition withInterval (n : Z) : ServerData :=
  {| intervalMs := Some n; results := None; created := None; cleanupCount := None |}.

Definition withCreated (cs : list Created.t) : ServerData :=
  {| intervalMs := None; results := None; created := Some (map Some cs);
     cleanupCount := None |}.

Definition withResults (rs : list ServerResult.t) : ServerData :=
  {| intervalMs := None; results := Some (map Some rs); created := None;
     cleanupCount := None |}.

Definition userCurrent : ApiCallType :=
  {| method := "b24Call"; params := Some [JStr "user.current"] |}.

Definition acknowledged (k : string) : Created.t :=
  {| Created.requestKey := k; Created.status := "pending" |}.

Definition refused (k : string) : Created.t :=
  {| Created.requestKey := k; Created.status := "rejected" |}.

(** A done result whose payload is the JSON text of an object with a
    [result] field of 42. *)
Definition done42 (k : string) : ServerResult.t :=
  {| ServerResult.requestKey := k;
     ServerResult.status := StatusDone;
     ServerResult.result := Some (JStr ("{" ++ JSON.q "result" ++ ":42}")%string);
     ServerResult.isError := None |}.

(** An HTTP failure with a status and, possibly, a message in its body. *)
Definition httpError (st : Z) (msg : option string) : JsError :=
  {| instanceofError := true;
     message := "Request failed";
     response := Some {| status := st; data_message := msg |} |}.

Definition timeoutError : JsError := Error "timeout of 2000ms exceeded".

(** A key is set and the channel answers with a poll interval. *)
Definition connect : list Event :=
  [CallSetKey (Some " abc "); InitResolved (Wrapped true (Some (withInterval 1000)))].

(** Then a call is submitted: its round is in flight. *)
Definition submitA : list Event :=
  connect ++ [CallExecuteOrFallback "A" 1 userCurrent].

(** The round succeeds and acknowledges the call: it is active. *)
Definition activeA : list Event :=
  submitA ++ [BatchResolved 0 (Direct (withCreated [acknowledged "A"]))].

(** The next round brings its result. *)
Definition resolvedA : list Event :=
  activeA ++ [TimerFired 0; BatchResolved 0 (Direct (withResults [done42 "A"]))].

(** The round of the call succeeds, and its response acknowledges
    nothing. *)
Definition unacknowledgedA : list Event :=
  submitA ++ [BatchResolved 0 (Wrapped true (Some noData))].

(** The call is active, the next round starts and fails with status 500. *)
Definition failed500 : list Event :=
  activeA ++ [TimerFired 0; BatchRejected 0 (httpError 500 None)].

(** While the round of a call is in flight the key is set again, and
    another call is submitted. *)
Definition twoRounds : list Event :=
  submitA ++ [CallSetKey (Some "def"); CallExecuteOrFallback "B" 2 userCurrent].

(** The poll rate is 3000 when the key is set again, and the channel
    answers with an interval of 0. *)
Definition intervalZero : list Event :=
  [CallSetKey (Some "abc"); InitResolved (Direct (withInterval 3000));
   CallSetKey (Some "abc"); InitResolved (Direct (withInterval 0))].

(** The round of a call fails with a timeout. *)
Definition timedOut : list Event :=
  submitA ++ [BatchRejected 0 timeoutError].

(** A response whose [created] list holds one item and then null. *)
Definition thenNull (item : Created.t) : ServerData :=
  {| intervalMs := None; results := None;
     created := Some [Some item; None]; cleanupCount := None |}.

(** The round of the call is answered with a refusal followed by a null
    item; the retry is answered with a refusal. *)
Definition refusedTwice : list Event :=
  submitA ++ [BatchResolved 0 (Direct (thenNull (refused "A")));
              TimerFired 0;
              BatchResolved 0 (Direct (withCreated [refused "A"]))].

(** The round of the call is answered with an acknowledgment followed by
    a null item. *)
Definition acknowledgedThenNull : list Event :=
  submitA ++ [BatchResolved 0 (Direct (thenNull (acknowledged "A")))].

(** While the round of a call is in flight the key is set again; then the
    response of the round arrives and acknowledges the call. *)
Definition rekeyed : list Event :=
  submitA ++ [CallSetKey (Some "def")].

Definition carriedOver : list Event :=
  rekeyed ++ [BatchResolved 0 (Direct (withCreated [acknowledged "A"]))].

(** The round of a call is rejected with an error whose message is the
    empty string. *)
Definition emptyMessage : list Event :=
  submitA ++ [BatchRejected 0 (Error EmptyString)].

(** After the result of the first call a second call is submitted, and its
    round fails with a timeout: the second call is pending again, and the
    key of the first is in [completed] again. *)
Definition rolledBackB : list Event :=
  resolvedA ++ [CallExecuteOrFallback "B" 2 userCurrent;
                BatchRejected 0 timeoutError].

Definition submissionC : Submission := ("C", 3, userCurrent).

(** * Vocabulary of the further properties *)

(** A map of requests is keyed by the request keys: no key twice, and
    every request under its own [requestKey]. *)
Definition wellKeyed (m : JsMap.t BatchRequestType) : Prop :=
  NoDup (JsMap.keys m)
  /\ forall k req, In (k, req) m -> requestKey req = k.

Definition roundWellFormed (r : Round) : Prop :=
  wellKeyed (batchToSend r) /\ NoDup (completedSnapshot r).

Definition queuesWellFormed (w : World) : Prop :=
  wellKeyed (pending w) /\ wellKeyed (active w) /\ NoDup (completed w)
  /\ Forall roundWellFormed (awaitingBatch w).

(** Whether [item] acknowledges the key [k] as created. *)
Definition acknowledges (k : string) (item : Created.t) : bool :=
  String.eqb (Created.requestKey item) k
  && String.eqb (Created.status item) "pending".

(** The request that the acknowledgments [cs] move to [active] under the
    key [k]: the one the snapshot holds under [k], when [cs] acknowledges
    [k]. *)
Definition promoted (batch : JsMap.t BatchRequestType)
    (cs : list Created.t) (k : string) : option BatchRequestType :=
  if existsb (acknowledges k) cs then JsMap.get k batch else None.

(** The reason a failed result rejects with. *)
Definition failureReason (res : ServerResult.t) : string :=
  match ServerResult.result res with
  | Some (JStr s) => s
  | _ => "Execution failed"
  end.

(** The effects that stay inside the page: everything but a post and a
    call of the fallback. *)
Definition internalEffect (e : Effect) : Prop :=
  match e with
  | PostInit _ _ | PostBatch _ _ | CallFallback _ => False
  | _ => True
  end.

(** From [w] to [w'] the effects only grew, by effects that satisfy [Q]. *)
Definition extends (Q : Effect -> Prop) (w w' : World) : Prop :=
  exists new, effects w' = new ++ effects w /\ Forall Q new.

(** The body of the batch request that a round started in [w] under the
    key [k] sends. *)
Definition payloadOf (k : string) (w : World) : Payload := {|
  pl_key := k;
  completedKeys := completed w;
  statusRequestKeys := JsMap.keys (active w);
  calls := map callPayload (JsMap.values (pending w))
|}.

(** A key as [setKey] leaves it: not empty, and trimmed. *)
Definition normalKey (k : string) : Prop :=
  k <> EmptyString /\ trim k = k.

(** What can be said of every post: its key is a normal key, the timeout
    of an initialization is 5000 ms, and the timeout of a batch is between
    1000 and 20000 ms. *)
Definition postOk (e : Effect) : Prop :=
  match e with
  | PostInit k t => normalKey k /\ t = 5000
  | PostBatch pl t => normalKey (pl_key pl) /\ 1000 <= t <= 20000
  | _ => True
  end.

(** How many calls were handed to the fallback. *)
Fixpoint fallbacks (es : list Effect) : nat :=
  match es with
  | [] => 0
  | CallFallback _ :: es' => S (fallbacks es')
  | _ :: es' => fallbacks es'
  end.

(** How many events are calls of [executeOrFallback]. *)
Fixpoint submissions (evs : list Event) : nat :=
  match evs with
  | [] => 0
  | CallExecuteOrFallback _ _ _ :: evs' => S (submissions evs')
  | _ :: evs' => submissions evs'
  end.

(** The key is null or a normal key, the poll rate is in its range, and
    every post so far was in order. *)
Definition wellConnected (w : World) : Prop :=
  (forall k, key w = Some k -> normalKey k)
  /\ 500 <= pollRate w <= 10000
  /\ Forall postOk (effects w).

(** * The mock data: mockDataLoader.ts, api.ts, utils/normalizeMockFiles.ts

    What answers a call when the client has no key: the fallback of
    [b24Call] is [findMock], over the mocks [loadMockData] has read from
    the JSON files of /src/mock.  A file content is a [Json]; an optional
    field of a mock is [None] when it is undefined. *)

Record MockMethodType := {
  mm_method : string;
  mm_params : unknown;
  mm_result : unknown;
  mm_delay : unknown
}.

Record FieldsFileType := {
  ff_data : Json;
  ff_mtime : Z
}.

Record MockDataType := {
  latestFields : Json;
  methodMocks : list MockMethodType
}.

(** [name in obj] *)
Definition has_field (name : string) (fields : list (string * Json)) : bool :=
  match get_field name fields with
  | Some _ => true
  | None => false
  end.

(** [obj.name = v]: the property keeps its place, a new one goes last. *)
Fixpoint set_field (name : string) (v : Json) (fields : list (string * Json))
    : list (string * Json) :=
  match fields with
  | [] => [(name, v)]
  | (k, x) :: rest =>
      if String.eqb name k then (k, v) :: rest
      else (k, x) :: set_field name v rest
  end.

(** [a ?? b] *)
Definition nullish (a : unknown) (b : Json) : Json :=
  match a with
  | None => b
  | Some JNull => b
  | Some v => v
  end.

(** Truthiness of a value: [!!v]. *)
Definition truthyValue (v : unknown) : bool :=
  match v with
  | None => false
  | Some JNull => false
  | Some (JBool b) => b
  | Some (JNum n) => negb (n =? 0)
  | Some (JStr EmptyString) => false
  | Some _ => true
  end.

(** [a === b] on [string | undefined] *)
Definition strictEq (a b : option string) : bool :=
  match a, b with
  | Some x, Some y => String.eqb x y
  | None, None => true
  | _, _ => false
  end.

Definition isApiObjectFieldsType (obj : unknown) : bool :=
  match obj with
  | Some (JObj fields) => has_field "placement" fields
  | _ => false
  end.

Definition isMockMethodType (obj : unknown) : bool :=
  match obj with
  | Some (JObj fields) =>
      match get_field "method" fields with
      | Some (JStr _) => has_field "result" fields
      | _ => false
      end
  | _ => false
  end.

Definition normalizeParams (params : unknown) : unknown :=
  match params with
  | Some (JArr []) => Some (JObj [])
  | Some (JObj []) => Some (JObj [])
  | _ => params
  end.

(** The field [name] of a content, [undefined] when the content has no
    such property. *)
Definition field (name : string) (content : Json) : unknown :=
  match content with
  | JObj fields => get_field name fields
  | _ => None
  end.

(** [content.method] under the guard [isMockMethodType], which makes it a
    string. *)
Definition methodOf (content : Json) : string :=
  match field "method" content with
  | Some (JStr s) => s
  | _ => EmptyString
  end.

Definition defaultMockData : MockDataType :=
  {| latestFields := JObj [("placement", JNull)]; methodMocks := [] |}.

(** [fieldsFiles.sort((a, b) => b.mtime.getTime() - a.mtime.getTime())]:
    the stable sort, latest first. *)
Fixpoint insertByMtime (f : FieldsFileType) (l : list FieldsFileType)
    : list FieldsFileType :=
  match l with
  | [] => [f]
  | g :: rest =>
      if ff_mtime g <=? ff_mtime f then f :: l else g :: insertByMtime f rest
  end.

Definition sortByMtime (l : list FieldsFileType) : list FieldsFileType :=
  fold_right insertByMtime [] l.

(** The outcome of the script of normalizeMockFiles.ts on one file: the
    content whose text it writes back, nothing, or the error it logs. *)
Inductive FileOutcome :=
| Untouched
| Rewritten (content : Json)
| Failed.

(** The body of the script's loop after [JSON.parse]. *)
Definition normalizeContent (content : Json) : FileOutcome :=
  match content with
  | JNull => Failed
  | JObj fields =>
      match get_field "params" fields with
      | Some (JArr []) => Rewritten (JObj (set_field "params" (JObj []) fields))
      | _ => Untouched
      end
  | _ => Untouched
  end.

Fixpoint endsWith_rev (s suffix : list ascii) : bool :=
  match suffix, s with
  | [], _ => true
  | c :: suffix', d :: s' => Ascii.eqb c d && endsWith_rev s' suffix'
  | _ :: _, [] => false
  end.

(** [s.endsWith(suffix)] *)
Definition endsWith (s suffix : string) : bool :=
  endsWith_rev (rev (list_ascii_of_string s)) (rev (list_ascii_of_string suffix)).

(** What [findMock] does: whether it reports a missing mock on the
    console, the delay it waits for, and the value of its promise. *)
Record MockAnswer := {
  reported : bool;
  delayed : unknown;
  answer : unknown
}.

Section Mocks.

Variable JSON_parse : string -> option Json.
Variable JSON_stringify : unknown -> option string.

Definition areParamsEqual (params1 params2 : unknown) : bool :=
  let normalized1 := normalizeParams params1 in
  let normalized2 := normalizeParams params2 in
  strictEq (JSON_stringify normalized1) (JSON_stringify normalized2).

(** The body of the loop of [loadMockData] on one content; [now] is what
    [new Date()] gives when the content is visited. *)
Definition loadFile (acc : list FieldsFileType * list MockMethodType)
    (file : Json * Z) : list FieldsFileType * list MockMethodType :=
  let (fieldsFiles, methodMocks) := acc in
  let (content, now) := file in
  if isApiObjectFieldsType (Some content) then
    (fieldsFiles ++ [{| ff_data := content; ff_mtime := now |}], methodMocks)
  else if isMockMethodType (Some content) then
    let normalizedParams :=
      normalizeParams (Some (nullish (field "params" content) (JObj []))) in
    (fieldsFiles,
     methodMocks ++ [{| mm_method := methodOf content;
                        mm_params := normalizedParams;
                        mm_result := field "result" content;
                        mm_delay := field "delay" content |}])
  else acc.

(** [loadMockData]; [DEV] is [import.meta.env.DEV] and [mockModules] the
    contents of the files of /src/mock in the order of
    [Object.values(mockModules)]. *)
Definition loadMockData (DEV : bool) (mockModules : list (Json * Z))
    : MockDataType :=
  if negb DEV then defaultMockData
  else
    let (fieldsFiles, methodMocks) := fold_left loadFile mockModules ([], []) in
    {| latestFields :=
         match sortByMtime fieldsFiles with
         | f :: _ => if truthyValue (Some (ff_data f)) then ff_data f else JNull
         | [] => JNull
         end;
       methodMocks := methodMocks |}.

(** [getMockData] of api.ts *)
Definition getMockData (DEV : bool) (mockModules : list (Json * Z))
    : MockDataType :=
  if DEV then loadMockData DEV mockModules else defaultMockData.

(** [findMock] of api.ts, over the [methodMocks] of the module. *)
Definition findMock (methodMocks : list MockMethodType) (method : string)
    (params : unknown) : MockAnswer :=
  let params := match params with
                | None => Some (JObj [])
                | Some _ => params
                end in
  match find (fun m => String.eqb (mm_method m) method
                       && areParamsEqual (Some (nullish (mm_params m) (JObj [])))
                            params)
          methodMocks with
  | None =>
      {| reported := true;
         delayed := None;
         answer := Some (JObj [("result", JArr [])]) |}
  | Some mock =>
      {| reported := false;
         delayed := if truthyValue (mm_delay mock) then mm_delay mock else None;
         answer := mm_result mock |}
  end.

(** [fields] of the object [createDevApi] returns. *)
Definition devFields (latestFields : Json) : Json :=
  match latestFields with
  | JNull => JObj [("placement", JNull)]
  | _ => latestFields
  end.

(** The loop of [normalizeMockFiles] on one file. *)
Definition normalizeMockFile (text : string) : FileOutcome :=
  match JSON_parse text with
  | None => Failed
  | Some content => normalizeContent content
  end.

(** [normalizeMockFiles]: the files it writes, with the content whose
    text it writes to each; [files] are the names and texts of the
    directory, when it exists. *)
Definition normalizeMockFiles (files : option (list (string * string)))
    : list (string * Json) :=
  match files with
  | None => []
  | Some files =>
      flat_map (fun file : string * string =>
                  let (name, text) := file in
                  if endsWith name ".json" then
                    match normalizeMockFile text with
                    | Rewritten content => [(name, content)]
                    | _ => []
                    end
                  else [])
        files
  end.

End Mocks.

(** The content of a file after the script has run on it. *)
Definition normalized (content : Json) : Json :=
  match normalizeContent content with
  | Rewritten content' => content'
  | _ => content
  end.

(** The mock [loadMockData] makes of a content that passes
    [isMockMethodType]. *)
Definition mockOf (content : Json) : MockMethodType :=
  {| mm_method := methodOf content;
     mm_params := normalizeParams (Some (nullish (field "params" content) (JObj [])));
     mm_result := field "result" content;
     mm_delay := field "delay" content |}.

(** The contents [loadMockData] takes for mocks: those with a string
    [method] and a [result], but no [placement]. *)
Definition isMockFile (content : Json) : bool :=
  negb (isApiObjectFieldsType (Some content)) && isMockMethodType (Some content).

(** Parameters that stand for no parameters: absent, [[]] or [{}]. *)
Definition noParams (params : unknown) : Prop :=
  params = None \/ params = Some (JArr []) \/ params = Some (JObj []).


(** ** The files of a mock directory *)

(** A mock of [user.current] saved with an empty array of parameters. *)
Definition mockUser : Json :=
  JObj [("method", JStr "user.current"); ("params", JArr []);
        ("result", JObj [("ID", JNum 1)])].

(** The input data of a placement. *)
Definition fieldsFile : Json :=
  JObj [("placement", JStr "CRM_DEAL_DETAIL_TAB")].

(** The two files, read at the same time of the clock. *)
Definition mockFiles : list (Json * Z) := [(fieldsFile, 10); (mockUser, 10)].


(** The client has work, a key and a working connection, and no round is
    running: it is up to a timer to start the next round. *)
Definition waiting (w : World) : Prop :=
  hasWork w = true /\ truthy (key w) = true
  /\ broken w = false /\ processing w = false.


(** * The status panel: ConnectionKeyPanel.vue

    The reactive variables of the component and the values computed from
    them; [clientState] is the state the client last notified. *)
Module ConnectionKeyPanel.

Record Panel := {
  showPanel : bool;
  keyInput : string;
  isLoading : bool;
  temporaryError : option string;
  clientState : KeyBridgeStateType;
  hasRecentActivity : bool
}.

(** The object [connectionStatus] returns. *)
Record Status := {
  s_type : string;
  s_color : string;
  s_icon : string;
  s_text : string;
  s_isRunning : bool
}.

(** [`${n}`] for a count. *)
Definition showNat (n : nat) : string := NilZero.string_of_uint (Nat.to_uint n).

Definition isConnected (p : Panel) : bool := st_connected (clientState p).

Definition clientError (p : Panel) : option string := st_error (clientState p).

(** [temporaryError.value || clientError.value] *)
Definition displayError (p : Panel) : option string :=
  if truthy (temporaryError p) then temporaryError p else clientError p.

Definition hasActiveOperations (p : Panel) : bool :=
  (0 <? st_pending (clientState p))%nat || (0 <? st_active (clientState p))%nat.

Definition activeCount (p : Panel) : nat :=
  (st_pending (clientState p) + st_active (clientState p))%nat.

Definition shouldRotate (p : Panel) : bool := hasActiveOperations p.

Definition statusIcon (p : Panel) : string :=
  if isLoading p then "mdi-timer-sand"
  else if hasActiveOperations p then "mdi-timer-sand"
  else if isConnected p then "mdi-connection"
  else if truthy (displayError p) then "mdi-alert-circle"
  else if truthy (Some (keyInput p)) && negb (isConnected p) then "mdi-link-off"
  else "mdi-key-remove".

Definition statusColor (p : Panel) : string :=
  if hasRecentActivity p then "warning"
  else if isLoading p then "primary"
  else if hasActiveOperations p then "primary"
  else if isConnected p then "success"
  else if truthy (displayError p) then "error"
  else if truthy (Some (keyInput p)) && negb (isConnected p) then "error"
  else "grey".

Definition connectionStatus (p : Panel) : Status :=
  if isLoading p then
    {| s_type := "warning"; s_color := "warning"; s_icon := "mdi-timer-sand";
       s_text := "Connecting..."; s_isRunning := true |}
  else if hasActiveOperations p then
    {| s_type := "info"; s_color := "primary"; s_icon := "mdi-timer-sand";
       s_text := ("Exchanging data (" ++ showNat (activeCount p) ++ " active)")%string;
       s_isRunning := true |}
  else if isConnected p then
    {| s_type := "success"; s_color := "success"; s_icon := "mdi-connection";
       s_text := "Connection active"; s_isRunning := false |}
  else if truthy (displayError p) then
    {| s_type := "error"; s_color := "error"; s_icon := "mdi-alert-circle";
       s_text := ("Error: " ++ or_else (displayError p) EmptyString)%string;
       s_isRunning := false |}
  else if truthy (Some (keyInput p)) && negb (isConnected p) then
    {| s_type := "error"; s_color := "error"; s_icon := "mdi-link-off";
       s_text := "Connection inactive"; s_isRunning := false |}
  else
    {| s_type := "info"; s_color := "grey"; s_icon := "mdi-key-remove";
       s_text := "KeyBridge disconnected"; s_isRunning := false |}.

(** The panel at rest over a state of the client: nothing typed, nothing
    loading, no error of its own. *)
Definition showing (st : KeyBridgeStateType) : Panel :=
  {| showPanel := false; keyInput := EmptyString; isLoading := false;
     temporaryError := None; clientState := st; hasRecentActivity := false |}.

End ConnectionKeyPanel.


(** * Properties *)

Unset Implicit Arguments.

(** ** Facts about the containers *)



Lemma JsMap_In_get {V : Type} k v (m : JsMap.t V) :
  NoDup (JsMap.keys m) -> In (k, v) m -> JsMap.get k m = Some v.
Proof.
  induction m as [ | [k' v'] m IH]; simpl; [tauto | ].
  intros Hnd Hin. inversion Hnd as [ | ? ? Hk' Hnd']; subst.
  destruct Hin as [[= -> ->] | Hin].
  - rewrite String.eqb_refl. reflexivity.
  - destruct (String.eqb_spec k k') as [-> | Hne]; [ | auto].
    exfalso. apply Hk'. apply (in_map fst) in Hin. exact Hin.
Qed.

Lemma JsMap_set_fresh {V : Type} k v (m : JsMap.t V) :
  ~ In k (JsMap.keys m) -> JsMap.set k v m = m ++ [(k, v)].
Proof.
  induction m as [ | [k' v'] m IH]; simpl; intros H; [reflexivity | ].
  destruct (String.eqb_spec k k') as [-> | Hne].
  - exfalso. apply H. left; reflexivity.
  - rewrite IH; [reflexivity | ]. intros Hin. apply H. right; exact Hin.
Qed.

Lemma JsMap_get_set_eq {V : Type} k v (m : JsMap.t V) :
  JsMap.get k (JsMap.set k v m) = Some v.
Proof.
  induction m as [ | [k' v'] m IH]; simpl.
  - rewrite String.eqb_refl. reflexivity.
  - destruct (String.eqb_spec k k') as [-> | Hne]; simpl.
    + rewrite String.eqb_refl. reflexivity.
    + destruct (String.eqb_spec k k'); [contradiction | exact IH].
Qed.

Lemma JsMap_get_set_ne {V : Type} k k' v (m : JsMap.t V) :
  k <> k' -> JsMap.get k' (JsMap.set k v m) = JsMap.get k' m.
Proof.
  intros Hne. induction m as [ | [k0 v0] m IH]; simpl.
  - destruct (String.eqb_spec k' k); [congruence | reflexivity].
  - destruct (String.eqb_spec k k0) as [-> | Hne0]; simpl.
    + destruct (String.eqb_spec k' k0); [congruence | reflexivity].
    + destruct (String.eqb_spec k' k0); [reflexivity | exact IH].
Qed.

Lemma JsMap_get_delete_ne {V : Type} k k' (m : JsMap.t V) :
  k <> k' -> JsMap.get k' (JsMap.delete k m) = JsMap.get k' m.
Proof.
  intros Hne. induction m as [ | [k0 v0] m IH]; simpl; [reflexivity | ].
  destruct (String.eqb_spec k k0) as [Heq | Hk].
  - destruct (String.eqb_spec k' k0); [congruence | reflexivity].
  - simpl. rewrite IH. reflexivity.
Qed.


Lemma JsSet_has_In k s : JsSet.has k s = true <-> In k s.
Proof.
  induction s as [ | k' s IH]; simpl.
  - split; [discriminate | tauto].
  - destruct (String.eqb_spec k k') as [-> | Hne].
    + split; auto.
    + rewrite IH. split; [auto | intros [H | H]; congruence].
Qed.

Lemma JsSet_add_In k k' s : In k' (JsSet.add k s) <-> k' = k \/ In k' s.
Proof.
  unfold JsSet.add. destruct (JsSet.has k s) eqn:Hh.
  - apply JsSet_has_In in Hh. split; [auto | intros [-> | H]; auto].
  - rewrite in_app_iff. simpl. split; intros H.
    + destruct H as [H | [H | []]]; auto.
    + destruct H as [H | H]; auto.
Qed.

Lemma restorePending_fresh batch pend :
  NoDup (JsMap.keys pend ++ JsMap.keys batch) ->
  restorePending batch pend = pend ++ batch.
Proof.
  unfold restorePending. revert pend.
  induction batch as [ | [k v] batch IH]; intros pend Hnd; simpl.
  - rewrite app_nil_r. reflexivity.
  - assert (Hk : ~ In k (JsMap.keys pend)).
    { intros Hin. apply NoDup_remove_2 in Hnd. apply Hnd.
      apply in_or_app. left. exact Hin. }
    rewrite (JsMap_set_fresh k v pend Hk).
    rewrite IH.
    + rewrite <- app_assoc. reflexivity.
    + unfold JsMap.keys in *. rewrite map_app. simpl.
      rewrite <- app_assoc. exact Hnd.
Qed.

Lemma restoreCompleted_In snapshot done k :
  In k (restoreCompleted snapshot done) <-> In k done \/ In k snapshot.
Proof.
  unfold restoreCompleted. revert done.
  induction snapshot as [ | k' snapshot IH]; intros done; simpl.
  - tauto.
  - rewrite IH, JsSet_add_In. intuition.
Qed.

(** ** Facts about [trim] *)

Lemma allWhiteSpace_trimStart s : allWhiteSpace (trimStart s) = allWhiteSpace s.
Proof.
  induction s as [ | c s IH]; simpl; [reflexivity | ].
  destruct (isWhiteSpace c) eqn:Hc; simpl; [exact IH | rewrite Hc; reflexivity].
Qed.

Lemma trimEnd_empty s : trimEnd s = EmptyString <-> allWhiteSpace s = true.
Proof.
  induction s as [ | c s IH]; simpl; [tauto | ].
  destruct (trimEnd s) as [ | c' t].
  - destruct (isWhiteSpace c); simpl.
    + rewrite <- IH. tauto.
    + split; discriminate.
  - split; [discriminate | ].
    intros H. apply Bool.andb_true_iff in H. destruct H as [_ H].
    apply IH in H. discriminate.
Qed.

Lemma trim_empty s : trim s = EmptyString <-> allWhiteSpace s = true.
Proof.
  unfold trim. rewrite trimEnd_empty, allWhiteSpace_trimStart. tauto.
Qed.

Lemma trimStart_split s :
  exists a, s = (a ++ trimStart s)%string /\ allWhiteSpace a = true.
Proof.
  induction s as [ | c s (a & Ha & Hw)]; simpl.
  - exists EmptyString. split; reflexivity.
  - destruct (isWhiteSpace c) eqn:Hc.
    + exists (String c a). simpl. rewrite Hc, Hw, <- Ha. split; reflexivity.
    + exists EmptyString. split; reflexivity.
Qed.

Lemma trimEnd_split s :
  exists b, s = (trimEnd s ++ b)%string /\ allWhiteSpace b = true.
Proof.
  induction s as [ | c s (b & Hb & Hw)]; simpl.
  - exists EmptyString. split; reflexivity.
  - destruct (trimEnd s) as [ | c' t] eqn:Ht.
    + destruct (isWhiteSpace c) eqn:Hc.
      * exists (String c s). simpl. rewrite Hc. split; [reflexivity | ].
        apply trimEnd_empty in Ht. exact Ht.
      * exists b. simpl in Hb. subst s. split; [reflexivity | assumption].
    + exists b. simpl. simpl in Hb. rewrite <- Hb. split; [reflexivity | exact Hw].
Qed.

Lemma trimStart_head s c t : trimStart s = String c t -> isWhiteSpace c = false.
Proof.
  induction s as [ | c0 s IH]; simpl; [discriminate | ].
  destruct (isWhiteSpace c0) eqn:Hc; [exact IH | ].
  intros [= <- <-]. exact Hc.
Qed.

Lemma trimEnd_head s c t :
  trimEnd s = String c t -> exists t', s = String c t'.
Proof.
  destruct s as [ | c0 s]; simpl; [discriminate | ].
  destruct (trimEnd s); [destruct (isWhiteSpace c0) | ];
    try discriminate; intros [= <- <-]; eauto.
Qed.

Lemma trimEnd_last s t c :
  trimEnd s = (t ++ String c EmptyString)%string -> isWhiteSpace c = false.
Proof.
  revert t. induction s as [ | c0 s IH]; intros t; simpl.
  - destruct t; discriminate.
  - destruct (trimEnd s) as [ | c' u] eqn:Hu.
    + destruct (isWhiteSpace c0) eqn:Hc.
      * destruct t; discriminate.
      * destruct t as [ | c1 [ | c2 t]]; simpl; try discriminate.
        intros [= <-]. exact Hc.
    + destruct t as [ | c1 t]; simpl; [discriminate | ].
      intros [= <- H]. apply (IH t). exact H.
Qed.

(** [trim] removes the white space at both ends and nothing else. *)
Lemma trim_spec s :
  (exists a b, s = (a ++ trim s ++ b)%string
               /\ allWhiteSpace a = true /\ allWhiteSpace b = true)
  /\ (forall c t, trim s = String c t -> isWhiteSpace c = false)
  /\ (forall t c, trim s = (t ++ String c EmptyString)%string -> isWhiteSpace c = false).
Proof.
  unfold trim. split; [ | split].
  - destruct (trimStart_split s) as (a & Ha & Hwa).
    destruct (trimEnd_split (trimStart s)) as (b & Hb & Hwb).
    exists a, b. rewrite <- Hb. auto.
  - intros c t H. destruct (trimEnd_head _ _ _ H) as (t' & Ht').
    exact (trimStart_head s c t' Ht').
  - intros t c H. exact (trimEnd_last _ _ _ H).
Qed.

Section Properties.

Set Default Proof Using "Type".

Variable JSON_parse : string -> option Json.

Abbreviation parseResult := (parseResult JSON_parse).
Abbreviation handleResult := (handleResult JSON_parse).
Abbreviation handleBatchResponse := (handleBatchResponse JSON_parse).
Abbreviation applied := (applied JSON_parse).
Abbreviation processBatch_resolved := (processBatch_resolved JSON_parse).
Abbreviation step := (step JSON_parse).
Abbreviation run := (run JSON_parse).
Abbreviation reachable := (reachable JSON_parse).
Abbreviation calm := (calm JSON_parse).

(** ** Runs and invariants *)

Lemma run_app : forall evs1 evs2 w,
  run w (evs1 ++ evs2) =
  match run w evs1 with Some w1 => run w1 evs2 | None => None end.
Proof.
  induction evs1 as [ | ev evs1 IH]; intros evs2 w; simpl.
  - reflexivity.
  - destruct (step w ev); [apply IH | reflexivity].
Qed.

(** An invariant of every step whose event satisfies [ok] holds along
    every run of such events. *)
Lemma run_invariant (Inv : World -> Prop) (ok : Event -> Prop) :
  (forall w ev w', ok ev -> Inv w -> step w ev = Some w' -> Inv w') ->
  forall evs w w', Forall ok evs -> Inv w -> run w evs = Some w' -> Inv w'.
Proof.
  intros Hstep. induction evs as [ | ev evs IH]; intros w w' Hok Hinv Hrun; simpl in Hrun.
  - injection Hrun as <-. exact Hinv.
  - inversion Hok as [ | ? ? Hev Hevs]; subst.
    destruct (step w ev) as [w1 | ] eqn:Hs; [ | discriminate].
    apply (IH w1 w'); auto. eapply Hstep; eauto.
Qed.

Lemma reachable_invariant (Inv : World -> Prop) :
  Inv initial ->
  (forall w ev w', Inv w -> step w ev = Some w' -> Inv w') ->
  forall w, reachable w -> Inv w.
Proof.
  intros H0 Hstep w [evs Hrun].
  refine (run_invariant Inv (fun _ => True) _ evs initial w _ H0 Hrun).
  - intros; eauto.
  - clear; induction evs; constructor; auto.
Qed.

(** ** What the loops leave alone *)

Lemma sameConfig_refl w : sameConfig w w.
Proof. unfold sameConfig; repeat split. Qed.

Lemma sameConfig_trans w1 w2 w3 :
  sameConfig w1 w2 -> sameConfig w2 w3 -> sameConfig w1 w3.
Proof. unfold sameConfig; intuition congruence. Qed.

Lemma fold_left_rel {A : Type} (R : World -> World -> Prop) (f : World -> A -> World) :
  (forall w, R w w) -> (forall w1 w2 w3, R w1 w2 -> R w2 w3 -> R w1 w3) ->
  (forall w a, R w (f w a)) ->
  forall l w, R w (fold_left f l w).
Proof.
  intros Hr Ht Hf. induction l as [ | a l IH]; intros w; simpl.
  - apply Hr.
  - eapply Ht; [apply Hf | apply IH].
Qed.


(** [seal t]: forget what [t] is, keeping what is known about it. *)
Ltac seal t := let x := fresh "wx" in set (x := t) in *; clearbody x.

Ltac break_match :=
  match goal with
  | |- context [match ?x with _ => _ end] => destruct x eqn:?
  | |- context [if ?x then _ else _] => destruct x eqn:?
  end.

Lemma handleResult_sameConfig res w : sameConfig w (handleResult res w).
Proof.
  unfold handleResult, sameConfig.
  repeat break_match; simpl; repeat split.
Qed.

Lemma handleResult_pending res w : pending (handleResult res w) = pending w.
Proof. unfold handleResult. repeat break_match; reflexivity. Qed.

Lemma handleCreated_sameConfig batch item w : sameConfig w (handleCreated batch item w).
Proof.
  unfold handleCreated, sameConfig. repeat break_match; simpl; repeat split.
Qed.

Lemma handleCreated_pending batch item w :
  pending (handleCreated batch item w) = pending w.
Proof. unfold handleCreated. repeat break_match; reflexivity. Qed.


Lemma rollback_pending batch w :
  JsMap.forEach (fun k request w => set_pending (JsMap.set k request (pending w)) w) batch w
  = set_pending (restorePending batch (pending w)) w.
Proof.
  unfold JsMap.forEach, restorePending. revert w.
  induction batch as [ | [k v] batch IH]; intros w; simpl.
  - destruct w; reflexivity.
  - rewrite IH. reflexivity.
Qed.

Lemma rollback_completed snapshot w :
  JsSet.forEach (fun k w => set_completed (JsSet.add k (completed w)) w) snapshot w
  = set_completed (restoreCompleted snapshot (completed w)) w.
Proof.
  unfold JsSet.forEach, restoreCompleted. revert w.
  induction snapshot as [ | k snapshot IH]; intros w; simpl.
  - destruct w; reflexivity.
  - rewrite IH. reflexivity.
Qed.


Lemma rejectAll_emitAll reason reqs w :
  fold_left (fun w req => emit (Reject (promise req) reason) w) reqs w
  = emitAll (rejections reason reqs) w.
Proof.
  unfold emitAll, rejections. revert w.
  induction reqs as [ | r reqs IH]; intros w; simpl; [reflexivity | apply IH].
Qed.

Lemma emitAll_eq es w :
  emitAll es w =
  {| key := key w; pollRate := pollRate w; broken := broken w;
     pending := pending w; active := active w; completed := completed w;
     processing := processing w; error := error w;
     awaitingInit := awaitingInit w; awaitingBatch := awaitingBatch w;
     timers := timers w; promises := promises w;
     effects := rev es ++ effects w |}.
Proof.
  unfold emitAll. revert w. induction es as [ | e es IH]; intros w; simpl.
  - destruct w; reflexivity.
  - rewrite IH. simpl. rewrite <- app_assoc. reflexivity.
Qed.

(** [resetState] in one equation. *)
Lemma resetState_eq w :
  resetState w =
  {| key := key w; pollRate := pollRate w; broken := broken w;
     pending := []; active := []; completed := [];
     processing := false; error := error w;
     awaitingInit := awaitingInit w; awaitingBatch := awaitingBatch w;
     timers := timers w; promises := promises w;
     effects :=
       Notify {| st_connected := negb (broken w) && truthy (key w);
                 st_processing := false; st_error := error w;
                 st_pollRate := pollRate w;
                 st_pending := 0; st_active := 0; st_completed := 0 |}
       :: rev (rejections "Connection reset"
                 (JsMap.values (pending w) ++ JsMap.values (active w)))
       ++ effects w |}.
Proof.
  unfold resetState. rewrite rejectAll_emitAll, emitAll_eq. reflexivity.
Qed.

(** ** Failure handling *)

Lemma handleBatchError_transient e r w :
  isCritical e = false ->
  handleBatchError e r w
  = notifyStateChange
      (setTimeout (Z.min 2000 (pollRate w))
         (set_error (Some (getErrorMessage e)) (rolledBack r w))).
Proof.
  intros Hc. unfold handleBatchError.
  rewrite rollback_pending, rollback_completed, Hc. reflexivity.
Qed.

Lemma handleBatchError_critical e r w :
  isCritical e = true ->
  handleBatchError e r w
  = notifyStateChange
      (resetState
         (match response e with
          | Some rsp =>
              if status rsp =? 404 then
                set_error (Some (or_else (data_message rsp)
                                   "Session not found. Create key again."))
                  (set_key None
                     (set_broken true
                        (set_error (Some (getErrorMessage e)) (rolledBack r w))))
              else set_broken true
                     (set_error (Some (getErrorMessage e)) (rolledBack r w))
          | None => set_broken true
                      (set_error (Some (getErrorMessage e)) (rolledBack r w))
          end)).
Proof.
  intros Hc. unfold handleBatchError.
  rewrite rollback_pending, rollback_completed, Hc.
  destruct (response e) as [rsp | ]; [ | reflexivity].
  destruct (status rsp =? 404); reflexivity.
Qed.

Lemma isCritical_false e :
  (forall rsp, response e = Some rsp -> status rsp <> 404 /\ status rsp <> 500) ->
  isCritical e = false.
Proof.
  intros H. unfold isCritical. destruct (response e) as [rsp | ]; [ | reflexivity].
  destruct (H rsp eq_refl) as [H1 H2].
  apply Bool.orb_false_iff. split; apply Z.eqb_neq; assumption.
Qed.

Lemma isCritical_true e rsp :
  response e = Some rsp -> status rsp = 404 \/ status rsp = 500 ->
  isCritical e = true.
Proof.
  intros Hr H. unfold isCritical. rewrite Hr.
  apply Bool.orb_true_iff. destruct H as [H | H]; rewrite H; auto.
Qed.

(** C10. A transient failure of a batch round leaves the [active] map as
    it was: the handling puts back the snapshot of [pending] and the
    snapshot of [completed], and invokes no continuation of any request. *)
Theorem transient_failure_keeps_active :
  forall e r w,
    (forall rsp, response e = Some rsp -> status rsp <> 404 /\ status rsp <> 500) ->
    let w' := processBatch_rejected r e w in
    active w' = active w
    /\ pending w' = restorePending (batchToSend r) (pending w)
    /\ completed w' = restoreCompleted (completedSnapshot r) (completed w)
    /\ (forall p, invocations p (effects w') = invocations p (effects w))
    /\ (exists st1 st2,
          effects w'
          = Notify st2 :: Notify st1 :: SetTimeout (Z.min 2000 (pollRate w))
              :: effects w).
Proof.
  intros e r w Ht w'. subst w'. unfold processBatch_rejected.
  rewrite (handleBatchError_transient e r w (isCritical_false e Ht)).
  simpl. repeat split; try reflexivity.
  eexists. eexists. reflexivity.
Qed.

(** ** A failed round *)

Lemma truthy_Some k : truthy k = true -> exists c s, k = Some (String c s).
Proof.
  destruct k as [[ | c s] | ]; simpl; try discriminate. eauto.
Qed.

(** A round starts when the four guards of [processIfNeeded] let it. *)
Lemma processIfNeeded_starts w :
  broken w = false -> processing w = false -> truthy (key w) = true ->
  hasWork w = true ->
  exists payload,
    processIfNeeded w
    = set_awaitingBatch
        (awaitingBatch w ++
           [{| batchToSend := pending w; completedSnapshot := completed w |}])
        (emit (PostBatch payload (pollRate w * 2))
           (set_completed []
              (set_pending []
                 (notifyStateChange (set_processing true w))))).
Proof.
  intros Hb Hp Hk Hw. unfold processIfNeeded. rewrite Hb, Hp, Hk, Hw. simpl.
  destruct (truthy_Some _ Hk) as (c & k & Hkey).
  unfold processBatch. simpl. rewrite Hkey, Hb. simpl.
  eexists. reflexivity.
Qed.

(** While a round is in flight, a submission only adds to [pending]. *)
Lemma submit_while_processing s w :
  broken w = false -> processing w = true -> truthy (key w) = true ->
  exists w',
    step w (submit s) = Some w'
    /\ pending w'
       = JsMap.set (submissionKey s)
           {| requestKey := submissionKey s; call := snd s;
              promise := promises w; timestamp := snd (fst s) |} (pending w)
    /\ promises w' = S (promises w)
    /\ active w' = active w /\ completed w' = completed w
    /\ key w' = key w /\ broken w' = broken w /\ processing w' = processing w
    /\ pollRate w' = pollRate w /\ awaitingBatch w' = awaitingBatch w
    /\ timers w' = timers w.
Proof.
  intros Hb Hp Hk. eexists. split.
  - simpl. reflexivity.
  - unfold executeOrFallback. rewrite Hb, Hk. simpl.
    unfold processIfNeeded. simpl. rewrite Hb, Hp. simpl.
    repeat split; auto.
Qed.

Lemma submissions_while_processing subs : forall w w',
  broken w = false -> processing w = true -> truthy (key w) = true ->
  NoDup (JsMap.keys (pending w) ++ map submissionKey subs) ->
  run w (map submit subs) = Some w' ->
  pending w' = pending w ++ submitted (promises w) subs
  /\ active w' = active w /\ completed w' = completed w
  /\ key w' = key w /\ broken w' = broken w /\ processing w' = processing w
  /\ pollRate w' = pollRate w /\ awaitingBatch w' = awaitingBatch w
  /\ timers w' = timers w.
Proof.
  induction subs as [ | s subs IH]; intros w w' Hb Hp Hk Hnd Hrun.
  - simpl in Hrun. injection Hrun as <-. simpl. rewrite app_nil_r.
    repeat split.
  - destruct (submit_while_processing s w Hb Hp Hk)
      as (w1 & Hstep & Hpend & Hprom & Ha & Hc & Hk1 & Hb1 & Hp1 & Hr1 & Hab1 & Ht1).
    change (map submit (s :: subs)) with (submit s :: map submit subs) in Hrun.
    change (run w (submit s :: map submit subs))
      with (match step w (submit s) with
            | Some w1 => run w1 (map submit subs) | None => None end) in Hrun.
    rewrite Hstep in Hrun.
    assert (Hfresh : ~ In (submissionKey s) (JsMap.keys (pending w))).
    { intros Hin. simpl in Hnd. apply NoDup_remove_2 in Hnd. apply Hnd.
      apply in_or_app. left. exact Hin. }
    rewrite (JsMap_set_fresh _ _ _ Hfresh) in Hpend.
    destruct (IH w1 w') as (Hpend' & Ha' & Hc' & Hk' & Hb' & Hp' & Hr' & Hab' & Ht').
    + congruence.
    + congruence.
    + congruence.
    + rewrite Hpend. unfold JsMap.keys in *. rewrite map_app. simpl.
      rewrite <- app_assoc. exact Hnd.
    + exact Hrun.
    + rewrite Hpend', Hpend, Hprom. simpl. rewrite <- app_assoc. simpl.
      repeat split; congruence.
Qed.

Lemma submitted_keys p subs :
  JsMap.keys (submitted p subs) = map submissionKey subs.
Proof.
  revert p. induction subs as [ | s subs IH]; intros p; simpl.
  - reflexivity.
  - f_equal. apply IH.
Qed.

Lemma nth_error_snoc {A : Type} (l : list A) x :
  nth_error (l ++ [x]) (List.length l) = Some x.
Proof. induction l; simpl; auto. Qed.


Lemma validateInitResponse_error body e :
  validateInitResponse body = inl e ->
  response e = None /\ getErrorMessage e <> EmptyString.
Proof.
  unfold validateInitResponse. intros H.
  destruct body as [ | ok d | d].
  - injection H as <-. split; [reflexivity | discriminate].
  - destruct ok; simpl in H; [discriminate | ].
    injection H as <-. split; [reflexivity | discriminate].
  - destruct (intervalMs d), (results d), (created d), (cleanupCount d);
      try discriminate.
    injection H as <-. split; [reflexivity | discriminate].
Qed.

(** A round that fails transiently before its response is handled ends as
    a round whose post was rejected with an error that is not critical. *)
Lemma failsTransiently_step i ev w r w' :
  failsTransiently i ev -> nth_error (awaitingBatch w) i = Some r ->
  step w ev = Some w' ->
  exists e,
    isCritical e = false
    /\ w' = processBatch_rejected r e
              (set_awaitingBatch (remove_nth i (awaitingBatch w)) w).
Proof.
  intros Hf Hr Hstep.
  destruct ev; simpl in Hf; try contradiction; destruct Hf as [-> Hf];
    simpl in Hstep; rewrite Hr in Hstep; injection Hstep as <-.
  - unfold processBatch_resolved, processBatch_rejected.
    destruct (validateInitResponse body) as [err | [d | ]] eqn:Hv.
    + exists err. split; [ | reflexivity].
      apply isCritical_false.
      destruct (validateInitResponse_error body err Hv) as [-> _]. discriminate.
    + destruct (Hf d eq_refl).
    + eexists. split; [ | reflexivity]. reflexivity.
  - exists e. split; [apply isCritical_false; exact Hf | reflexivity].
Qed.

(** C4, as the code has it.  When a round fails with a transient error
    before its response is handled (its post is rejected with an error
    that has no status 404 or 500, or the body of its response is not
    accepted) and request keys are not reused, the snapshot of [pending]
    is put back after the requests submitted during the round, none of
    them replaced, the snapshot of [completed] is put back, [active] is as
    it was, and [pending.size + active.size] is its value before the round
    plus the number of requests submitted during the round. *)
Theorem transient_failure_conserves_requests :
  forall w0 subs ev w3,
    broken w0 = false -> processing w0 = false -> truthy (key w0) = true ->
    hasWork w0 = true ->
    NoDup (map submissionKey subs ++ JsMap.keys (pending w0)) ->
    failsTransiently (List.length (awaitingBatch w0)) ev ->
    run (processIfNeeded w0) (map submit subs ++ [ev]) = Some w3 ->
    pending w3 = submitted (promises w0) subs ++ pending w0
    /\ active w3 = active w0
    /\ (forall k, In k (completed w3) <-> In k (completed w0))
    /\ (forall k req, In (k, req) (pending w0) -> JsMap.get k (pending w3) = Some req)
    /\ (JsMap.size (pending w3) + JsMap.size (active w3)
        = JsMap.size (pending w0) + JsMap.size (active w0) + List.length subs)%nat.
Proof.
  intros w0 subs ev w3 Hb Hp Hk Hw Hnd Ht Hrun.
  destruct (processIfNeeded_starts w0 Hb Hp Hk Hw) as (payload & Hstart).
  rewrite Hstart in Hrun. rewrite run_app in Hrun.
  match type of Hrun with
  | match run ?x _ with _ => _ end = _ => set (w1 := x) in *
  end.
  destruct (run w1 (map submit subs)) as [w2 | ] eqn:Hsubs; [ | discriminate].
  destruct (submissions_while_processing subs w1 w2)
    as (Hpend & Ha & Hc & Hk2 & Hb2 & Hp2 & Hr2 & Hab2 & Ht2); auto.
  { simpl. apply NoDup_app_remove_r in Hnd. exact Hnd. }
  simpl in Hpend, Ha, Hc, Hab2.
  change (run w2 [ev]) with (match step w2 ev with Some w => Some w | None => None end)
    in Hrun.
  destruct (step w2 ev) as [w3' | ] eqn:Hstep; [ | discriminate].
  injection Hrun as <-.
  destruct (failsTransiently_step _ ev w2 _ w3' Ht
              (eq_trans (f_equal (fun l => nth_error l (List.length (awaitingBatch w0))) Hab2)
                 (nth_error_snoc _ _)) Hstep)
    as (e & Hcrit & ->).
  unfold processBatch_rejected.
  rewrite (handleBatchError_transient e _ _ Hcrit).
  simpl. rewrite Hpend, Ha, Hc.
  assert (Hnd' : NoDup (JsMap.keys (submitted (promises w0) subs)
                        ++ JsMap.keys (pending w0))).
  { rewrite submitted_keys. exact Hnd. }
  rewrite (restorePending_fresh _ _ Hnd').
  assert (Hkeys : NoDup (JsMap.keys (submitted (promises w0) subs ++ pending w0))).
  { unfold JsMap.keys in *. rewrite map_app. exact Hnd'. }
  repeat split.
  - intros Hin. apply restoreCompleted_In in Hin. destruct Hin as [[] | Hin].
    exact Hin.
  - intros Hin. apply restoreCompleted_In. right. exact Hin.
  - intros k req Hin. apply JsMap_In_get; [exact Hkeys | ].
    apply in_or_app. right. exact Hin.
  - unfold JsMap.size. rewrite length_app.
    replace (List.length (submitted (promises w0) subs)) with (List.length subs).
    + lia.
    + rewrite <- (length_map fst (submitted (promises w0) subs)).
      change (map fst (submitted (promises w0) subs))
        with (JsMap.keys (submitted (promises w0) subs)).
      rewrite submitted_keys, length_map. reflexivity.
Qed.

(** ** Critical and transient failures *)

Lemma posts_app es1 es2 : posts (es1 ++ es2) = (posts es1 + posts es2)%nat.
Proof.
  induction es1 as [ | e es1 IH]; simpl; [reflexivity | ].
  destruct e; simpl; rewrite IH; reflexivity.
Qed.

Lemma posts_rev es : posts (rev es) = posts es.
Proof.
  induction es as [ | e es IH]; simpl; [reflexivity | ].
  rewrite posts_app, IH. destruct e; simpl; lia.
Qed.

Lemma posts_rejections reason reqs : posts (rejections reason reqs) = 0%nat.
Proof. induction reqs; simpl; auto. Qed.

Lemma reconciled_refl w : reconciled w w.
Proof. unfold reconciled. auto using sameConfig_refl. Qed.

Lemma reconciled_trans w1 w2 w3 :
  reconciled w1 w2 -> reconciled w2 w3 -> reconciled w1 w3.
Proof.
  unfold reconciled. intros (H1 & H2 & H3) (H4 & H5 & H6).
  split; [eapply sameConfig_trans; eauto | split; congruence].
Qed.

Lemma handleResult_reconciled res w : reconciled w (handleResult res w).
Proof.
  unfold reconciled. split; [apply handleResult_sameConfig | ].
  split; [apply handleResult_pending | ].
  unfold handleResult. repeat break_match; reflexivity.
Qed.

Lemma handleCreated_reconciled batch item w :
  reconciled w (handleCreated batch item w).
Proof.
  unfold reconciled. split; [apply handleCreated_sameConfig | ].
  split; [apply handleCreated_pending | ].
  unfold handleCreated. repeat break_match; reflexivity.
Qed.

(** ** Responses with a null item *)

Lemma forEachItem_eq {A : Type} (f : A -> World -> World) items : forall w,
  forEachItem f items w
  = (fold_left (fun w item => f item w) (itemsBefore items) w, hasNull items).
Proof.
  induction items as [ | [item | ] items IH]; intros w; simpl;
    [reflexivity | apply IH | reflexivity].
Qed.

(** [handleBatchResponse] is [applied], then the notification unless it
    throws. *)
Lemma handleBatchResponse_eq data batch w :
  handleBatchResponse data batch w
  = if throws data then (applied data batch w, Some nullItem)
    else (notifyStateChange (applied data batch w), None).
Proof.
  unfold handleBatchResponse, applied, throws, createdOf, resultsOf, resultsThrow.
  destruct (results data) as [rs | ]; [rewrite forEachItem_eq | ];
    cbv beta iota zeta.
  - destruct (hasNull rs); [reflexivity | ]. cbv beta iota zeta.
    destruct (created data) as [cs | ]; [rewrite forEachItem_eq | ];
      cbv beta iota zeta; [destruct (hasNull cs) | ]; reflexivity.
  - destruct (created data) as [cs | ]; [rewrite forEachItem_eq | ];
      cbv beta iota zeta; [destruct (hasNull cs) | ]; reflexivity.
Qed.

Lemma nullItem_transient : isCritical nullItem = false.
Proof. reflexivity. Qed.

(** [handleBatchResponse] changes [pollRate], [active], [completed] and
    the effects, and nothing else. *)
Lemma applied_frame data batch w :
  let w' := applied data batch w in
  key w' = key w /\ broken w' = broken w /\ processing w' = processing w
  /\ error w' = error w /\ awaitingInit w' = awaitingInit w
  /\ awaitingBatch w' = awaitingBatch w /\ timers w' = timers w
  /\ promises w' = promises w /\ pending w' = pending w
  /\ posts (effects w') = posts (effects w)
  /\ pollRate w' = match intervalMs data with
                   | Some n => clamp n
                   | None => pollRate w
                   end.
Proof.
  unfold applied.
  set (w1 := match intervalMs data with
             | Some n => set_pollRate (clamp n) w | None => w end).
  set (w2 := fold_left (fun w res => handleResult res w) (resultsOf data) w1).
  set (w3 := fold_left (fun w item => handleCreated batch item w)
               (createdOf data) w2).
  assert (H12 : reconciled w1 w2).
  { subst w2.
    apply (fold_left_rel reconciled);
      [apply reconciled_refl | apply reconciled_trans | ].
    intros; apply handleResult_reconciled. }
  assert (H23 : reconciled w2 w3).
  { subst w3.
    apply (fold_left_rel reconciled);
      [apply reconciled_refl | apply reconciled_trans | ].
    intros; apply handleCreated_reconciled. }
  destruct (reconciled_trans _ _ _ H12 H23)
    as ((Hk & Hr & Hb & Hp & He & Hi & Hab & Ht & Hpr) & Hpe & Hpo).
  simpl. rewrite Hk, Hr, Hb, Hp, He, Hi, Hab, Ht, Hpr, Hpe, Hpo.
  subst w1. destruct (intervalMs data); simpl; repeat split.
Qed.

Lemma handleBatchResponse_frame data batch w :
  let w' := fst (handleBatchResponse data batch w) in
  key w' = key w /\ broken w' = broken w /\ processing w' = processing w
  /\ error w' = error w /\ awaitingInit w' = awaitingInit w
  /\ awaitingBatch w' = awaitingBatch w /\ timers w' = timers w
  /\ promises w' = promises w /\ pending w' = pending w
  /\ posts (effects w') = posts (effects w)
  /\ pollRate w' = match intervalMs data with
                   | Some n => clamp n
                   | None => pollRate w
                   end.
Proof.
  rewrite handleBatchResponse_eq.
  destruct (throws data); simpl; apply applied_frame.
Qed.

(** What [handleBatchResponse] throws is a transient error. *)
Lemma handleBatchResponse_throws data batch w wx e :
  handleBatchResponse data batch w = (wx, Some e) ->
  e = nullItem /\ throws data = true /\ wx = applied data batch w.
Proof.
  rewrite handleBatchResponse_eq. destruct (throws data); intros H;
    inversion H; auto.
Qed.

Lemma handleBatchError_broken e r w :
  broken w = true ->
  let w' := handleBatchError e r w in
  broken w' = true /\ posts (effects w') = posts (effects w).
Proof.
  intros Hb. destruct (isCritical e) eqn:Hc.
  - rewrite (handleBatchError_critical e r w Hc). rewrite resetState_eq.
    destruct (response e) as [rsp | ]; [destruct (status rsp =? 404) | ];
      simpl; rewrite posts_app, posts_rev, posts_rejections; auto.
  - rewrite (handleBatchError_transient e r w Hc). simpl. auto.
Qed.

(** Once [broken], the client sends nothing until [setKey] is called. *)
Lemma broken_step w ev w' :
  broken w = true -> isSetKey ev = false -> step w ev = Some w' ->
  broken w' = true /\ posts (effects w') = posts (effects w).
Proof.
  intros Hb Hev Hstep. destruct ev; simpl in Hev, Hstep; try discriminate.
  - (* InitResolved *)
    destruct (awaitingInit w); [discriminate | ]. injection Hstep as <-.
    unfold initializeConnection_resolved, initializeConnection_catch, setKey_catch.
    repeat break_match; simpl; auto.
  - (* InitRejected *)
    destruct (awaitingInit w); [discriminate | ]. injection Hstep as <-.
    unfold initializeConnection_rejected, initializeConnection_catch, setKey_catch.
    repeat break_match; simpl; auto.
  - (* CallExecuteOrFallback *)
    injection Hstep as <-. unfold executeOrFallback. rewrite Hb. simpl. auto.
  - (* BatchResolved *)
    destruct (nth_error (awaitingBatch w) i) as [r | ]; [ | discriminate].
    injection Hstep as <-. unfold processBatch_resolved.
    set (w0 := set_awaitingBatch (remove_nth i (awaitingBatch w)) w).
    assert (Hb0 : broken w0 = true) by exact Hb.
    destruct (validateInitResponse body) as [err | [d | ]].
    + destruct (handleBatchError_broken err r w0 Hb0) as [H1 H2].
      simpl. auto.
    + destruct (handleBatchResponse_frame d (batchToSend r) w0)
        as (_ & Hb1 & _ & _ & _ & _ & _ & _ & _ & Hpo & _).
      destruct (handleBatchResponse d (batchToSend r) w0) as [wx [e0 | ]];
        simpl in Hb1, Hpo.
      * destruct (handleBatchError_broken e0 r wx) as [H1 H2]; [congruence | ].
        rewrite Hpo in H2. simpl. auto.
      * destruct (hasWork wx); simpl; rewrite Hb1, Hpo; auto.
    + destruct (handleBatchError_broken (Error "Invalid batch response") r w0 Hb0)
        as [H1 H2].
      simpl. auto.
  - (* BatchRejected *)
    destruct (nth_error (awaitingBatch w) i) as [r | ]; [ | discriminate].
    injection Hstep as <-. unfold processBatch_rejected.
    set (w0 := set_awaitingBatch (remove_nth i (awaitingBatch w)) w).
    assert (Hb0 : broken w0 = true) by exact Hb.
    destruct (handleBatchError_broken e r w0 Hb0) as [H1 H2].
    simpl. auto.
  - (* TimerFired *)
    destruct (nth_error (timers w) i); [ | discriminate].
    injection Hstep as <-. unfold processIfNeeded. simpl. rewrite Hb. simpl. auto.
Qed.

Lemma broken_run evs : forall w w',
  broken w = true -> Forall (fun ev => isSetKey ev = false) evs ->
  run w evs = Some w' ->
  broken w' = true /\ posts (effects w') = posts (effects w).
Proof.
  induction evs as [ | ev evs IH]; intros w w' Hb Hok Hrun; simpl in Hrun.
  - injection Hrun as <-. auto.
  - inversion Hok as [ | ? ? Hev Hevs]; subst.
    destruct (step w ev) as [w1 | ] eqn:Hs; [ | discriminate].
    destruct (broken_step w ev w1 Hb Hev Hs) as [Hb1 Hp1].
    destruct (IH w1 w' Hb1 Hevs Hrun) as [Hb2 Hp2].
    split; congruence.
Qed.

(** C5. A round that fails with status 404 or 500 fails critically: the
    connection becomes [broken]; on 404 the key becomes null and the last
    error is the message of the server when it has one (a non-empty
    string), and otherwise the session-not-found message; every request
    of [pending] (the snapshot put back) and of [active] is rejected with
    Connection reset; the three queues are empty, no timer is armed,
    and no post is sent by anything that follows until [setKey] is
    called.  A round that fails in any other way fails transiently:
    [broken] is as it was, the queues are the rolled-back ones, and one
    timer of [min(2000, pollRate)] is armed. *)
Theorem batch_failure_classification :
  forall e r w,
    let w' := processBatch_rejected r e w in
    (forall rsp,
        response e = Some rsp -> status rsp = 404 \/ status rsp = 500 ->
        broken w' = true
        /\ (status rsp = 404 ->
            key w' = None
            /\ (forall m, data_message rsp = Some m -> m <> EmptyString -> error w' = Some m)
            /\ (data_message rsp = None \/ data_message rsp = Some EmptyString ->
                error w' = Some "Session not found. Create key again."))
        /\ (status rsp = 500 ->
            key w' = key w /\ error w' = Some (getErrorMessage e))
        /\ (exists st1 st2 st3,
              effects w'
              = Notify st3 :: Notify st2 :: Notify st1
                  :: rev (rejections "Connection reset"
                            (JsMap.values (restorePending (batchToSend r) (pending w))
                             ++ JsMap.values (active w)))
                  ++ effects w)
        /\ pending w' = [] /\ active w' = [] /\ completed w' = []
        /\ timers w' = timers w
        /\ (forall evs w'',
              Forall (fun ev => isSetKey ev = false) evs ->
              run w' evs = Some w'' ->
              broken w'' = true /\ posts (effects w'') = posts (effects w')))
    /\ ((forall rsp, response e = Some rsp -> status rsp <> 404 /\ status rsp <> 500) ->
        broken w' = broken w
        /\ key w' = key w
        /\ error w' = Some (getErrorMessage e)
        /\ pending w' = restorePending (batchToSend r) (pending w)
        /\ active w' = active w
        /\ completed w' = restoreCompleted (completedSnapshot r) (completed w)
        /\ timers w' = timers w ++ [Z.min 2000 (pollRate w)]).
Proof.
  intros e r w w'. split.
  - intros rsp Hrsp Hst.
    assert (Hb : broken w' = true
                 /\ pending w' = [] /\ active w' = [] /\ completed w' = []
                 /\ timers w' = timers w
                 /\ (exists st1 st2 st3,
                       effects w'
                       = Notify st3 :: Notify st2 :: Notify st1
                           :: rev (rejections "Connection reset"
                                     (JsMap.values
                                        (restorePending (batchToSend r) (pending w))
                                      ++ JsMap.values (active w)))
                           ++ effects w)).
    { subst w'. unfold processBatch_rejected.
      rewrite (handleBatchError_critical e r w (isCritical_true e rsp Hrsp Hst)).
      rewrite resetState_eq, Hrsp.
      destruct (status rsp =? 404); simpl; repeat split;
        eexists; eexists; eexists; reflexivity. }
    destruct Hb as (Hb & Hp & Ha & Hc & Ht & He).
    repeat split; auto.
    + subst w'. unfold processBatch_rejected.
      rewrite (handleBatchError_critical e r w (isCritical_true e rsp Hrsp Hst)).
      rewrite resetState_eq, Hrsp, H. reflexivity.
    + intros m Hm Hne. subst w'. unfold processBatch_rejected.
      rewrite (handleBatchError_critical e r w (isCritical_true e rsp Hrsp Hst)).
      rewrite resetState_eq, Hrsp, H, Hm. simpl.
      destruct m; [congruence | reflexivity].
    + intros Hm. subst w'. unfold processBatch_rejected.
      rewrite (handleBatchError_critical e r w (isCritical_true e rsp Hrsp Hst)).
      rewrite resetState_eq, Hrsp, H. simpl.
      destruct Hm as [-> | ->]; reflexivity.
    + subst w'. unfold processBatch_rejected.
      rewrite (handleBatchError_critical e r w (isCritical_true e rsp Hrsp Hst)).
      rewrite resetState_eq, Hrsp, H. reflexivity.
    + subst w'. unfold processBatch_rejected.
      rewrite (handleBatchError_critical e r w (isCritical_true e rsp Hrsp Hst)).
      rewrite resetState_eq, Hrsp, H. reflexivity.
    + eapply broken_run; eauto.
    + eapply broken_run; eauto.
  - intros Ht. subst w'. unfold processBatch_rejected.
    rewrite (handleBatchError_transient e r w (isCritical_false e Ht)).
    simpl. repeat split.
Qed.

(** ** Re-arming after a successful round *)

Lemma hasWork_true w :
  hasWork w = true <-> pending w <> [] \/ active w <> [] \/ completed w <> [].
Proof.
  unfold hasWork, JsMap.size, JsSet.size.
  destruct (pending w), (active w), (completed w); simpl;
    split; intros H; try discriminate; try reflexivity;
    try (destruct H as [H | [H | H]]; congruence);
    try (left; discriminate); try (right; left; discriminate);
    try (right; right; discriminate).
Qed.

Lemma hasWork_false w :
  hasWork w = false <-> pending w = [] /\ active w = [] /\ completed w = [].
Proof.
  unfold hasWork, JsMap.size, JsSet.size.
  destruct (pending w), (active w), (completed w); simpl;
    split; intros H; try discriminate; try reflexivity; auto;
    destruct H as (H1 & H2 & H3); discriminate.
Qed.

(** C2. After a successful round is reconciled (its response is accepted
    and [handleBatchResponse] returns), a timer of [pollRate] milliseconds
    is armed when one of [pending], [active], [completed] is not empty,
    and no timer is armed when the three are empty; an armed timer calls
    [processIfNeeded] when it fires. *)
Theorem successful_round_rearms :
  forall r body data w,
    validateInitResponse body = inr (Some data) ->
    throws data = false ->
    let w1 := fst (handleBatchResponse data (batchToSend r) w) in
    let w' := processBatch_resolved r body w in
    pending w' = pending w1 /\ active w' = active w1
    /\ completed w' = completed w1 /\ pollRate w' = pollRate w1
    /\ (pending w1 <> [] \/ active w1 <> [] \/ completed w1 <> [] ->
        timers w' = timers w ++ [pollRate w1]
        /\ exists st, effects w' = Notify st :: SetTimeout (pollRate w1) :: effects w1)
    /\ (pending w1 = [] /\ active w1 = [] /\ completed w1 = [] ->
        timers w' = timers w
        /\ exists st, effects w' = Notify st :: effects w1)
    /\ (forall i d w2,
          nth_error (timers w2) i = Some d ->
          step w2 (TimerFired i)
          = Some (processIfNeeded (set_timers (remove_nth i (timers w2)) w2))).
Proof.
  intros r body data w Hv Hth w1 w'.
  destruct (handleBatchResponse_frame data (batchToSend r) w)
    as (_ & _ & _ & _ & _ & _ & Ht & _).
  fold w1 in Ht.
  assert (Hh : handleBatchResponse data (batchToSend r) w = (w1, None)).
  { subst w1. rewrite handleBatchResponse_eq, Hth. reflexivity. }
  subst w'. unfold processBatch_resolved. rewrite Hv, Hh. clear Hh. clearbody w1.
  repeat split.
  - destruct (hasWork w1); reflexivity.
  - destruct (hasWork w1); reflexivity.
  - destruct (hasWork w1); reflexivity.
  - destruct (hasWork w1); reflexivity.
  - apply hasWork_true in H. rewrite H. simpl. rewrite Ht. reflexivity.
  - apply hasWork_true in H. rewrite H. simpl. eexists. reflexivity.
  - apply hasWork_false in H. rewrite H. simpl. exact Ht.
  - apply hasWork_false in H. rewrite H. simpl. eexists. reflexivity.
  - intros i d w2 Hn. simpl. rewrite Hn. reflexivity.
Qed.

(** ** The poll rate *)

Lemma clamp_range n : 500 <= clamp n <= 10000.
Proof. unfold clamp. lia. Qed.

Lemma clamp_spec n :
  (n <= 500 -> clamp n = 500)
  /\ (500 <= n <= 10000 -> clamp n = n)
  /\ (10000 <= n -> clamp n = 10000).
Proof. unfold clamp. lia. Qed.

Lemma processIfNeeded_frame w :
  let w' := processIfNeeded w in
  key w' = key w /\ pollRate w' = pollRate w /\ broken w' = broken w
  /\ error w' = error w /\ active w' = active w
  /\ awaitingInit w' = awaitingInit w /\ timers w' = timers w
  /\ promises w' = promises w.
Proof.
  unfold processIfNeeded, processBatch, processIfNeeded_finally.
  repeat break_match; simpl; repeat split.
Qed.

Lemma handleBatchError_frame e r w :
  let w' := handleBatchError e r w in
  pollRate w' = pollRate w /\ awaitingInit w' = awaitingInit w
  /\ awaitingBatch w' = awaitingBatch w /\ promises w' = promises w
  /\ (key w' = key w \/ key w' = None)
  /\ (error w' = Some (getErrorMessage e)
      \/ exists rsp, error w'
           = Some (or_else (data_message rsp) "Session not found. Create key again.")).
Proof.
  destruct (isCritical e) eqn:Hc.
  - rewrite (handleBatchError_critical e r w Hc), resetState_eq.
    destruct (response e) as [rsp | ]; [destruct (status rsp =? 404) | ];
      simpl; repeat split; eauto.
  - rewrite (handleBatchError_transient e r w Hc). simpl. repeat split; auto.
Qed.

Lemma setKey_pollRate k w : pollRate (setKey k w) = pollRate w.
Proof.
  unfold setKey, initializeConnection, setKey_catch. rewrite resetState_eq.
  repeat break_match; reflexivity.
Qed.

Lemma step_pollRate w ev w' :
  step w ev = Some w' ->
  500 <= pollRate w <= 10000 -> 500 <= pollRate w' <= 10000.
Proof.
  intros Hstep Hr. destruct ev; simpl in Hstep.
  - injection Hstep as <-. rewrite setKey_pollRate. exact Hr.
  - destruct (awaitingInit w); [discriminate | ]. injection Hstep as <-.
    unfold initializeConnection_resolved, initializeConnection_catch, setKey_catch.
    repeat break_match; simpl; auto using clamp_range.
  - destruct (awaitingInit w); [discriminate | ]. injection Hstep as <-.
    unfold initializeConnection_rejected, initializeConnection_catch, setKey_catch.
    repeat break_match; simpl; auto.
  - injection Hstep as <-. unfold executeOrFallback.
    destruct (broken w || negb (truthy (key w))); [exact Hr | ].
    match goal with
    | |- context [processIfNeeded ?x] =>
        destruct (processIfNeeded_frame x) as (_ & -> & _)
    end.
    exact Hr.
  - destruct (nth_error (awaitingBatch w) i) as [r | ]; [ | discriminate].
    injection Hstep as <-. unfold processBatch_resolved.
    set (w0 := set_awaitingBatch (remove_nth i (awaitingBatch w)) w).
    change (500 <= pollRate w0 <= 10000) in Hr. clearbody w0.
    destruct (validateInitResponse body) as [err | [d | ]].
    + destruct (handleBatchError_frame err r w0) as (Hp & _).
      seal (handleBatchError err r w0).
      simpl. rewrite Hp. exact Hr.
    + destruct (handleBatchResponse_frame d (batchToSend r) w0)
        as (_ & _ & _ & _ & _ & _ & _ & _ & _ & _ & Hp).
      destruct (handleBatchResponse d (batchToSend r) w0) as [wx [e0 | ]];
        simpl in Hp.
      * destruct (handleBatchError_frame e0 r wx) as (Hp' & _).
        seal (handleBatchError e0 r wx).
        simpl. rewrite Hp', Hp. destruct (intervalMs d); auto using clamp_range.
      * destruct (hasWork wx); simpl; rewrite Hp;
          destruct (intervalMs d); auto using clamp_range.
    + destruct (handleBatchError_frame (Error "Invalid batch response") r w0) as (Hp & _).
      seal (handleBatchError (Error "Invalid batch response") r w0).
      simpl. rewrite Hp. exact Hr.
  - destruct (nth_error (awaitingBatch w) i) as [r | ]; [ | discriminate].
    injection Hstep as <-. unfold processBatch_rejected.
    set (w0 := set_awaitingBatch (remove_nth i (awaitingBatch w)) w).
    destruct (handleBatchError_frame e r w0) as (Hp & _).
      seal (handleBatchError e r w0).
    simpl. rewrite Hp. exact Hr.
  - destruct (nth_error (timers w) i); [ | discriminate].
    injection Hstep as <-.
    match goal with
    | |- context [processIfNeeded ?x] =>
        destruct (processIfNeeded_frame x) as (_ & -> & _)
    end.
    exact Hr.
Qed.

(** C7, as the code has it.  In every reachable state [pollRate] lies in
    [500, 10000].  A batch response with an [intervalMs] sets [pollRate]
    to that value clamped to the range, whatever the value; an init
    response does so only when its [intervalMs] is positive, and leaves
    [pollRate] as it was otherwise.  Clamping gives 500 for 0 and for
    negative values and 10000 for 50000. *)
Theorem pollRate_range_and_updates :
  (forall w, reachable w -> 500 <= pollRate w <= 10000)
  /\ (forall data batch w n,
        intervalMs data = Some n ->
        pollRate (fst (handleBatchResponse data batch w)) = clamp n)
  /\ (forall r body data w n,
        validateInitResponse body = inr (Some data) ->
        intervalMs data = Some n ->
        pollRate (processBatch_resolved r body w) = clamp n)
  /\ (forall body data w n,
        validateInitResponse body = inr (Some data) ->
        intervalMs data = Some n ->
        pollRate (initializeConnection_resolved body w)
        = if 0 <? n then clamp n else pollRate w)
  /\ clamp 0 = 500
  /\ (forall n, n < 0 -> clamp n = 500)
  /\ clamp 50000 = 10000.
Proof.
  split; [ | split; [ | split; [ | split; [ | split; [ | split]]]]].
  - apply reachable_invariant.
    + simpl. lia.
    + intros w ev w' Hinv Hstep. exact (step_pollRate w ev w' Hstep Hinv).
  - intros data batch w n Hn.
    destruct (handleBatchResponse_frame data batch w)
      as (_ & _ & _ & _ & _ & _ & _ & _ & _ & _ & Hp).
    rewrite Hp, Hn. reflexivity.
  - intros r body data w n Hv Hn. unfold processBatch_resolved. rewrite Hv.
    destruct (handleBatchResponse_frame data (batchToSend r) w)
      as (_ & _ & _ & _ & _ & _ & _ & _ & _ & _ & Hp).
    destruct (handleBatchResponse data (batchToSend r) w) as [wx [e0 | ]];
      simpl in Hp.
    + destruct (handleBatchError_frame e0 r wx) as (Hp' & _).
      seal (handleBatchError e0 r wx).
      simpl. rewrite Hp', Hp, Hn. reflexivity.
    + destruct (hasWork wx); simpl; rewrite Hp, Hn; reflexivity.
  - intros body data w n Hv Hn. unfold initializeConnection_resolved.
    rewrite Hv, Hn. destruct (0 <? n); reflexivity.
  - reflexivity.
  - intros n Hn. apply clamp_spec. lia.
  - reflexivity.
Qed.

(** ** Connected, as the getter and as the state have it *)

Lemma or_else_nonempty a b : b <> EmptyString -> or_else a b <> EmptyString.
Proof. destruct a as [[ | c s] | ]; simpl; auto; discriminate. Qed.

Lemma setKey_key k w : key (setKey k w) <> Some EmptyString.
Proof.
  unfold setKey, initializeConnection, setKey_catch. rewrite resetState_eq.
  simpl. destruct (trim (or_else k EmptyString)) eqn:Ht; simpl; discriminate.
Qed.

Lemma setKey_error k w : error (setKey k w) <> Some EmptyString.
Proof.
  unfold setKey, initializeConnection, setKey_catch. rewrite resetState_eq.
  simpl. destruct (trim (or_else k EmptyString)) eqn:Ht; simpl; discriminate.
Qed.

Lemma initializeConnection_catch_key_error e w :
  getErrorMessage e <> EmptyString -> key w <> Some EmptyString ->
  let w' := initializeConnection_catch e w in
  key w' <> Some EmptyString /\ error w' <> Some EmptyString.
Proof.
  intros He Hk. unfold initializeConnection_catch, setKey_catch.
  destruct (response e) as [rsp | ]; [destruct (status rsp =? 404) | ];
    simpl; split; auto; try discriminate; congruence.
Qed.

Lemma handleBatchError_key_error e r w :
  getErrorMessage e <> EmptyString -> key w <> Some EmptyString ->
  let w' := handleBatchError e r w in
  key w' <> Some EmptyString /\ error w' <> Some EmptyString.
Proof.
  intros He Hk.
  destruct (handleBatchError_frame e r w) as (_ & _ & _ & _ & Hk' & He').
  cbv zeta. split.
  - destruct Hk' as [-> | ->]; [assumption | discriminate].
  - destruct He' as [-> | [rsp ->]].
    + congruence.
    + intros [= H]. revert H. apply or_else_nonempty. discriminate.
Qed.

Lemma step_key_error w ev w' :
  rejectionHasMessage ev -> step w ev = Some w' ->
  key w <> Some EmptyString /\ error w <> Some EmptyString ->
  key w' <> Some EmptyString /\ error w' <> Some EmptyString.
Proof.
  intros Hev Hstep [Hk He]. destruct ev; simpl in Hstep, Hev.
  - injection Hstep as <-. split; [apply setKey_key | apply setKey_error].
  - destruct (awaitingInit w); [discriminate | ]. injection Hstep as <-.
    unfold initializeConnection_resolved.
    destruct (validateInitResponse body) as [err | [d | ]] eqn:Hv.
    + apply initializeConnection_catch_key_error; [ | exact Hk].
      apply (validateInitResponse_error body err Hv).
    + repeat break_match; simpl; split; assumption.
    + apply initializeConnection_catch_key_error; [discriminate | exact Hk].
  - destruct (awaitingInit w); [discriminate | ]. injection Hstep as <-.
    apply initializeConnection_catch_key_error; assumption.
  - injection Hstep as <-. unfold executeOrFallback.
    destruct (broken w || negb (truthy (key w))); [split; assumption | ].
    match goal with
    | |- context [processIfNeeded ?x] =>
        destruct (processIfNeeded_frame x) as (-> & _ & _ & -> & _)
    end.
    split; assumption.
  - destruct (nth_error (awaitingBatch w) i) as [r | ]; [ | discriminate].
    injection Hstep as <-. unfold processBatch_resolved.
    set (w0 := set_awaitingBatch (remove_nth i (awaitingBatch w)) w).
    change (key w0 <> Some EmptyString) in Hk. change (error w0 <> Some EmptyString) in He.
    clearbody w0.
    destruct (validateInitResponse body) as [err | [d | ]] eqn:Hv.
    + destruct (handleBatchError_key_error err r w0) as [Hk' He']; auto.
      apply (validateInitResponse_error body err Hv).
    + destruct (handleBatchResponse_frame d (batchToSend r) w0)
        as (Hk' & _ & _ & He' & _).
      destruct (handleBatchResponse d (batchToSend r) w0) as [wx [e0 | ]] eqn:Hh;
        simpl in Hk', He'.
      * destruct (handleBatchResponse_throws _ _ _ _ _ Hh) as (-> & _ & _).
        destruct (handleBatchError_key_error nullItem r wx) as [Hk2 He2];
          [discriminate | congruence | auto].
      * destruct (hasWork wx); simpl; rewrite Hk', He'; split; assumption.
    + destruct (handleBatchError_key_error (Error "Invalid batch response") r w0)
        as [Hk' He']; auto.
      discriminate.
  - destruct (nth_error (awaitingBatch w) i) as [r | ]; [ | discriminate].
    injection Hstep as <-. unfold processBatch_rejected.
    set (w0 := set_awaitingBatch (remove_nth i (awaitingBatch w)) w).
    change (key w0 <> Some EmptyString) in Hk. clearbody w0.
    destruct (handleBatchError_key_error e r w0) as [Hk' He']; auto.
  - destruct (nth_error (timers w) i); [ | discriminate].
    injection Hstep as <-.
    match goal with
    | |- context [processIfNeeded ?x] =>
        destruct (processIfNeeded_frame x) as (-> & _ & _ & -> & _)
    end.
    split; assumption.
Qed.

Lemma step_key_nonempty w ev w' :
  step w ev = Some w' -> key w <> Some EmptyString -> key w' <> Some EmptyString.
Proof.
  intros Hstep Hk.
  assert (Hcatch : forall e w0, key w0 <> Some EmptyString ->
                     key (initializeConnection_catch e w0) <> Some EmptyString).
  { intros e w0 H0. unfold initializeConnection_catch, setKey_catch.
    destruct (response e) as [rsp | ]; [destruct (status rsp =? 404) | ];
      simpl; auto; discriminate. }
  assert (Herr : forall e r w0, key w0 <> Some EmptyString ->
                   key (handleBatchError e r w0) <> Some EmptyString).
  { intros e r w0 H0.
    destruct (handleBatchError_frame e r w0) as (_ & _ & _ & _ & [-> | ->] & _);
      [assumption | discriminate]. }
  destruct ev; simpl in Hstep.
  - injection Hstep as <-. apply setKey_key.
  - destruct (awaitingInit w); [discriminate | ]. injection Hstep as <-.
    unfold initializeConnection_resolved.
    destruct (validateInitResponse body) as [err | [d | ]].
    + apply Hcatch. exact Hk.
    + repeat break_match; simpl; assumption.
    + apply Hcatch. exact Hk.
  - destruct (awaitingInit w); [discriminate | ]. injection Hstep as <-.
    apply Hcatch. exact Hk.
  - injection Hstep as <-. unfold executeOrFallback.
    destruct (broken w || negb (truthy (key w))); [assumption | ].
    match goal with
    | |- context [processIfNeeded ?x] =>
        destruct (processIfNeeded_frame x) as (-> & _)
    end.
    assumption.
  - destruct (nth_error (awaitingBatch w) i) as [r | ]; [ | discriminate].
    injection Hstep as <-. unfold processBatch_resolved.
    set (w0 := set_awaitingBatch (remove_nth i (awaitingBatch w)) w).
    change (key w0 <> Some EmptyString) in Hk. clearbody w0.
    destruct (validateInitResponse body) as [err | [d | ]].
    + exact (Herr _ r w0 Hk).
    + destruct (handleBatchResponse_frame d (batchToSend r) w0) as (Hk' & _).
      destruct (handleBatchResponse d (batchToSend r) w0) as [wx [e0 | ]];
        simpl in Hk'.
      * refine (Herr e0 r wx _). congruence.
      * destruct (hasWork wx); simpl; rewrite Hk'; assumption.
    + exact (Herr _ r w0 Hk).
  - destruct (nth_error (awaitingBatch w) i) as [r | ]; [ | discriminate].
    injection Hstep as <-. unfold processBatch_rejected.
    set (w0 := set_awaitingBatch (remove_nth i (awaitingBatch w)) w).
    change (key w0 <> Some EmptyString) in Hk. clearbody w0.
    exact (Herr e r w0 Hk).
  - destruct (nth_error (timers w) i); [ | discriminate].
    injection Hstep as <-.
    match goal with
    | |- context [processIfNeeded ?x] =>
        destruct (processIfNeeded_frame x) as (-> & _)
    end.
    assumption.
Qed.

(** C9, as the code has it.  In every reachable state [isConnected] is
    true exactly when [broken] is false, the key is not null and the last
    error is null or the empty string (the getter tests [!this.state.error],
    and the empty string is falsy), while [connected] of [getState] is true
    exactly when [broken] is false and the key is not null.  So whenever a
    last error that is not the empty string is recorded while the key is
    set and the connection is not broken, [isConnected] is false and
    [connected] is true.  In a state reached through posts that fail with
    an error message the last error is never the empty string, and there
    [isConnected] is true exactly when [broken] is false, the key is not
    null and the last error is null. *)
Theorem isConnected_and_connected :
  (forall w,
      reachable w ->
      (isConnected w = true
       <-> broken w = false /\ key w <> None
           /\ (error w = None \/ error w = Some EmptyString))
      /\ (st_connected (getState w) = true <-> broken w = false /\ key w <> None)
      /\ (forall m, error w = Some m -> m <> EmptyString ->
          broken w = false -> key w <> None ->
          isConnected w = false /\ st_connected (getState w) = true))
  /\ (forall evs w,
        Forall rejectionHasMessage evs ->
        run initial evs = Some w ->
        error w <> Some EmptyString
        /\ (isConnected w = true
            <-> broken w = false /\ key w <> None /\ error w = None)
        /\ (st_connected (getState w) = true <-> broken w = false /\ key w <> None)
        /\ (error w <> None -> broken w = false -> key w <> None ->
            isConnected w = false /\ st_connected (getState w) = true)).
Proof.
  split.
  - intros w Hr.
    assert (Hk : key w <> Some EmptyString).
    { revert w Hr. apply reachable_invariant.
      - simpl. discriminate.
      - intros w1 ev w2 Hi Hs. exact (step_key_nonempty w1 ev w2 Hs Hi). }
    unfold isConnected, getState. simpl.
    destruct (broken w), (key w) as [[ | c k] | ], (error w) as [[ | c' m] | ];
      simpl; try congruence;
      repeat split; try discriminate; try tauto; try congruence;
      intros; intuition (try discriminate; try congruence).
  - intros evs w Hok Hrun.
    assert (Hinv : key w <> Some EmptyString /\ error w <> Some EmptyString).
    { refine (run_invariant (fun w => key w <> Some EmptyString /\ error w <> Some EmptyString)
                rejectionHasMessage _ evs initial w Hok _ Hrun).
      - intros w1 ev w2 Hev Hi Hs. exact (step_key_error w1 ev w2 Hev Hs Hi).
      - simpl. split; discriminate. }
    destruct Hinv as [Hk He].
    split; [exact He | ].
    unfold isConnected, getState. simpl.
    destruct (broken w), (key w) as [[ | c k] | ], (error w) as [[ | c' m] | ];
      simpl; try congruence;
      repeat split; try discriminate; try tauto; try congruence;
      intros; intuition (try discriminate; try congruence).
Qed.

(** ** Setting the key *)

Lemma invocations_app p es1 es2 :
  invocations p (es1 ++ es2) = (invocations p es1 + invocations p es2)%nat.
Proof.
  induction es1 as [ | e es1 IH]; simpl; [reflexivity | ].
  destruct e; simpl; rewrite IH; lia.
Qed.

Lemma invocations_rev p es : invocations p (rev es) = invocations p es.
Proof.
  induction es as [ | e es IH]; simpl; [reflexivity | ].
  rewrite invocations_app, IH. destruct e; simpl; lia.
Qed.

Lemma queued_app p m1 m2 : queued p (m1 ++ m2) = (queued p m1 + queued p m2)%nat.
Proof.
  induction m1 as [ | [k v] m1 IH]; simpl; [reflexivity | ]. rewrite IH. lia.
Qed.

Lemma invocations_rejections p reason m1 m2 :
  invocations p (rejections reason (JsMap.values m1 ++ JsMap.values m2))
  = (queued p m1 + queued p m2)%nat.
Proof.
  unfold rejections, JsMap.values. rewrite <- map_app, <- queued_app.
  induction (m1 ++ m2) as [ | [k v] m IH]; simpl; [reflexivity | ].
  rewrite IH. reflexivity.
Qed.

(** C8. [setKey] trims its argument; null, the empty string and a string
    of white space give the null key, any other string gives its trimmed
    form.  Whatever the argument, when [setKey] returns or suspends,
    [broken] is false, the last error is null, the three queues are empty,
    and every request that was in [pending] or [active] has been rejected
    with Connection reset; the one post of the initialization is sent
    after these rejections, and only when the key is not null.  The
    rounds in flight stay as they are: [setKey] invokes the continuations
    of a request as often as the request is in [pending] and [active], so
    a request that a round in flight holds in its snapshot, and neither
    map holds, is not rejected. *)
Theorem setKey_contract :
  forall k w,
    let w' := setKey k w in
    let trimmed := trim (or_else k EmptyString) in
    (exists a b, or_else k EmptyString = (a ++ trimmed ++ b)%string
                 /\ allWhiteSpace a = true /\ allWhiteSpace b = true)
    /\ (forall c t, trimmed = String c t -> isWhiteSpace c = false)
    /\ (forall t c, trimmed = (t ++ String c EmptyString)%string -> isWhiteSpace c = false)
    /\ (allWhiteSpace (or_else k EmptyString) = true -> key w' = None)
    /\ (allWhiteSpace (or_else k EmptyString) = false -> key w' = Some trimmed)
    /\ broken w' = false /\ error w' = None
    /\ pending w' = [] /\ active w' = [] /\ completed w' = []
    /\ (exists st,
          history w'
          = history w
            ++ rejections "Connection reset"
                 (JsMap.values (pending w) ++ JsMap.values (active w))
            ++ [Notify st]
            ++ match key w' with
               | None => [Notify (getState w'); SetKeyReturned]
               | Some key' => [PostInit key' 5000]
               end)
    /\ awaitingInit w'
       = (awaitingInit w + match key w' with None => 0 | Some _ => 1 end)%nat
    /\ posts (effects w')
       = (posts (effects w) + match key w' with None => 0 | Some _ => 1 end)%nat
    /\ awaitingBatch w' = awaitingBatch w
    /\ (forall p,
          invocations p (effects w')
          = (invocations p (effects w)
             + (queued p (pending w) + queued p (active w)))%nat).
Proof.
  intros k w w' trimmed.
  destruct (trim_spec (or_else k EmptyString)) as (H1 & H2 & H3). fold trimmed in H1, H2, H3.
  split; [exact H1 | split; [exact H2 | split; [exact H3 | ]]].
  assert (Hw : allWhiteSpace (or_else k EmptyString) = true <-> trimmed = EmptyString)
    by (symmetry; apply trim_empty).
  subst w'. unfold setKey. rewrite resetState_eq. fold trimmed. clearbody trimmed.
  unfold history.
  destruct trimmed as [ | c t]; simpl.
  - repeat split; try reflexivity.
    + intros Hf. destruct Hw as [_ Hw]. rewrite (Hw eq_refl) in Hf. discriminate.
    + eexists. rewrite rev_app_distr, rev_involutive.
      repeat rewrite <- app_assoc. reflexivity.
    + lia.
    + rewrite posts_app, posts_rev, posts_rejections. lia.
    + intros p. rewrite invocations_app, invocations_rev, invocations_rejections.
      lia.
  - repeat split; try reflexivity.
    + intros Ht. apply Hw in Ht. discriminate.
    + eexists. rewrite rev_app_distr, rev_involutive.
      repeat rewrite <- app_assoc. reflexivity.
    + lia.
    + rewrite posts_app, posts_rev, posts_rejections. lia.
    + intros p. rewrite invocations_app, invocations_rev, invocations_rejections.
      lia.
Qed.

(** ** One round at a time *)

Lemma processIfNeeded_skips w :
  broken w = true \/ processing w = true \/ truthy (key w) = false
  \/ (pending w = [] /\ active w = [] /\ completed w = []) ->
  processIfNeeded w = w.
Proof.
  unfold processIfNeeded. intros [H | [H | [H | H]]].
  - rewrite H. reflexivity.
  - rewrite H. destruct (broken w); reflexivity.
  - rewrite H. destruct (broken w), (processing w); reflexivity.
  - apply hasWork_false in H. rewrite H.
    destruct (broken w || processing w || negb (truthy (key w))); reflexivity.
Qed.

Lemma processIfNeeded_oneFlight w : oneFlight w -> oneFlight (processIfNeeded w).
Proof.
  unfold oneFlight. intros H.
  destruct (broken w) eqn:Hb;
    [rewrite processIfNeeded_skips; auto | ].
  destruct (processing w) eqn:Hp;
    [rewrite processIfNeeded_skips; auto; rewrite Hp; exact H | ].
  destruct (truthy (key w)) eqn:Hk;
    [ | rewrite processIfNeeded_skips; auto; rewrite Hp; exact H].
  destruct (hasWork w) eqn:Hw.
  - destruct (processIfNeeded_starts w Hb Hp Hk Hw) as (payload & ->).
    simpl. rewrite length_app. simpl. lia.
  - rewrite processIfNeeded_skips; [rewrite Hp; exact H | ].
    right; right; right. apply hasWork_false. exact Hw.
Qed.

Lemma nth_error_one {A : Type} (l : list A) i x :
  List.length l = 1%nat -> nth_error l i = Some x -> remove_nth i l = [].
Proof.
  destruct l as [ | y [ | z l]]; simpl; try discriminate.
  intros _. destruct i as [ | i]; simpl; [reflexivity | ].
  destruct i; discriminate.
Qed.

Lemma initializeConnection_catch_frame e w :
  let w' := initializeConnection_catch e w in
  processing w' = processing w /\ awaitingBatch w' = awaitingBatch w
  /\ pending w' = pending w /\ active w' = active w
  /\ promises w' = promises w
  /\ forall p, invocations p (effects w') = invocations p (effects w).
Proof.
  unfold initializeConnection_catch, setKey_catch.
  destruct (response e) as [rsp | ]; [destruct (status rsp =? 404) | ];
    simpl; repeat split.
Qed.

Lemma initializeConnection_resolved_frame body w :
  let w' := initializeConnection_resolved body w in
  processing w' = processing w /\ awaitingBatch w' = awaitingBatch w
  /\ pending w' = pending w /\ active w' = active w
  /\ promises w' = promises w
  /\ forall p, invocations p (effects w') = invocations p (effects w).
Proof.
  unfold initializeConnection_resolved.
  destruct (validateInitResponse body) as [err | [d | ]].
  - apply initializeConnection_catch_frame.
  - destruct (intervalMs d) as [n | ]; [destruct (0 <? n) | ];
      simpl; repeat split.
  - apply initializeConnection_catch_frame.
Qed.

Lemma step_oneFlight w ev w' :
  (isSetKey ev = true -> awaitingBatch w = []) ->
  step w ev = Some w' -> oneFlight w -> oneFlight w'.
Proof.
  intros Hcalm Hstep Hinv. destruct ev; simpl in Hstep, Hcalm.
  - injection Hstep as <-. unfold oneFlight.
    unfold setKey, initializeConnection, setKey_catch. rewrite resetState_eq.
    simpl. rewrite (Hcalm eq_refl).
    destruct (trim (or_else k EmptyString)); reflexivity.
  - destruct (awaitingInit w) as [ | n]; [discriminate | ]. injection Hstep as <-.
    unfold oneFlight in *.
    destruct (initializeConnection_resolved_frame body (set_awaitingInit n w))
      as (-> & -> & _).
    exact Hinv.
  - destruct (awaitingInit w) as [ | n]; [discriminate | ]. injection Hstep as <-.
    unfold oneFlight in *. unfold initializeConnection_rejected.
    destruct (initializeConnection_catch_frame e (set_awaitingInit n w))
      as (-> & -> & _).
    exact Hinv.
  - injection Hstep as <-. unfold executeOrFallback.
    destruct (broken w || negb (truthy (key w))); [exact Hinv | ].
    apply processIfNeeded_oneFlight. exact Hinv.
  - destruct (nth_error (awaitingBatch w) i) as [r | ] eqn:Hn; [ | discriminate].
    injection Hstep as <-. unfold oneFlight in *.
    assert (Hlen : List.length (awaitingBatch w) = 1%nat).
    { destruct (processing w); [exact Hinv | ].
      destruct (awaitingBatch w); [destruct i; discriminate | discriminate]. }
    rewrite (nth_error_one _ i r Hlen Hn).
    unfold processBatch_resolved.
    set (w0 := set_awaitingBatch [] w).
    destruct (validateInitResponse body) as [err | [d | ]].
    + destruct (handleBatchError_frame err r w0) as (_ & _ & Hab & _).
      seal (handleBatchError err r w0). simpl. rewrite Hab. reflexivity.
    + destruct (handleBatchResponse_frame d (batchToSend r) w0)
        as (_ & _ & _ & _ & _ & Hab & _).
      destruct (handleBatchResponse d (batchToSend r) w0) as [wx [e0 | ]];
        simpl in Hab.
      * destruct (handleBatchError_frame e0 r wx) as (_ & _ & Hab' & _).
        seal (handleBatchError e0 r wx). simpl. rewrite Hab', Hab. reflexivity.
      * destruct (hasWork wx); simpl; rewrite Hab; reflexivity.
    + destruct (handleBatchError_frame (Error "Invalid batch response") r w0)
        as (_ & _ & Hab & _).
      seal (handleBatchError (Error "Invalid batch response") r w0).
      simpl. rewrite Hab. reflexivity.
  - destruct (nth_error (awaitingBatch w) i) as [r | ] eqn:Hn; [ | discriminate].
    injection Hstep as <-. unfold oneFlight in *.
    assert (Hlen : List.length (awaitingBatch w) = 1%nat).
    { destruct (processing w); [exact Hinv | ].
      destruct (awaitingBatch w); [destruct i; discriminate | discriminate]. }
    rewrite (nth_error_one _ i r Hlen Hn).
    unfold processBatch_rejected.
    set (w0 := set_awaitingBatch [] w).
    destruct (handleBatchError_frame e r w0) as (_ & _ & Hab & _).
    seal (handleBatchError e r w0). simpl. rewrite Hab. reflexivity.
  - destruct (nth_error (timers w) i); [ | discriminate].
    injection Hstep as <-. apply processIfNeeded_oneFlight. exact Hinv.
Qed.

Lemma run_oneFlight evs : forall w w',
  calm w evs -> run w evs = Some w' -> oneFlight w -> oneFlight w'.
Proof.
  induction evs as [ | ev evs IH]; intros w w' Hcalm Hrun Hinv; simpl in Hrun.
  - injection Hrun as <-. exact Hinv.
  - destruct Hcalm as [Hev Hrest].
    destruct (step w ev) as [w1 | ] eqn:Hs; [ | discriminate].
    apply (IH w1 w' Hrest Hrun).
    exact (step_oneFlight w ev w1 Hev Hs Hinv).
Qed.

(** C6, as the code has it.  A call of [processIfNeeded] while
    [processing] or [broken] is true, the key is null, or the three queues
    are empty changes nothing: no state, no effect, no round.  A call that
    starts a round sets [processing] before the post is sent, and the end
    of the round sets it to false.  As long as [setKey] is not called
    while a round is in flight, at most one round is in flight, and
    exactly when [processing] is true. *)
Theorem single_flight :
  (forall w,
      broken w = true \/ processing w = true \/ key w = None
      \/ (pending w = [] /\ active w = [] /\ completed w = []) ->
      processIfNeeded w = w)
  /\ (forall w,
        processIfNeeded w <> w ->
        processing (processIfNeeded w) = true
        /\ awaitingBatch (processIfNeeded w)
           = awaitingBatch w
               ++ [{| batchToSend := pending w; completedSnapshot := completed w |}]
        /\ exists payload st,
             effects (processIfNeeded w)
             = PostBatch payload (pollRate w * 2) :: Notify st :: effects w
             /\ st_processing st = true)
  /\ (forall r body w, processing (processBatch_resolved r body w) = false)
  /\ (forall r e w, processing (processBatch_rejected r e w) = false)
  /\ (forall evs w,
        calm initial evs -> run initial evs = Some w ->
        (List.length (awaitingBatch w) <= 1)%nat
        /\ (processing w = true <-> List.length (awaitingBatch w) = 1%nat)).
Proof.
  split; [ | split; [ | split; [ | split]]].
  - intros w H. apply processIfNeeded_skips.
    destruct H as [H | [H | [H | H]]]; auto.
    right; right; left. rewrite H. reflexivity.
  - intros w Hne.
    destruct (broken w) eqn:Hb;
      [exfalso; apply Hne, processIfNeeded_skips; auto | ].
    destruct (processing w) eqn:Hp;
      [exfalso; apply Hne, processIfNeeded_skips; auto | ].
    destruct (truthy (key w)) eqn:Hk;
      [ | exfalso; apply Hne, processIfNeeded_skips; auto].
    destruct (hasWork w) eqn:Hw.
    + destruct (processIfNeeded_starts w Hb Hp Hk Hw) as (payload & ->).
      simpl. repeat split. eexists. eexists. split; reflexivity.
    + exfalso. apply Hne, processIfNeeded_skips.
      right; right; right. apply hasWork_false. exact Hw.
  - intros r body w. reflexivity.
  - intros r e w. reflexivity.
  - intros evs w Hcalm Hrun.
    assert (H : oneFlight w).
    { apply (run_oneFlight evs initial w Hcalm Hrun). reflexivity. }
    unfold oneFlight in H. destruct (processing w); rewrite H.
    + split; [lia | tauto].
    + split; [lia | split; [discriminate | lia]].
Qed.

(** ** Every request is settled at most once *)

Lemma queued_set p k v m :
  (queued p (JsMap.set k v m)
   <= queued p m + if Nat.eqb p (promise v) then 1 else 0)%nat.
Proof.
  induction m as [ | [k' v'] m IH]; simpl.
  - lia.
  - destruct (String.eqb k k'); simpl; [ | lia].
    destruct (Nat.eqb p (promise v')); lia.
Qed.

Lemma queued_delete p k v m :
  JsMap.get k m = Some v ->
  (queued p (JsMap.delete k m) + (if Nat.eqb p (promise v) then 1 else 0)
   = queued p m)%nat.
Proof.
  induction m as [ | [k' v'] m IH]; simpl; [discriminate | ].
  destruct (String.eqb k k').
  - intros [= ->]. lia.
  - intros H. simpl. rewrite <- (IH H). lia.
Qed.

Lemma queued_get_zero p k v m :
  queued p m = 0%nat -> JsMap.get k m = Some v -> Nat.eqb p (promise v) = false.
Proof.
  intros Hq Hg. rewrite <- (queued_delete p k v m Hg) in Hq.
  destruct (Nat.eqb p (promise v)); [lia | reflexivity].
Qed.

Lemma queued_restorePending p batch pend :
  (queued p (restorePending batch pend) <= queued p pend + queued p batch)%nat.
Proof.
  unfold restorePending. revert pend.
  induction batch as [ | [k v] batch IH]; intros pend; simpl.
  - lia.
  - specialize (IH (JsMap.set k v pend)).
    pose proof (queued_set p k v pend). lia.
Qed.

Lemma inFlight_remove p rounds i r :
  nth_error rounds i = Some r ->
  inFlight p rounds
  = (queued p (batchToSend r) + inFlight p (remove_nth i rounds))%nat.
Proof.
  revert i. induction rounds as [ | r0 rounds IH]; intros i H.
  - destruct i; discriminate.
  - destruct i as [ | i]; simpl in *.
    + injection H as ->. reflexivity.
    + rewrite (IH i H). lia.
Qed.

Lemma inFlight_snoc p rounds r :
  inFlight p (rounds ++ [r])
  = (inFlight p rounds + queued p (batchToSend r))%nat.
Proof.
  induction rounds as [ | r0 rounds IH]; simpl; [lia | rewrite IH; lia].
Qed.

Lemma spends_refl p w : spends p 0 w w.
Proof. unfold spends. lia. Qed.

Lemma spends_trans p b1 b2 w1 w2 w3 :
  spends p b1 w1 w2 -> spends p b2 w2 w3 -> spends p (b1 + b2) w1 w3.
Proof. unfold spends. lia. Qed.

Lemma handleResult_spends p res w : spends p 0 w (handleResult res w).
Proof.
  unfold handleResult.
  destruct (JsMap.get (ServerResult.requestKey res) (active w)) as [req | ] eqn:Hg;
    [ | apply spends_refl].
  destruct (ServerResult.status res); [ | apply spends_refl].
  pose proof (queued_delete p _ _ _ Hg) as Hd.
  unfold spends.
  destruct (ServerResult.isError res) as [[ | ] | ]; simpl;
    destruct (Nat.eqb p (promise req)); lia.
Qed.

Lemma handleResults_spends p rs w :
  spends p 0 w (fold_left (fun w res => handleResult res w) rs w).
Proof.
  apply (fold_left_rel (spends p 0)).
  - apply spends_refl.
  - intros w1 w2 w3 H1 H2. exact (spends_trans p 0 0 w1 w2 w3 H1 H2).
  - intros w0 res. apply handleResult_spends.
Qed.

Lemma handleCreated_spends p batch item w :
  spends p
    match JsMap.get (Created.requestKey item) batch with
    | Some req => if Nat.eqb p (promise req) then 1 else 0
    | None => 0
    end w (handleCreated batch item w).
Proof.
  unfold handleCreated.
  destruct (JsMap.get (Created.requestKey item) batch) as [req | ];
    [ | apply spends_refl].
  unfold spends.
  destruct (String.eqb (Created.status item) "pending"); simpl.
  - pose proof (queued_set p (Created.requestKey item) req (active w)). lia.
  - destruct (Nat.eqb p (promise req)); lia.
Qed.

(** The acknowledgments of distinct keys take distinct entries of the
    snapshot: [rest] is what is left of it. *)
Lemma handleCreateds_spends_once p batch : forall items rest w,
  NoDup (map Created.requestKey items) ->
  (forall item, In item items ->
     JsMap.get (Created.requestKey item) rest
     = JsMap.get (Created.requestKey item) batch) ->
  spends p (queued p rest) w
    (fold_left (fun w item => handleCreated batch item w) items w).
Proof.
  induction items as [ | item items IH]; intros rest w Hnd Hget; simpl.
  - pose proof (spends_refl p w). unfold spends in *. lia.
  - inversion Hnd as [ | ? ? Hnotin Hnd']; subst.
    pose proof (handleCreated_spends p batch item w) as H1.
    rewrite <- (Hget item (or_introl eq_refl)) in H1.
    destruct (JsMap.get (Created.requestKey item) rest) as [req | ] eqn:Hg.
    + assert (H2 := IH (JsMap.delete (Created.requestKey item) rest)
                      (handleCreated batch item w) Hnd').
      assert (Hrest : forall item0, In item0 items ->
                JsMap.get (Created.requestKey item0)
                  (JsMap.delete (Created.requestKey item) rest)
                = JsMap.get (Created.requestKey item0) batch).
      { intros item0 Hin. rewrite <- (Hget item0 (or_intror Hin)).
        assert (Hne : Created.requestKey item <> Created.requestKey item0).
        { intros Heq. apply Hnotin. rewrite Heq. apply in_map. exact Hin. }
        apply JsMap_get_delete_ne. exact Hne. }
      specialize (H2 Hrest).
      pose proof (queued_delete p _ _ _ Hg).
      unfold spends in *. lia.
    + assert (H2 := IH rest (handleCreated batch item w) Hnd'
                      (fun item0 Hin => Hget item0 (or_intror Hin))).
      unfold spends in *. lia.
Qed.

Lemma handleCreateds_spends_none p batch items w :
  queued p batch = 0%nat ->
  spends p 0 w (fold_left (fun w item => handleCreated batch item w) items w).
Proof.
  intros Hq. apply (fold_left_rel (spends p 0)).
  - apply spends_refl.
  - intros w1 w2 w3 H1 H2. exact (spends_trans p 0 0 w1 w2 w3 H1 H2).
  - intros w0 item. pose proof (handleCreated_spends p batch item w0) as H.
    destruct (JsMap.get (Created.requestKey item) batch) as [req | ] eqn:Hg;
      [ | exact H].
    rewrite (queued_get_zero p _ _ _ Hq Hg) in H. exact H.
Qed.

Lemma applied_spends p data batch w :
  NoDup (map Created.requestKey (createdOf data)) \/ queued p batch = 0%nat ->
  spends p (queued p batch) w (applied data batch w).
Proof.
  intros Hack. unfold applied.
  set (w1 := match intervalMs data with
             | Some n => set_pollRate (clamp n) w | None => w end).
  assert (H1 : spends p 0 w w1).
  { subst w1. destruct (intervalMs data); unfold spends; simpl; lia. }
  set (w2 := fold_left (fun w res => handleResult res w) (resultsOf data) w1).
  assert (H2 : spends p 0 w1 w2).
  { subst w2. apply handleResults_spends. }
  set (w3 := fold_left (fun w item => handleCreated batch item w)
               (createdOf data) w2).
  assert (H3 : spends p (queued p batch) w2 w3).
  { subst w3. destruct Hack as [Hnd | Hz].
    - apply handleCreateds_spends_once; auto.
    - rewrite Hz. apply handleCreateds_spends_none. exact Hz. }
  clearbody w1 w2 w3. unfold spends in *. lia.
Qed.

Lemma handleBatchError_fate p e r w :
  let w' := handleBatchError e r w in
  (invocations p (effects w) <= invocations p (effects w')
   /\ invocations p (effects w') + queued p (pending w') + queued p (active w')
      <= invocations p (effects w) + queued p (pending w) + queued p (active w)
         + queued p (batchToSend r))%nat.
Proof.
  pose proof (queued_restorePending p (batchToSend r) (pending w)) as Hq.
  destruct (isCritical e) eqn:Hc.
  - rewrite (handleBatchError_critical e r w Hc), resetState_eq.
    destruct (response e) as [rsp | ]; [destruct (status rsp =? 404) | ];
      simpl; rewrite invocations_app, invocations_rev, invocations_rejections;
      lia.
  - rewrite (handleBatchError_transient e r w Hc). simpl. lia.
Qed.

Lemma processIfNeeded_cases w :
  processIfNeeded w = w
  \/ exists payload,
       processIfNeeded w
       = set_awaitingBatch
           (awaitingBatch w ++
              [{| batchToSend := pending w; completedSnapshot := completed w |}])
           (emit (PostBatch payload (pollRate w * 2))
              (set_completed []
                 (set_pending []
                    (notifyStateChange (set_processing true w))))).
Proof.
  destruct (broken w) eqn:Hb; [left; apply processIfNeeded_skips; auto | ].
  destruct (processing w) eqn:Hp; [left; apply processIfNeeded_skips; auto | ].
  destruct (truthy (key w)) eqn:Hk; [ | left; apply processIfNeeded_skips; auto].
  destruct (hasWork w) eqn:Hw.
  - right. apply processIfNeeded_starts; assumption.
  - left. apply processIfNeeded_skips.
    right; right; right. apply hasWork_false. exact Hw.
Qed.

Lemma processIfNeeded_fate p w :
  let w' := processIfNeeded w in
  invocations p (effects w') = invocations p (effects w)
  /\ live p w' = live p w /\ promises w' = promises w.
Proof.
  destruct (processIfNeeded_cases w) as [-> | (payload & ->)].
  - repeat split.
  - unfold live. simpl. rewrite inFlight_snoc. simpl. repeat split. lia.
Qed.

Lemma setKey_fate p k w :
  let w' := setKey k w in
  (invocations p (effects w) <= invocations p (effects w'))%nat
  /\ fate p w' = fate p w /\ promises w' = promises w.
Proof.
  unfold setKey, initializeConnection, setKey_catch. rewrite resetState_eq.
  unfold fate, live.
  destruct (trim (or_else k EmptyString)); simpl;
    rewrite invocations_app, invocations_rev, invocations_rejections;
    repeat split; lia.
Qed.

(** What a turn of the event loop does to the request of promise [p]. *)
Lemma step_fate p w ev w' :
  step w ev = Some w' ->
  ackedOnce ev \/ live p w = 0%nat ->
  (promises w <= promises w')%nat
  /\ (invocations p (effects w) <= invocations p (effects w'))%nat
  /\ (fate p w'
      <= fate p w
         + if Nat.eqb p (promises w) && Nat.ltb (promises w) (promises w')
           then 1 else 0)%nat.
Proof.
  intros Hstep Hack. destruct ev; simpl in Hstep.
  - (* setKey *)
    injection Hstep as <-.
    destruct (setKey_fate p k w) as (H1 & H2 & H3). rewrite H2, H3. lia.
  - (* init resolved *)
    destruct (awaitingInit w) as [ | n]; [discriminate | ]. injection Hstep as <-.
    destruct (initializeConnection_resolved_frame body (set_awaitingInit n w))
      as (_ & Hab & Hpe & Hac & Hpr & Hinv).
    unfold fate, live. rewrite Hab, Hpe, Hac, Hpr, Hinv. simpl. lia.
  - (* init rejected *)
    destruct (awaitingInit w) as [ | n]; [discriminate | ]. injection Hstep as <-.
    unfold initializeConnection_rejected.
    destruct (initializeConnection_catch_frame e (set_awaitingInit n w))
      as (_ & Hab & Hpe & Hac & Hpr & Hinv).
    unfold fate, live. rewrite Hab, Hpe, Hac, Hpr, Hinv. simpl. lia.
  - (* executeOrFallback *)
    injection Hstep as <-. unfold executeOrFallback.
    destruct (broken w || negb (truthy (key w))).
    + unfold fate, live. simpl. lia.
    + match goal with
      | |- context [processIfNeeded ?x] =>
          destruct (processIfNeeded_fate p x) as (Hi & Hl & Hp)
      end.
      unfold fate. rewrite Hi, Hl, Hp. unfold live. simpl.
      pose proof (queued_set p requestKey0
                    {| requestKey := requestKey0; call := apiCall;
                       promise := promises w; timestamp := now |} (pending w)) as Hq.
      simpl in Hq.
      replace (promises w <? S (promises w))%nat with true
        by (symmetry; apply Nat.ltb_lt; lia).
      rewrite Bool.andb_true_r. lia.
  - (* batch resolved *)
    destruct (nth_error (awaitingBatch w) i) as [r | ] eqn:Hn; [ | discriminate].
    injection Hstep as <-. unfold processBatch_resolved.
    pose proof (inFlight_remove p _ _ _ Hn) as Hfl.
    set (w0 := set_awaitingBatch (remove_nth i (awaitingBatch w)) w).
    assert (Hl : live p w = (live p w0 + queued p (batchToSend r))%nat).
    { unfold live. simpl. lia. }
    assert (He0 : effects w0 = effects w) by reflexivity.
    assert (Hp0 : promises w0 = promises w) by reflexivity.
    unfold ackedOnce in Hack. rewrite Hl in Hack.
    unfold fate. rewrite Hl, <- He0, <- Hp0. clearbody w0. clear Hfl Hn Hl He0 Hp0.
    destruct (validateInitResponse body) as [err | [d | ]].
    + pose proof (handleBatchError_fate p err r w0) as Hf.
      destruct (handleBatchError_frame err r w0) as (_ & _ & Hab & Hpr & _).
      seal (handleBatchError err r w0).
      unfold live. simpl. rewrite Hab, Hpr. cbv zeta in Hf.
      replace (promises w0 <? promises w0)%nat with false
        by (symmetry; apply Nat.ltb_ge; lia).
      rewrite Bool.andb_false_r. lia.
    + assert (Hs : spends p (queued p (batchToSend r)) w0
                     (applied d (batchToSend r) w0)).
      { apply applied_spends. destruct Hack as [[_ H] | H]; [left; exact H | ].
        right. lia. }
      destruct (applied_frame d (batchToSend r) w0)
        as (_ & _ & _ & _ & _ & Hab & _ & Hpr & Hpe & _).
      rewrite handleBatchResponse_eq.
      destruct (throws d) eqn:Hth.
      * assert (Hz : queued p (batchToSend r) = 0%nat).
        { destruct Hack as [[H _] | H]; [discriminate | lia]. }
        pose proof (handleBatchError_fate p nullItem r (applied d (batchToSend r) w0))
          as Hf.
        destruct (handleBatchError_frame nullItem r (applied d (batchToSend r) w0))
          as (_ & _ & Hab' & Hpr' & _).
        seal (applied d (batchToSend r) w0).
        seal (handleBatchError nullItem r wx).
        unfold spends in Hs. unfold live. simpl.
        rewrite Hab', Hpr', Hab, Hpr. cbv zeta in Hf. rewrite Hpe in Hf.
        replace (promises w0 <? promises w0)%nat with false
          by (symmetry; apply Nat.ltb_ge; lia).
        rewrite Bool.andb_false_r. lia.
      * seal (applied d (batchToSend r) w0).
        unfold spends in Hs. unfold live.
        destruct (hasWork (notifyStateChange wx)); simpl; rewrite Hab, Hpr, Hpe;
          replace (promises w0 <? promises w0)%nat with false
            by (symmetry; apply Nat.ltb_ge; lia);
          rewrite Bool.andb_false_r; lia.
    + pose proof (handleBatchError_fate p (Error "Invalid batch response") r w0) as Hf.
      destruct (handleBatchError_frame (Error "Invalid batch response") r w0)
        as (_ & _ & Hab & Hpr & _).
      seal (handleBatchError (Error "Invalid batch response") r w0).
      unfold live. simpl. rewrite Hab, Hpr. cbv zeta in Hf.
      replace (promises w0 <? promises w0)%nat with false
        by (symmetry; apply Nat.ltb_ge; lia).
      rewrite Bool.andb_false_r. lia.
  - (* batch rejected *)
    destruct (nth_error (awaitingBatch w) i) as [r | ] eqn:Hn; [ | discriminate].
    injection Hstep as <-. unfold processBatch_rejected.
    pose proof (inFlight_remove p _ _ _ Hn) as Hfl.
    set (w0 := set_awaitingBatch (remove_nth i (awaitingBatch w)) w).
    assert (Hl : live p w = (live p w0 + queued p (batchToSend r))%nat).
    { unfold live. simpl. lia. }
    assert (He0 : effects w0 = effects w) by reflexivity.
    assert (Hp0 : promises w0 = promises w) by reflexivity.
    unfold fate. rewrite Hl, <- He0, <- Hp0. clearbody w0. clear Hfl Hn Hl He0 Hp0.
    pose proof (handleBatchError_fate p e r w0) as Hf.
    destruct (handleBatchError_frame e r w0) as (_ & _ & Hab & Hpr & _).
    seal (handleBatchError e r w0).
    unfold live. simpl. rewrite Hab, Hpr. cbv zeta in Hf.
    replace (promises w0 <? promises w0)%nat with false
      by (symmetry; apply Nat.ltb_ge; lia).
    rewrite Bool.andb_false_r. lia.
  - (* timer *)
    destruct (nth_error (timers w) i); [ | discriminate].
    injection Hstep as <-.
    match goal with
    | |- context [processIfNeeded ?x] =>
        destruct (processIfNeeded_fate p x) as (Hi & Hl & Hp)
    end.
    unfold fate. rewrite Hi, Hl, Hp. unfold live. simpl. lia.
Qed.

Lemma step_fate_bound w ev w' :
  ackedOnce ev -> 
  (forall p, (fate p w <= if Nat.ltb p (promises w) then 1 else 0)%nat) ->
  step w ev = Some w' ->
  forall p, (fate p w' <= if Nat.ltb p (promises w') then 1 else 0)%nat.
Proof.
  intros Hack Hinv Hstep p.
  destruct (step_fate p w ev w' Hstep (or_introl Hack)) as (Hpr & _ & Hf).
  specialize (Hinv p).
  destruct (Nat.ltb_spec p (promises w)) as [Hlt | Hge].
  - replace (Nat.eqb p (promises w)) with false in Hf
      by (symmetry; apply Nat.eqb_neq; lia).
    simpl in Hf.
    replace (Nat.ltb p (promises w')) with true
      by (symmetry; apply Nat.ltb_lt; lia).
    lia.
  - destruct (Nat.ltb_spec (promises w) (promises w')) as [Hnew | Hsame].
    + rewrite Bool.andb_true_r in Hf.
      destruct (Nat.eqb_spec p (promises w)) as [Heq | Hne].
      * replace (Nat.ltb p (promises w')) with true
          by (symmetry; apply Nat.ltb_lt; lia).
        lia.
      * destruct (Nat.ltb p (promises w')); lia.
    + rewrite Bool.andb_false_r in Hf.
      destruct (Nat.ltb p (promises w')); lia.
Qed.

(** A request that is in no queue and in no snapshot is never settled
    afterwards. *)
Lemma dropped_forever p evs : forall w w',
  live p w = 0%nat -> (p < promises w)%nat -> run w evs = Some w' ->
  invocations p (effects w') = invocations p (effects w)
  /\ live p w' = 0%nat.
Proof.
  induction evs as [ | ev evs IH]; intros w w' Hl Hp Hrun; simpl in Hrun.
  - injection Hrun as <-. auto.
  - destruct (step w ev) as [w1 | ] eqn:Hs; [ | discriminate].
    destruct (step_fate p w ev w1 Hs (or_intror Hl)) as (Hpr & Hmono & Hf).
    replace (Nat.eqb p (promises w)) with false in Hf
      by (symmetry; apply Nat.eqb_neq; lia).
    simpl in Hf. unfold fate in Hf.
    assert (Hl1 : live p w1 = 0%nat) by lia.
    assert (Hp1 : (p < promises w1)%nat) by lia.
    destruct (IH w1 w' Hl1 Hp1 Hrun) as [H1 H2].
    split; [lia | exact H2].
Qed.

Lemma run_fate_bound evs w :
  Forall ackedOnce evs -> run initial evs = Some w ->
  forall p, (fate p w <= if Nat.ltb p (promises w) then 1 else 0)%nat.
Proof.
  intros Hack Hrun.
  refine (run_invariant
            (fun w => forall p,
                 (fate p w <= if Nat.ltb p (promises w) then 1 else 0)%nat)
            ackedOnce _ evs initial w Hack _ Hrun).
  - intros w1 ev w2 Hev Hi Hs. exact (step_fate_bound w1 ev w2 Hev Hi Hs).
  - intros q. unfold fate, live. simpl. lia.
Qed.

(** X21. Along every run in which no batch response holds a null item or
    acknowledges the same request key twice, the continuations of a
    request are invoked at most once in all (one of resolve and reject,
    once), and a request whose continuation was invoked is in no queue
    any more.  In a state of such a run, a reset rejects every request of
    [pending] and [active], which makes exactly one invocation for each,
    and a done result for an active request makes exactly one invocation
    for it.  A request that is in none of [pending], [active] and the
    snapshots of the rounds in flight (as after a successful round whose
    response does not acknowledge it) is never settled. *)
Theorem settled_at_most_once :
  (forall evs w,
      Forall ackedOnce evs -> run initial evs = Some w ->
      forall p,
        (invocations p (effects w) <= 1)%nat
        /\ (invocations p (effects w) = 1%nat -> live p w = 0%nat)
        /\ (promises w <= p -> invocations p (effects w) = 0)%nat)
  /\ (forall evs w p,
        Forall ackedOnce evs -> run initial evs = Some w ->
        (0 < queued p (pending w) + queued p (active w))%nat ->
        invocations p (effects (resetState w)) = 1%nat
        /\ pending (resetState w) = [] /\ active (resetState w) = [])
  /\ (forall evs w res req,
        Forall ackedOnce evs -> run initial evs = Some w ->
        JsMap.get (ServerResult.requestKey res) (active w) = Some req ->
        ServerResult.status res = StatusDone ->
        invocations (promise req) (effects (handleResult res w)) = 1%nat)
  /\ (forall evs w w' p,
        live p w = 0%nat -> (p < promises w)%nat -> run w evs = Some w' ->
        invocations p (effects w') = invocations p (effects w)).
Proof.
  split; [ | split; [ | split]].
  - intros evs w Hack Hrun p.
    pose proof (run_fate_bound evs w Hack Hrun p) as Hinv.
    unfold fate in Hinv.
    destruct (Nat.ltb_spec p (promises w)); repeat split; intros; lia.
  - intros evs w p Hack Hrun Hq.
    pose proof (run_fate_bound evs w Hack Hrun p) as Hinv.
    unfold fate, live in Hinv.
    rewrite resetState_eq. simpl.
    rewrite invocations_app, invocations_rev, invocations_rejections.
    destruct (Nat.ltb p (promises w)); repeat split; lia.
  - intros evs w res req Hack Hrun Hget Hdone.
    pose proof (run_fate_bound evs w Hack Hrun (promise req)) as Hinv.
    unfold fate, live in Hinv.
    pose proof (queued_delete (promise req) _ _ _ Hget) as Hq.
    rewrite Nat.eqb_refl in Hq.
    unfold handleResult. rewrite Hget, Hdone.
    destruct (ServerResult.isError res) as [[ | ] | ]; simpl;
      rewrite Nat.eqb_refl;
      destruct (Nat.ltb (promise req) (promises w)); lia.
  - intros evs w w' p Hl Hp Hrun.
    apply (dropped_forever p evs w w' Hl Hp Hrun).
Qed.

(** ** Result parsing *)

(** C3. The parsing policy of [parseResult].  A string is decoded with
    [JSON.parse]: when that gives an object with a [result] field, the
    field is returned; when it gives anything else, the decoded value is
    returned; when it throws, the string itself is returned.  A value
    that is not a string is returned as it is, unless it is an object
    with both a [method] and a [result] field, and then its [result]
    field is returned.  [handleResult] resolves a done result that is
    not an error with [parseResult] of its [result], once. *)
Theorem parseResult_policy :
  (forall s fields r,
      JSON_parse s = Some (JObj fields) ->
      get_field "result" fields = Some r ->
      parseResult (Some (JStr s)) = Some r)
  /\ (forall s parsed,
      JSON_parse s = Some parsed ->
      (forall fields, parsed = JObj fields -> get_field "result" fields = None) ->
      parseResult (Some (JStr s)) = Some parsed)
  /\ (forall s,
      JSON_parse s = None ->
      parseResult (Some (JStr s)) = Some (JStr s))
  /\ (forall fields m r,
      get_field "method" fields = Some m ->
      get_field "result" fields = Some r ->
      parseResult (Some (JObj fields)) = Some r)
  /\ (forall result,
      (forall s, result <> Some (JStr s)) ->
      (forall fields, result = Some (JObj fields) ->
         get_field "method" fields = None \/ get_field "result" fields = None) ->
      parseResult result = result)
  /\ (forall res request w,
      JsMap.get (ServerResult.requestKey res) (active w) = Some request ->
      ServerResult.status res = StatusDone ->
      ServerResult.isError res <> Some true ->
      effects (handleResult res w)
      = Resolve (promise request) (parseResult (ServerResult.result res))
          :: effects w).
Proof.
  repeat split.
  - intros s fields r Hp Hr. simpl. rewrite Hp, Hr. reflexivity.
  - intros s parsed Hp Hno. simpl. rewrite Hp.
    destruct parsed; try reflexivity.
    rewrite (Hno fields eq_refl). reflexivity.
  - intros s Hp. simpl. rewrite Hp. reflexivity.
  - intros fields m r Hm Hr. simpl. rewrite Hm, Hr. reflexivity.
  - intros result Hstr Hobj.
    destruct result as [[ | b | n | s | items | fields] | ]; try reflexivity.
    + exfalso. apply (Hstr s). reflexivity.
    + simpl. destruct (Hobj fields eq_refl) as [H | H]; rewrite H.
      * reflexivity.
      * destruct (get_field "method" fields); reflexivity.
  - intros res request w Hget Hst Herr.
    unfold handleResult. rewrite Hget, Hst.
    destruct (ServerResult.isError res) as [[ | ] | ]; try reflexivity.
    congruence.
Qed.

End Properties.


(** * The scenarios of the specification, run *)

(** Scenario D: the result of an active call arrives as the JSON text of
    an object with a [result] field; the promise is resolved with the
    field, and the call moves from [active] to [completed]. *)
Example scenario_D :
  run JSON.parse initial resolvedA = Some (worldAfter resolvedA)
  /\ In (Resolve 0 (Some (JNum 42))) (effects (worldAfter resolvedA))
  /\ active (worldAfter resolvedA) = []
  /\ completed (worldAfter resolvedA) = ["A"].
Proof. vm_compute. intuition. Qed.

(** Scenario F: a round that times out puts its call back in [pending],
    records the error and arms one retry; the connection is not broken. *)
Example scenario_F :
  run JSON.parse initial timedOut = Some (worldAfter timedOut)
  /\ JsMap.keys (pending (worldAfter timedOut)) = ["A"]
  /\ error (worldAfter timedOut) = Some "timeout of 2000ms exceeded"
  /\ timers (worldAfter timedOut) = [1000]
  /\ broken (worldAfter timedOut) = false.
Proof. vm_compute. intuition. Qed.

(** ** C1 *)

(** C1, on the code: a call is submitted while connected and sent; its
    round succeeds with a response that acknowledges nothing.  The call is
    then in no queue, nothing is in flight and no timer is armed; neither
    continuation was invoked, and none is, whatever follows. *)
Lemma unacknowledged_request_is_never_settled :
  run JSON.parse initial unacknowledgedA = Some (worldAfter unacknowledgedA)
  /\ promises (worldAfter unacknowledgedA) = 1%nat
  /\ (exists payload timeout,
        In (PostBatch payload timeout) (effects (worldAfter unacknowledgedA))
        /\ map cp_requestKey (calls payload) = ["A"])
  /\ pending (worldAfter unacknowledgedA) = []
  /\ active (worldAfter unacknowledgedA) = []
  /\ awaitingBatch (worldAfter unacknowledgedA) = []
  /\ awaitingInit (worldAfter unacknowledgedA) = 0%nat
  /\ timers (worldAfter unacknowledgedA) = []
  /\ invocations 0 (effects (worldAfter unacknowledgedA)) = 0%nat
  /\ (forall evs w',
        run JSON.parse (worldAfter unacknowledgedA) evs = Some w' ->
        invocations 0 (effects w') = 0%nat).
Proof.
  split; [vm_compute; reflexivity | ].
  split; [vm_compute; reflexivity | ].
  split.
  { eexists. eexists. split.
    - vm_compute. right. right. left. reflexivity.
    - reflexivity. }
  repeat (split; [vm_compute; reflexivity | ]).
  intros evs w' Hrun.
  destruct (dropped_forever JSON.parse 0 evs (worldAfter unacknowledgedA) w')
    as [H _].
  - vm_compute. reflexivity.
  - vm_compute. lia.
  - exact Hrun.
  - rewrite H. vm_compute. reflexivity.
Qed.

(** Nor is "at most once" unconditional.  A response that refuses the key
    of the call and then holds a null item rejects the call, throws, and
    is handled as a transient failure: the rejected call is put back in
    [pending], sent again by the retry, and rejected a second time. *)
Example partial_reconciliation_settles_twice :
  run JSON.parse initial refusedTwice = Some (worldAfter refusedTwice)
  /\ JsMap.keys (pending (after (worldAfter submitA)
                            [BatchResolved 0 (Direct (thenNull (refused "A")))]))
     = ["A"]
  /\ invocations 0
       (effects (after (worldAfter submitA)
                   [BatchResolved 0 (Direct (thenNull (refused "A")))]))
     = 1%nat
  /\ invocations 0 (effects (worldAfter refusedTwice)) = 2%nat.
Proof.
  repeat (split; [vm_compute; reflexivity | ]). vm_compute. reflexivity.
Qed.

(** And a response that refuses the same key twice rejects the request
    twice. *)
Example refused_twice_rejects_twice :
  invocations 0
    (effects (after (worldAfter submitA)
                [BatchResolved 0 (Direct (withCreated [refused "A"; refused "A"]))]))
  = 2%nat.
Proof. vm_compute. reflexivity. Qed.

Lemma settled_at_most_once_witness :
  Forall ackedOnce resolvedA
  /\ run JSON.parse initial resolvedA = Some (worldAfter resolvedA)
  /\ (invocations 0 (effects (worldAfter resolvedA)) <= 1)%nat.
Proof.
  assert (Hack : Forall ackedOnce resolvedA).
  { repeat constructor; simpl; auto. }
  assert (Hrun : run JSON.parse initial resolvedA = Some (worldAfter resolvedA)).
  { vm_compute. reflexivity. }
  split; [exact Hack | split; [exact Hrun | ]].
  exact (proj1 (proj1 (settled_at_most_once JSON.parse)
                  resolvedA (worldAfter resolvedA) Hack Hrun 0%nat)).
Defined.

(** ** C2 *)

Lemma successful_round_rearms_witness :
  validateInitResponse (Direct (withCreated [acknowledged "A"]))
  = inr (Some (withCreated [acknowledged "A"]))
  /\ throws (withCreated [acknowledged "A"]) = false
  /\ timers (processBatch_resolved JSON.parse roundA
               (Direct (withCreated [acknowledged "A"]))
               (set_awaitingBatch [] (worldAfter submitA)))
     = [1000]
  /\ timers (processBatch_resolved JSON.parse roundA
               (Direct (withCreated [refused "A"]))
               (set_awaitingBatch [] (worldAfter submitA)))
     = [].
Proof.
  split; [reflexivity | split; [reflexivity | split]].
  - destruct (successful_round_rearms JSON.parse roundA
                (Direct (withCreated [acknowledged "A"]))
                (withCreated [acknowledged "A"])
                (set_awaitingBatch [] (worldAfter submitA)) eq_refl eq_refl)
      as (_ & _ & _ & _ & Harm & _).
    destruct Harm as [Ht _].
    + right. left. vm_compute. discriminate.
    + rewrite Ht. vm_compute. reflexivity.
  - destruct (successful_round_rearms JSON.parse roundA
                (Direct (withCreated [refused "A"]))
                (withCreated [refused "A"])
                (set_awaitingBatch [] (worldAfter submitA)) eq_refl eq_refl)
      as (_ & _ & _ & _ & _ & Hidle & _).
    destruct Hidle as [Ht _].
    + vm_compute. auto.
    + rewrite Ht. vm_compute. reflexivity.
Defined.

(** ** C3 *)

Lemma parseResult_policy_witness :
  JSON.parse ("{" ++ JSON.q "result" ++ ":42}")%string
  = Some (JObj [("result", JNum 42)])
  /\ parseResult JSON.parse (Some (JStr ("{" ++ JSON.q "result" ++ ":42}")%string))
     = Some (JNum 42)
  /\ JSON.parse "[1,2]" = Some (JArr [JNum 1; JNum 2])
  /\ parseResult JSON.parse (Some (JStr "[1,2]")) = Some (JArr [JNum 1; JNum 2])
  /\ JSON.parse "not json" = None
  /\ parseResult JSON.parse (Some (JStr "not json")) = Some (JStr "not json")
  /\ parseResult JSON.parse
       (Some (JObj [("method", JStr "user.get"); ("result", JNum 7)]))
     = Some (JNum 7)
  /\ parseResult JSON.parse (Some (JObj [("result", JNum 7)]))
     = Some (JObj [("result", JNum 7)]).
Proof.
  destruct (parseResult_policy JSON.parse) as (H1 & H2 & H3 & H4 & H5 & _).
  assert (P1 : JSON.parse ("{" ++ JSON.q "result" ++ ":42}")%string
               = Some (JObj [("result", JNum 42)])) by (vm_compute; reflexivity).
  assert (P2 : JSON.parse "[1,2]" = Some (JArr [JNum 1; JNum 2]))
    by (vm_compute; reflexivity).
  assert (P3 : JSON.parse "not json" = None) by (vm_compute; reflexivity).
  split; [exact P1 | ].
  split; [exact (H1 _ _ (JNum 42) P1 eq_refl) | ].
  split; [exact P2 | ].
  split; [apply (H2 _ _ P2); intros fields Hf; discriminate | ].
  split; [exact P3 | ].
  split; [exact (H3 _ P3) | ].
  split; [exact (H4 [("method", JStr "user.get"); ("result", JNum 7)]
                  (JStr "user.get") (JNum 7) eq_refl eq_refl) | ].
  apply H5.
  - intros s0 Hs. discriminate.
  - intros fields Hf. injection Hf as <-. left. reflexivity.
Defined.

(** ** C4 *)

(** A round that fails while its response is handled is rolled back after
    the items before the failure were applied: the call acknowledged
    before the null item is in [active] and, put back, in [pending] too,
    and [pending.size + active.size] goes from 1 to 2 with no
    submission. *)
Example partial_reconciliation_duplicates_a_request :
  run JSON.parse initial acknowledgedThenNull
  = Some (worldAfter acknowledgedThenNull)
  /\ JsMap.keys (batchToSend roundA) = ["A"]
  /\ JsMap.keys (pending (worldAfter acknowledgedThenNull)) = ["A"]
  /\ JsMap.keys (active (worldAfter acknowledgedThenNull)) = ["A"]
  /\ error (worldAfter acknowledgedThenNull)
     = Some "Cannot read properties of null (reading 'requestKey')"
  /\ timers (worldAfter acknowledgedThenNull) = [1000].
Proof.
  repeat (split; [vm_compute; reflexivity | ]). vm_compute. reflexivity.
Qed.

(** C4 fails as stated for a critical failure: a call is active when a
    round starts, nothing is submitted during the round, the round fails
    with status 500, and [pending.size + active.size] goes from 1 to 0. *)
Lemma critical_failure_loses_the_queues :
  run JSON.parse (worldAfter activeA)
    [TimerFired 0; BatchRejected 0 (httpError 500 None)]
  = Some (worldAfter failed500)
  /\ (JsMap.size (pending (worldAfter activeA))
      + JsMap.size (active (worldAfter activeA)) = 1)%nat
  /\ (JsMap.size (pending (worldAfter failed500))
      + JsMap.size (active (worldAfter failed500)) = 0)%nat.
Proof. vm_compute. repeat split. Qed.

Lemma transient_failure_conserves_requests_witness :
  JsMap.keys (pending (worldAfter rolledBackB)) = ["B"]
  /\ completed (worldAfter rolledBackB) = ["A"]
  /\ NoDup (map submissionKey [submissionC]
            ++ JsMap.keys (pending (worldAfter rolledBackB)))
  /\ failsTransiently (List.length (awaitingBatch (worldAfter rolledBackB)))
       (BatchRejected 0 (httpError 503 None))
  /\ run JSON.parse (processIfNeeded (worldAfter rolledBackB))
       (map submit [submissionC] ++ [BatchRejected 0 (httpError 503 None)])
     = Some (after (processIfNeeded (worldAfter rolledBackB))
               [submit submissionC; BatchRejected 0 (httpError 503 None)])
  /\ pending (after (processIfNeeded (worldAfter rolledBackB))
                [submit submissionC; BatchRejected 0 (httpError 503 None)])
     = submitted (promises (worldAfter rolledBackB)) [submissionC]
       ++ pending (worldAfter rolledBackB)
  /\ (forall k,
        In k (completed (after (processIfNeeded (worldAfter rolledBackB))
                           [submit submissionC;
                            BatchRejected 0 (httpError 503 None)]))
        <-> In k (completed (worldAfter rolledBackB)))
  /\ (JsMap.size (pending (after (processIfNeeded (worldAfter rolledBackB))
                            [submit submissionC;
                             BatchRejected 0 (httpError 503 None)]))
      + JsMap.size (active (after (processIfNeeded (worldAfter rolledBackB))
                              [submit submissionC;
                               BatchRejected 0 (httpError 503 None)]))
      = JsMap.size (pending (worldAfter rolledBackB))
        + JsMap.size (active (worldAfter rolledBackB)) + 1)%nat.
Proof.
  assert (Hp0 : JsMap.keys (pending (worldAfter rolledBackB)) = ["B"])
    by (vm_compute; reflexivity).
  assert (Hc0 : completed (worldAfter rolledBackB) = ["A"])
    by (vm_compute; reflexivity).
  assert (Hb : broken (worldAfter rolledBackB) = false)
    by (vm_compute; reflexivity).
  assert (Hp : processing (worldAfter rolledBackB) = false)
    by (vm_compute; reflexivity).
  assert (Hk : truthy (key (worldAfter rolledBackB)) = true)
    by (vm_compute; reflexivity).
  assert (Hw : hasWork (worldAfter rolledBackB) = true)
    by (vm_compute; reflexivity).
  assert (Hnd : NoDup (map submissionKey [submissionC]
                       ++ JsMap.keys (pending (worldAfter rolledBackB)))).
  { rewrite Hp0. repeat constructor; simpl; intuition discriminate. }
  assert (Hft : failsTransiently
                  (List.length (awaitingBatch (worldAfter rolledBackB)))
                  (BatchRejected 0 (httpError 503 None))).
  { split; [vm_compute; reflexivity | ].
    intros rsp H. injection H as <-. split; discriminate. }
  assert (Hrun : run JSON.parse (processIfNeeded (worldAfter rolledBackB))
                   (map submit [submissionC]
                    ++ [BatchRejected 0 (httpError 503 None)])
                 = Some (after (processIfNeeded (worldAfter rolledBackB))
                           [submit submissionC;
                            BatchRejected 0 (httpError 503 None)])).
  { vm_compute. reflexivity. }
  split; [exact Hp0 | split; [exact Hc0 | ]].
  split; [exact Hnd | split; [exact Hft | split; [exact Hrun | ]]].
  destruct (transient_failure_conserves_requests JSON.parse
              (worldAfter rolledBackB) [submissionC]
              (BatchRejected 0 (httpError 503 None)) _
              Hb Hp Hk Hw Hnd Hft Hrun) as (Hpend & _ & Hcomp & _ & Hsize).
  split; [exact Hpend | split; [exact Hcomp | exact Hsize]].
Defined.

(** ** C5 *)

(** Scenario E: the round of a call fails with status 404 and a message
    in the body; and the same round failing with a timeout. *)
Lemma batch_failure_classification_witness :
  response (httpError 404 (Some "gone"))
  = Some {| status := 404; data_message := Some "gone" |}
  /\ broken (processBatch_rejected roundA (httpError 404 (Some "gone"))
               (set_awaitingBatch [] (worldAfter submitA))) = true
  /\ key (processBatch_rejected roundA (httpError 404 (Some "gone"))
            (set_awaitingBatch [] (worldAfter submitA))) = None
  /\ error (processBatch_rejected roundA (httpError 404 (Some "gone"))
              (set_awaitingBatch [] (worldAfter submitA))) = Some "gone"
  /\ (forall rsp, response timeoutError = Some rsp ->
        status rsp <> 404 /\ status rsp <> 500)
  /\ timers (processBatch_rejected roundA timeoutError
               (set_awaitingBatch [] (worldAfter submitA))) = [1000].
Proof.
  assert (Hno : forall rsp, response timeoutError = Some rsp ->
                  status rsp <> 404 /\ status rsp <> 500).
  { intros rsp H. discriminate H. }
  destruct (batch_failure_classification JSON.parse
              (httpError 404 (Some "gone")) roundA
              (set_awaitingBatch [] (worldAfter submitA))) as [Hcrit _].
  destruct (Hcrit {| status := 404; data_message := Some "gone" |}
              eq_refl (or_introl eq_refl))
    as (Hb & H404 & _).
  destruct (H404 eq_refl) as (Hk & Hmsg & _).
  destruct (batch_failure_classification JSON.parse
              timeoutError roundA
              (set_awaitingBatch [] (worldAfter submitA))) as [_ Htrans].
  destruct (Htrans Hno) as (_ & _ & _ & _ & _ & _ & Ht).
  split; [reflexivity | ].
  split; [exact Hb | ].
  split; [exact Hk | ].
  split; [apply (Hmsg "gone" eq_refl); discriminate | ].
  split; [exact Hno | ].
  rewrite Ht. vm_compute. reflexivity.
Defined.

(** ** C6 *)

(** C6 fails as stated: the round of a first call is in flight when
    [setKey] is called; [resetState] clears [processing], and the next
    call starts a second round beside the first. *)
Lemma setKey_in_flight_allows_a_second_round :
  run JSON.parse initial twoRounds = Some (worldAfter twoRounds)
  /\ List.length (awaitingBatch (worldAfter twoRounds)) = 2%nat
  /\ posts (effects (worldAfter twoRounds)) = 4%nat.
Proof. vm_compute. repeat split. Qed.

Lemma single_flight_witness :
  calm JSON.parse initial resolvedA
  /\ run JSON.parse initial resolvedA = Some (worldAfter resolvedA)
  /\ (List.length (awaitingBatch (worldAfter resolvedA)) <= 1)%nat
  /\ processing (worldAfter submitA) = true
  /\ processIfNeeded (worldAfter submitA) = worldAfter submitA.
Proof.
  assert (Hcalm : calm JSON.parse initial resolvedA).
  { vm_compute. intuition discriminate. }
  assert (Hrun : run JSON.parse initial resolvedA = Some (worldAfter resolvedA)).
  { vm_compute. reflexivity. }
  destruct (single_flight JSON.parse) as (Hskip & _ & _ & _ & Hone).
  split; [exact Hcalm | split; [exact Hrun | split]].
  - exact (proj1 (Hone resolvedA (worldAfter resolvedA) Hcalm Hrun)).
  - split; [vm_compute; reflexivity | ].
    apply Hskip. right. left. vm_compute. reflexivity.
Defined.

(** ** C7 *)

(** C7 fails as stated for an init response: with a poll rate of 3000,
    an [intervalMs] of 0 in the response of the initialization is not
    adopted, and the poll rate stays 3000 where clamping gives 500. *)
Lemma init_interval_zero_is_not_adopted :
  run JSON.parse initial intervalZero = Some (worldAfter intervalZero)
  /\ pollRate (worldAfter intervalZero) = 3000
  /\ clamp 0 = 500.
Proof. vm_compute. repeat split. Qed.

Lemma pollRate_range_and_updates_witness :
  reachable JSON.parse (worldAfter resolvedA)
  /\ 500 <= pollRate (worldAfter resolvedA) <= 10000
  /\ pollRate (fst (handleBatchResponse JSON.parse (withInterval 50000) []
                      (worldAfter connect))) = 10000
  /\ pollRate (initializeConnection_resolved (Direct (withInterval (-5)))
                 (worldAfter connect)) = 1000.
Proof.
  assert (Hr : reachable JSON.parse (worldAfter resolvedA)).
  { exists resolvedA. vm_compute. reflexivity. }
  destruct (pollRate_range_and_updates JSON.parse)
    as (Hrange & Hbatch & _ & Hinit & _ & _ & H50000).
  split; [exact Hr | split; [exact (Hrange _ Hr) | split]].
  - rewrite (Hbatch (withInterval 50000) [] (worldAfter connect) 50000 eq_refl).
    exact H50000.
  - rewrite (Hinit (Direct (withInterval (-5))) (withInterval (-5))
               (worldAfter connect) (-5) eq_refl eq_refl).
    vm_compute. reflexivity.
Defined.

(** ** C8 *)

(** C8 fails as stated: the round of a call is in flight when [setKey] is
    called with another key.  The call is outstanding, held in the
    snapshot of the round and in neither map; [setKey] does not reject it
    and leaves the round in flight, and when the response of the round
    acknowledges the call, it is active under the new key, still
    unsettled. *)
Lemma setKey_spares_the_round_in_flight :
  awaitingBatch (worldAfter submitA) = [roundA]
  /\ JsMap.keys (batchToSend roundA) = ["A"]
  /\ run JSON.parse initial rekeyed = Some (worldAfter rekeyed)
  /\ worldAfter rekeyed = setKey (Some "def") (worldAfter submitA)
  /\ awaitingBatch (worldAfter rekeyed) = [roundA]
  /\ invocations 0 (effects (worldAfter rekeyed)) = 0%nat
  /\ key (worldAfter rekeyed) = Some "def"
  /\ run JSON.parse initial carriedOver = Some (worldAfter carriedOver)
  /\ key (worldAfter carriedOver) = Some "def"
  /\ JsMap.keys (active (worldAfter carriedOver)) = ["A"]
  /\ invocations 0 (effects (worldAfter carriedOver)) = 0%nat.
Proof.
  repeat (split; [vm_compute; reflexivity | ]). vm_compute. reflexivity.
Qed.

Lemma setKey_contract_witness :
  allWhiteSpace (or_else (Some "   ") EmptyString) = true
  /\ key (setKey (Some "   ") (worldAfter activeA)) = None
  /\ allWhiteSpace (or_else (Some " abc ") EmptyString) = false
  /\ key (setKey (Some " abc ") (worldAfter activeA)) = Some "abc"
  /\ broken (setKey (Some " abc ") (worldAfter failed500)) = false
  /\ error (setKey (Some " abc ") (worldAfter failed500)) = None
  /\ invocations 0 (effects (setKey (Some " abc ") (worldAfter activeA)))
     = (invocations 0 (effects (worldAfter activeA))
        + (queued 0 (pending (worldAfter activeA))
           + queued 0 (active (worldAfter activeA))))%nat
  /\ queued 0 (active (worldAfter activeA)) = 1%nat
  /\ awaitingBatch (setKey (Some "def") (worldAfter submitA))
     = awaitingBatch (worldAfter submitA)
  /\ invocations 0 (effects (setKey (Some "def") (worldAfter submitA)))
     = (invocations 0 (effects (worldAfter submitA))
        + (queued 0 (pending (worldAfter submitA))
           + queued 0 (active (worldAfter submitA))))%nat.
Proof.
  destruct (setKey_contract (Some "   ") (worldAfter activeA))
    as (_ & _ & _ & Hnull & _).
  destruct (setKey_contract (Some " abc ") (worldAfter activeA))
    as (_ & _ & _ & _ & Hkey & _ & _ & _ & _ & _ & _ & _ & _ & _ & Hrej).
  destruct (setKey_contract (Some " abc ") (worldAfter failed500))
    as (_ & _ & _ & _ & _ & Hb & He & _).
  destruct (setKey_contract (Some "def") (worldAfter submitA))
    as (_ & _ & _ & _ & _ & _ & _ & _ & _ & _ & _ & _ & _ & Hflight & Hkept).
  split; [reflexivity | ].
  split; [exact (Hnull eq_refl) | ].
  split; [reflexivity | ].
  split; [rewrite (Hkey eq_refl); vm_compute; reflexivity | ].
  split; [exact Hb | split; [exact He | ]].
  split; [exact (Hrej 0%nat) | ].
  split; [vm_compute; reflexivity | ].
  split; [exact Hflight | exact (Hkept 0%nat)].
Defined.

(** ** C9 *)

(** C9 fails as stated: the round of a call is rejected with an error
    whose message is the empty string.  The last error is then the empty
    string, which is not null, and [isConnected] is true all the same. *)
Lemma empty_error_counts_as_connected :
  run JSON.parse initial emptyMessage = Some (worldAfter emptyMessage)
  /\ error (worldAfter emptyMessage) = Some EmptyString
  /\ error (worldAfter emptyMessage) <> None
  /\ broken (worldAfter emptyMessage) = false
  /\ key (worldAfter emptyMessage) = Some "abc"
  /\ isConnected (worldAfter emptyMessage) = true
  /\ st_connected (getState (worldAfter emptyMessage)) = true.
Proof.
  split; [vm_compute; reflexivity | ].
  split; [vm_compute; reflexivity | ].
  split; [vm_compute; discriminate | ].
  split; [vm_compute; reflexivity | ].
  split; [vm_compute; reflexivity | ].
  split; vm_compute; reflexivity.
Qed.

Lemma isConnected_and_connected_witness :
  reachable JSON.parse (worldAfter timedOut)
  /\ error (worldAfter timedOut) = Some "timeout of 2000ms exceeded"
  /\ broken (worldAfter timedOut) = false
  /\ key (worldAfter timedOut) <> None
  /\ isConnected (worldAfter timedOut) = false
  /\ st_connected (getState (worldAfter timedOut)) = true.
Proof.
  assert (Hr : reachable JSON.parse (worldAfter timedOut)).
  { exists timedOut. vm_compute. reflexivity. }
  assert (He : error (worldAfter timedOut) = Some "timeout of 2000ms exceeded")
    by (vm_compute; reflexivity).
  assert (Hm : "timeout of 2000ms exceeded" <> EmptyString) by discriminate.
  assert (Hb : broken (worldAfter timedOut) = false) by (vm_compute; reflexivity).
  assert (Hk : key (worldAfter timedOut) <> None) by (vm_compute; discriminate).
  destruct (proj1 (isConnected_and_connected JSON.parse) (worldAfter timedOut) Hr)
    as (_ & _ & Hboth).
  destruct (Hboth "timeout of 2000ms exceeded" He Hm Hb Hk) as [H1 H2].
  repeat (split; [assumption | ]). assumption.
Defined.

(** ** C10 *)

Lemma transient_failure_keeps_active_witness :
  (forall rsp, response (httpError 503 None) = Some rsp ->
     status rsp <> 404 /\ status rsp <> 500)
  /\ active (processBatch_rejected
               {| batchToSend := []; completedSnapshot := [] |}
               (httpError 503 None)
               (set_awaitingBatch [] (after (worldAfter activeA) [TimerFired 0])))
     = active (worldAfter activeA)
  /\ invocations 0
       (effects (processBatch_rejected
                   {| batchToSend := []; completedSnapshot := [] |}
                   (httpError 503 None)
                   (set_awaitingBatch []
                      (after (worldAfter activeA) [TimerFired 0]))))
     = 0%nat.
Proof.
  assert (Hno : forall rsp, response (httpError 503 None) = Some rsp ->
                  status rsp <> 404 /\ status rsp <> 500).
  { intros rsp H. injection H as <-. simpl. split; discriminate. }
  destruct (transient_failure_keeps_active
              (httpError 503 None)
              {| batchToSend := []; completedSnapshot := [] |}
              (set_awaitingBatch [] (after (worldAfter activeA) [TimerFired 0]))
              Hno) as (Ha & _ & _ & Hinv & _).
  split; [exact Hno | split].
  - rewrite Ha. vm_compute. reflexivity.
  - rewrite (Hinv 0%nat). vm_compute. reflexivity.
Defined.

(** ** The other copy *)

(** The other copy of the class does not unwrap a decoded object, and
    does not re-arm the timer when only [completed] is left: the keys of
    [completed] then wait for the next call to be sent. *)
Example other_copy_differs :
  OtherCopy.parseResult JSON.parse
    (Some (JStr ("{" ++ JSON.q "result" ++ ":42}")%string))
  = Some (JObj [("result", JNum 42)])
  /\ completed (OtherCopy.processBatch_resolved JSON.parse
                  {| batchToSend := []; completedSnapshot := [] |}
                  (Direct (withResults [done42 "A"]))
                  (set_awaitingBatch [] (after (worldAfter activeA) [TimerFired 0])))
     = ["A"]
  /\ timers (OtherCopy.processBatch_resolved JSON.parse
               {| batchToSend := []; completedSnapshot := [] |}
               (Direct (withResults [done42 "A"]))
               (set_awaitingBatch [] (after (worldAfter activeA) [TimerFired 0])))
     = [].
Proof. vm_compute. repeat split. Qed.

(** * Further properties *)

(** ** More facts about the containers *)

Lemma JsMap_get_In {V : Type} k (m : JsMap.t V) v :
  JsMap.get k m = Some v -> In (k, v) m.
Proof.
  induction m as [ | [k' v'] m IH]; simpl; [discriminate | ].
  destruct (String.eqb_spec k k') as [Heq | Hne].
  - intros [= <-]. left. rewrite Heq. reflexivity.
  - intros H. right. apply IH, H.
Qed.

Lemma JsMap_get_notin {V : Type} k (m : JsMap.t V) :
  ~ In k (JsMap.keys m) -> JsMap.get k m = None.
Proof.
  induction m as [ | [k' v'] m IH]; simpl; [reflexivity | ].
  intros H. destruct (String.eqb_spec k k') as [Heq | Hne].
  - exfalso. apply H. left. symmetry. exact Heq.
  - apply IH. intros Hin. apply H. right. exact Hin.
Qed.

Lemma JsMap_set_In {V : Type} k v k' v' (m : JsMap.t V) :
  In (k', v') (JsMap.set k v m) -> (k' = k /\ v' = v) \/ In (k', v') m.
Proof.
  induction m as [ | [k0 v0] m IH]; simpl.
  - intros [[= <- <-] | []]. left. split; reflexivity.
  - destruct (String.eqb_spec k k0) as [Heq | Hne]; simpl.
    + intros [[= <- <-] | H]; [left; split; auto | right; right; exact H].
    + intros [H | H]; [right; left; exact H | ].
      destruct (IH H) as [H1 | H1]; [left; exact H1 | right; right; exact H1].
Qed.

Lemma JsMap_keys_set {V : Type} k v (m : JsMap.t V) :
  JsMap.keys (JsMap.set k v m) = JsMap.keys m
  \/ (~ In k (JsMap.keys m)
      /\ JsMap.keys (JsMap.set k v m) = JsMap.keys m ++ [k]).
Proof.
  induction m as [ | [k0 v0] m IH]; simpl.
  - right. split; [tauto | reflexivity].
  - destruct (String.eqb_spec k k0) as [Heq | Hne]; simpl.
    + left. reflexivity.
    + destruct IH as [IH | [Hn IH]].
      * left. f_equal. exact IH.
      * right. split.
        -- intros [H | H]; [apply Hne; symmetry; exact H | exact (Hn H)].
        -- f_equal. exact IH.
Qed.

Lemma NoDup_snoc {A : Type} (l : list A) x :
  NoDup l -> ~ In x l -> NoDup (l ++ [x]).
Proof.
  intros Hnd Hx. induction Hnd as [ | y l Hy Hnd IH]; simpl.
  - constructor; [tauto | constructor].
  - constructor.
    + rewrite in_app_iff. simpl. intros [H | [H | []]]; [exact (Hy H) | ].
      apply Hx. left. symmetry. exact H.
    + apply IH. intros H. apply Hx. right. exact H.
Qed.

Lemma JsMap_set_NoDup {V : Type} k v (m : JsMap.t V) :
  NoDup (JsMap.keys m) -> NoDup (JsMap.keys (JsMap.set k v m)).
Proof.
  intros Hnd. destruct (JsMap_keys_set k v m) as [-> | [Hn ->]].
  - exact Hnd.
  - apply NoDup_snoc; assumption.
Qed.

Lemma JsMap_delete_In {V : Type} k (m : JsMap.t V) x :
  In x (JsMap.delete k m) -> In x m.
Proof.
  induction m as [ | [k0 v0] m IH]; simpl; [tauto | ].
  destruct (String.eqb k k0); simpl; [tauto | ].
  intros [H | H]; [left; exact H | right; exact (IH H)].
Qed.

Lemma JsMap_delete_keys_In {V : Type} k (m : JsMap.t V) x :
  In x (JsMap.keys (JsMap.delete k m)) -> In x (JsMap.keys m).
Proof.
  induction m as [ | [k0 v0] m IH]; simpl; [tauto | ].
  destruct (String.eqb k k0); simpl; [tauto | ].
  intros [H | H]; [left; exact H | right; exact (IH H)].
Qed.

Lemma JsMap_delete_NoDup {V : Type} k (m : JsMap.t V) :
  NoDup (JsMap.keys m) -> NoDup (JsMap.keys (JsMap.delete k m)).
Proof.
  induction m as [ | [k0 v0] m IH]; simpl; intros Hnd; [constructor | ].
  inversion Hnd as [ | ? ? Hk Hnd']; subst.
  destruct (String.eqb k k0); simpl; [exact Hnd' | ].
  constructor; [ | exact (IH Hnd')].
  intros H. apply Hk. exact (JsMap_delete_keys_In k m k0 H).
Qed.

Lemma JsMap_get_delete_eq {V : Type} k (m : JsMap.t V) :
  NoDup (JsMap.keys m) -> JsMap.get k (JsMap.delete k m) = None.
Proof.
  induction m as [ | [k0 v0] m IH]; simpl; intros Hnd; [reflexivity | ].
  inversion Hnd as [ | ? ? Hk Hnd']; subst.
  destruct (String.eqb_spec k k0) as [Heq | Hne].
  - apply JsMap_get_notin. rewrite Heq. exact Hk.
  - simpl. destruct (String.eqb_spec k k0); [contradiction | exact (IH Hnd')].
Qed.

Lemma JsSet_add_NoDup k s : NoDup s -> NoDup (JsSet.add k s).
Proof.
  intros Hnd. unfold JsSet.add. destruct (JsSet.has k s) eqn:Hh; [exact Hnd | ].
  apply NoDup_snoc; [exact Hnd | ].
  intros Hin. apply JsSet_has_In in Hin. congruence.
Qed.

Lemma wellKeyed_empty : wellKeyed [].
Proof. split; [constructor | intros k req []]. Qed.

Lemma wellKeyed_set k req m :
  wellKeyed m -> requestKey req = k -> wellKeyed (JsMap.set k req m).
Proof.
  intros [Hnd Hk] Hreq. split.
  - apply JsMap_set_NoDup. exact Hnd.
  - intros k' req' Hin. destruct (JsMap_set_In _ _ _ _ _ Hin) as [[-> ->] | H].
    + exact Hreq.
    + exact (Hk k' req' H).
Qed.

Lemma wellKeyed_delete k m : wellKeyed m -> wellKeyed (JsMap.delete k m).
Proof.
  intros [Hnd Hk]. split.
  - apply JsMap_delete_NoDup. exact Hnd.
  - intros k' req' Hin. apply Hk. exact (JsMap_delete_In k m _ Hin).
Qed.

Lemma wellKeyed_get k req m :
  wellKeyed m -> JsMap.get k m = Some req -> requestKey req = k.
Proof. intros [_ Hk] Hg. apply Hk. exact (JsMap_get_In k m req Hg). Qed.

Lemma wellKeyed_restorePending batch pend :
  wellKeyed batch -> wellKeyed pend -> wellKeyed (restorePending batch pend).
Proof.
  unfold restorePending. revert pend.
  induction batch as [ | [k v] batch IH]; intros pend Hb Hp; simpl.
  - exact Hp.
  - destruct Hb as [Hnd Hk]. simpl in Hnd.
    inversion Hnd as [ | ? ? Hnk Hnd']; subst.
    apply IH.
    + split; [exact Hnd' | ]. intros k' req' Hin. apply Hk. right. exact Hin.
    + apply wellKeyed_set; [exact Hp | ]. apply Hk. left. reflexivity.
Qed.

Lemma restoreCompleted_NoDup snapshot done :
  NoDup done -> NoDup (restoreCompleted snapshot done).
Proof.
  unfold restoreCompleted. revert done.
  induction snapshot as [ | k snapshot IH]; intros done Hnd; simpl.
  - exact Hnd.
  - apply IH. apply JsSet_add_NoDup. exact Hnd.
Qed.

Lemma Forall_remove_nth {A : Type} (P : A -> Prop) i (l : list A) :
  Forall P l -> Forall P (remove_nth i l).
Proof.
  revert i. induction l as [ | x l IH]; intros i H; simpl.
  - destruct i; constructor.
  - inversion H as [ | ? ? Hx Hl]; subst.
    destruct i as [ | i]; [exact Hl | constructor; [exact Hx | exact (IH i Hl)]].
Qed.

Lemma Forall_nth_error {A : Type} (P : A -> Prop) i (l : list A) x :
  Forall P l -> nth_error l i = Some x -> P x.
Proof.
  revert i. induction l as [ | y l IH]; intros i H Hn.
  - destruct i; discriminate.
  - inversion H as [ | ? ? Hy Hl]; subst.
    destruct i as [ | i]; simpl in Hn; [injection Hn as <-; exact Hy | ].
    exact (IH i Hl Hn).
Qed.

Lemma trimEnd_idempotent s : trimEnd (trimEnd s) = trimEnd s.
Proof.
  induction s as [ | c s IH]; simpl; [reflexivity | ].
  destruct (trimEnd s) as [ | c' t] eqn:Ht.
  - destruct (isWhiteSpace c) eqn:Hc; simpl; [reflexivity | ].
    rewrite Hc. reflexivity.
  - change (trimEnd (String c (String c' t))) with
      (match trimEnd (String c' t) with
       | EmptyString =>
           if isWhiteSpace c then EmptyString else String c EmptyString
       | String a b => String c (String a b)
       end).
    rewrite IH. reflexivity.
Qed.

Lemma trimStart_fixed s :
  (forall c t, s = String c t -> isWhiteSpace c = false) -> trimStart s = s.
Proof.
  destruct s as [ | c t]; simpl; [reflexivity | ].
  intros H. rewrite (H c t eq_refl). reflexivity.
Qed.

Lemma trim_idempotent s : trim (trim s) = trim s.
Proof.
  unfold trim.
  rewrite (trimStart_fixed (trimEnd (trimStart s))).
  - apply trimEnd_idempotent.
  - intros c t H. destruct (trimEnd_head _ _ _ H) as (t' & Ht').
    exact (trimStart_head s c t' Ht').
Qed.

Lemma fallbacks_app es1 es2 :
  fallbacks (es1 ++ es2) = (fallbacks es1 + fallbacks es2)%nat.
Proof.
  induction es1 as [ | e es1 IH]; simpl; [reflexivity | ].
  destruct e; simpl; rewrite IH; reflexivity.
Qed.

Lemma internal_counts new :
  Forall internalEffect new -> posts new = 0%nat /\ fallbacks new = 0%nat.
Proof.
  induction 1 as [ | e new He Hnew [IH1 IH2]]; simpl; [auto | ].
  destruct e; simpl in *; try contradiction; auto.
Qed.

Ltac seal t := let x := fresh "wx" in set (x := t) in *; clearbody x.

Ltac break_match :=
  match goal with
  | |- context [match ?x with _ => _ end] => destruct x eqn:?
  | |- context [if ?x then _ else _] => destruct x eqn:?
  end.

Section Further.

Variable JSON_parse : string -> option Json.

Set Default Proof Using "Type".

Abbreviation parseResult := (parseResult JSON_parse).
Abbreviation handleResult := (handleResult JSON_parse).
Abbreviation handleBatchResponse := (handleBatchResponse JSON_parse).
Abbreviation applied := (applied JSON_parse).
Abbreviation processBatch_resolved := (processBatch_resolved JSON_parse).
Abbreviation step := (step JSON_parse).
Abbreviation run := (run JSON_parse).
Abbreviation reachable := (reachable JSON_parse).

(** ** The queues are maps *)

Lemma fold_left_inv {A : Type} (P : World -> Prop) (f : World -> A -> World) :
  (forall w a, P w -> P (f w a)) ->
  forall l w, P w -> P (fold_left f l w).
Proof.
  intros Hf. induction l as [ | a l IH]; intros w Hw; simpl.
  - exact Hw.
  - apply IH, Hf, Hw.
Qed.

Lemma handleResult_wellFormed res w :
  wellKeyed (active w) /\ NoDup (completed w) ->
  wellKeyed (active (handleResult res w))
  /\ NoDup (completed (handleResult res w)).
Proof.
  intros [Ha Hc]. unfold handleResult.
  destruct (JsMap.get (ServerResult.requestKey res) (active w)); [ | auto].
  destruct (ServerResult.status res); [ | auto].
  destruct (ServerResult.isError res) as [[ | ] | ]; simpl;
    (split; [apply wellKeyed_delete; exact Ha | apply JsSet_add_NoDup; exact Hc]).
Qed.

Lemma handleCreated_wellFormed batch item w :
  wellKeyed batch ->
  wellKeyed (active w) /\ NoDup (completed w) ->
  wellKeyed (active (handleCreated batch item w))
  /\ NoDup (completed (handleCreated batch item w)).
Proof.
  intros Hb [Ha Hc]. unfold handleCreated.
  destruct (JsMap.get (Created.requestKey item) batch) as [req | ] eqn:Hg; [ | auto].
  destruct (String.eqb (Created.status item) "pending"); simpl; [ | auto].
  split; [ | exact Hc].
  apply wellKeyed_set; [exact Ha | ]. exact (wellKeyed_get _ _ _ Hb Hg).
Qed.

Lemma applied_wellFormed data batch w :
  wellKeyed batch ->
  wellKeyed (active w) /\ NoDup (completed w) ->
  wellKeyed (active (applied data batch w))
  /\ NoDup (completed (applied data batch w)).
Proof.
  intros Hb Hw. unfold applied.
  set (w1 := match intervalMs data with
             | Some n => set_pollRate (clamp n) w | None => w end).
  assert (H1 : wellKeyed (active w1) /\ NoDup (completed w1)).
  { subst w1. destruct (intervalMs data); exact Hw. }
  set (w2 := fold_left (fun w res => handleResult res w) (resultsOf data) w1).
  assert (H2 : wellKeyed (active w2) /\ NoDup (completed w2)).
  { subst w2.
    apply (fold_left_inv (fun w => wellKeyed (active w) /\ NoDup (completed w)));
      [ | exact H1].
    intros w0 res H. apply handleResult_wellFormed. exact H. }
  apply (fold_left_inv (fun w => wellKeyed (active w) /\ NoDup (completed w)));
    [ | exact H2].
  intros w0 item H. apply handleCreated_wellFormed; assumption.
Qed.

Lemma handleBatchError_wellFormed e r w :
  roundWellFormed r ->
  wellKeyed (pending w) /\ wellKeyed (active w) /\ NoDup (completed w) ->
  let w' := handleBatchError e r w in
  wellKeyed (pending w') /\ wellKeyed (active w') /\ NoDup (completed w').
Proof.
  intros [Hb Hs] (Hp & Ha & Hc).
  destruct (isCritical e) eqn:Hcrit.
  - rewrite (handleBatchError_critical e r w Hcrit), resetState_eq. simpl.
    repeat split; try constructor; intros k req [].
  - rewrite (handleBatchError_transient e r w Hcrit). simpl.
    split; [apply wellKeyed_restorePending; assumption | ].
    split; [exact Ha | apply restoreCompleted_NoDup; exact Hc].
Qed.

Lemma processIfNeeded_wellFormed w :
  queuesWellFormed w -> queuesWellFormed (processIfNeeded w).
Proof.
  intros (Hp & Ha & Hc & Hr).
  destruct (processIfNeeded_cases w) as [-> | (payload & ->)].
  - split; [exact Hp | split; [exact Ha | split; [exact Hc | exact Hr]]].
  - unfold queuesWellFormed. simpl.
    split; [apply wellKeyed_empty | ].
    split; [exact Ha | ].
    split; [constructor | ].
    apply Forall_app. split; [exact Hr | ].
    constructor; [ | constructor]. split; assumption.
Qed.

Lemma step_wellFormed w ev w' :
  step w ev = Some w' -> queuesWellFormed w -> queuesWellFormed w'.
Proof.
  intros Hstep Hw. pose proof Hw as (Hp & Ha & Hc & Hr).
  destruct ev; simpl in Hstep.
  - injection Hstep as <-. unfold queuesWellFormed.
    unfold setKey, initializeConnection, setKey_catch. rewrite resetState_eq.
    simpl. destruct (trim (or_else k EmptyString)); simpl;
      (split; [apply wellKeyed_empty | ]);
      (split; [apply wellKeyed_empty | ]);
      (split; [constructor | exact Hr]).
  - destruct (awaitingInit w) as [ | n]; [discriminate | ]. injection Hstep as <-.
    unfold queuesWellFormed, initializeConnection_resolved,
      initializeConnection_catch, setKey_catch.
    repeat break_match; simpl;
      (split; [exact Hp | split; [exact Ha | split; [exact Hc | exact Hr]]]).
  - destruct (awaitingInit w) as [ | n]; [discriminate | ]. injection Hstep as <-.
    unfold queuesWellFormed, initializeConnection_rejected,
      initializeConnection_catch, setKey_catch.
    repeat break_match; simpl;
      (split; [exact Hp | split; [exact Ha | split; [exact Hc | exact Hr]]]).
  - injection Hstep as <-. unfold executeOrFallback.
    destruct (broken w || negb (truthy (key w))); [exact Hw | ].
    apply processIfNeeded_wellFormed. unfold queuesWellFormed. simpl.
    split; [apply wellKeyed_set; [exact Hp | reflexivity] | ].
    split; [exact Ha | split; [exact Hc | exact Hr]].
  - destruct (nth_error (awaitingBatch w) i) as [r | ] eqn:Hn; [ | discriminate].
    injection Hstep as <-.
    pose proof (Forall_nth_error _ _ _ _ Hr Hn) as Hround.
    pose proof (Forall_remove_nth roundWellFormed i _ Hr) as Hrest.
    unfold processBatch_resolved.
    set (w0 := set_awaitingBatch (remove_nth i (awaitingBatch w)) w).
    assert (Hq0 : wellKeyed (pending w0) /\ wellKeyed (active w0)
                  /\ NoDup (completed w0))
      by (split; [exact Hp | split; [exact Ha | exact Hc]]).
    assert (Hab0 : awaitingBatch w0 = remove_nth i (awaitingBatch w)) by reflexivity.
    clearbody w0.
    destruct (validateInitResponse body) as [err | [d | ]].
    + pose proof (handleBatchError_wellFormed err r w0 Hround Hq0) as Hq.
      destruct (handleBatchError_frame err r w0) as (_ & _ & Hab & _).
      seal (handleBatchError err r w0). cbv zeta in Hq.
      unfold queuesWellFormed. simpl. rewrite Hab, Hab0.
      destruct Hq as (H1 & H2 & H3).
      split; [exact H1 | split; [exact H2 | split; [exact H3 | exact Hrest]]].
    + destruct Hq0 as (Hp0 & Ha0 & Hc0).
      pose proof (applied_wellFormed d (batchToSend r) w0
                    (proj1 Hround) (conj Ha0 Hc0)) as [H2 H3].
      destruct (applied_frame JSON_parse d (batchToSend r) w0)
        as (_ & _ & _ & _ & _ & Hab & _ & _ & Hpe & _).
      rewrite handleBatchResponse_eq.
      seal (applied d (batchToSend r) w0).
      destruct (throws d).
      * assert (Hqx : wellKeyed (pending wx) /\ wellKeyed (active wx)
                      /\ NoDup (completed wx))
          by (rewrite Hpe; split; [exact Hp0 | split; [exact H2 | exact H3]]).
        pose proof (handleBatchError_wellFormed nullItem r wx Hround Hqx) as Hq.
        destruct (handleBatchError_frame nullItem r wx) as (_ & _ & Hab' & _).
        seal (handleBatchError nullItem r wx). cbv zeta in Hq.
        unfold queuesWellFormed. simpl. rewrite Hab', Hab, Hab0.
        destruct Hq as (H1' & H2' & H3').
        split; [exact H1' | split; [exact H2' | split; [exact H3' | exact Hrest]]].
      * unfold queuesWellFormed.
        destruct (hasWork (notifyStateChange wx)); simpl; rewrite Hab, Hab0, Hpe;
          (split; [exact Hp0 | split; [exact H2 | split; [exact H3 | exact Hrest]]]).
    + pose proof (handleBatchError_wellFormed
                    (Error "Invalid batch response") r w0 Hround Hq0) as Hq.
      destruct (handleBatchError_frame (Error "Invalid batch response") r w0)
        as (_ & _ & Hab & _).
      seal (handleBatchError (Error "Invalid batch response") r w0).
      cbv zeta in Hq.
      unfold queuesWellFormed. simpl. rewrite Hab, Hab0.
      destruct Hq as (H1 & H2 & H3).
      split; [exact H1 | split; [exact H2 | split; [exact H3 | exact Hrest]]].
  - destruct (nth_error (awaitingBatch w) i) as [r | ] eqn:Hn; [ | discriminate].
    injection Hstep as <-.
    pose proof (Forall_nth_error _ _ _ _ Hr Hn) as Hround.
    pose proof (Forall_remove_nth roundWellFormed i _ Hr) as Hrest.
    unfold processBatch_rejected.
    set (w0 := set_awaitingBatch (remove_nth i (awaitingBatch w)) w).
    assert (Hq0 : wellKeyed (pending w0) /\ wellKeyed (active w0)
                  /\ NoDup (completed w0))
      by (split; [exact Hp | split; [exact Ha | exact Hc]]).
    assert (Hab0 : awaitingBatch w0 = remove_nth i (awaitingBatch w)) by reflexivity.
    clearbody w0.
    pose proof (handleBatchError_wellFormed e r w0 Hround Hq0) as Hq.
    destruct (handleBatchError_frame e r w0) as (_ & _ & Hab & _).
    seal (handleBatchError e r w0). cbv zeta in Hq.
    unfold queuesWellFormed. simpl. rewrite Hab, Hab0.
    destruct Hq as (H1 & H2 & H3).
    split; [exact H1 | split; [exact H2 | split; [exact H3 | exact Hrest]]].
  - destruct (nth_error (timers w) i); [ | discriminate].
    injection Hstep as <-. apply processIfNeeded_wellFormed. exact Hw.
Qed.

(** X1. In every reachable state the three queues and the snapshots of the
    rounds in flight are maps and sets: [pending], [active] and every
    snapshot hold no key twice and hold every request under its own
    [requestKey]; [completed] holds no key twice. *)
Theorem queues_are_maps :
  forall w, reachable w -> queuesWellFormed w.
Proof.
  apply reachable_invariant.
  - unfold queuesWellFormed. simpl.
    repeat split; try constructor; intros k req [].
  - intros w ev w' Hinv Hstep. exact (step_wellFormed w ev w' Hstep Hinv).
Qed.

(** ** Reconciling a response *)

Lemma handleCreated_lookup batch item w k :
  JsMap.get k (active (handleCreated batch item w))
  = if acknowledges k item
    then match JsMap.get k batch with
         | Some req => Some req
         | None => JsMap.get k (active w)
         end
    else JsMap.get k (active w).
Proof.
  unfold handleCreated, acknowledges.
  destruct (String.eqb_spec (Created.requestKey item) k) as [Heq | Hne]; simpl.
  - rewrite Heq.
    destruct (JsMap.get k batch) as [req | ];
      destruct (String.eqb (Created.status item) "pending"); simpl;
      try reflexivity.
    apply JsMap_get_set_eq.
  - destruct (JsMap.get (Created.requestKey item) batch) as [req | ];
      [ | reflexivity].
    destruct (String.eqb (Created.status item) "pending"); simpl;
      [ | reflexivity].
    apply JsMap_get_set_ne. exact Hne.
Qed.

Lemma handleCreateds_lookup batch cs : forall w k,
  JsMap.get k (active (fold_left (fun w item => handleCreated batch item w) cs w))
  = match promoted batch cs k with
    | Some req => Some req
    | None => JsMap.get k (active w)
    end.
Proof.
  unfold promoted.
  induction cs as [ | item cs IH]; intros w k; simpl.
  - reflexivity.
  - rewrite IH, handleCreated_lookup.
    destruct (acknowledges k item), (existsb (acknowledges k) cs),
      (JsMap.get k batch); reflexivity.
Qed.

Lemma handleCreateds_rejects batch cs : forall w item req,
  In item cs ->
  String.eqb (Created.status item) "pending" = false ->
  JsMap.get (Created.requestKey item) batch = Some req ->
  In (Reject (promise req) "Failed to enqueue request")
    (effects (fold_left (fun w item => handleCreated batch item w) cs w)).
Proof.
  assert (Hkeep : forall cs w e, In e (effects w) ->
            In e (effects (fold_left (fun w item => handleCreated batch item w) cs w))).
  { induction cs0 as [ | item cs0 IH]; intros w e He; simpl; [exact He | ].
    apply IH. unfold handleCreated. repeat break_match; simpl; auto. }
  induction cs as [ | item0 cs IH]; intros w item req Hin Hst Hg; simpl.
  - destruct Hin.
  - destruct Hin as [-> | Hin].
    + apply Hkeep. unfold handleCreated. rewrite Hg, Hst. left. reflexivity.
    + apply (IH _ item req Hin Hst Hg).
Qed.

Lemma handleCreateds_rejects_only batch cs : forall w p,
  In (Reject p "Failed to enqueue request")
    (effects (fold_left (fun w item => handleCreated batch item w) cs w)) ->
  In (Reject p "Failed to enqueue request") (effects w)
  \/ exists item req,
       In item cs
       /\ String.eqb (Created.status item) "pending" = false
       /\ JsMap.get (Created.requestKey item) batch = Some req
       /\ promise req = p.
Proof.
  induction cs as [ | item0 cs IH]; intros w p H; simpl in H.
  - left. exact H.
  - destruct (IH _ p H) as [H1 | (item & req & Hin & Hst & Hg & Hp)].
    + unfold handleCreated in H1.
      destruct (JsMap.get (Created.requestKey item0) batch) as [req | ] eqn:Hg;
        [ | left; exact H1].
      destruct (String.eqb (Created.status item0) "pending") eqn:Hst;
        [left; exact H1 | ].
      destruct H1 as [[= <-] | H1]; [ | left; exact H1].
      right. exists item0, req. repeat split; auto. left. reflexivity.
    + right. exists item, req. repeat split; auto. right. exact Hin.
Qed.

Lemma handleCreateds_ignores batch cs : forall w,
  (forall item, In item cs -> JsMap.get (Created.requestKey item) batch = None) ->
  fold_left (fun w item => handleCreated batch item w) cs w = w.
Proof.
  induction cs as [ | item cs IH]; intros w Hnone; simpl; [reflexivity | ].
  unfold handleCreated at 2. rewrite (Hnone item (or_introl eq_refl)).
  apply IH. intros item0 Hin. apply Hnone. right. exact Hin.
Qed.

(** X2. What the [created] list of a response does.  After
    [handleBatchResponse] the [active] map holds, under every key that the
    list acknowledges as pending and that the snapshot of the round
    holds, the request of the snapshot; under any other key it holds what
    the results left there.  A request of the snapshot whose key the list
    reports with another status is rejected with Failed to enqueue
    request, and nothing else is rejected with that reason.  Keys
    that are not in the snapshot are ignored, and [pending] is not
    touched.  The list is the one of the response when no item is null,
    and otherwise the items that are handled before [handleBatchResponse]
    throws. *)
Theorem created_acknowledgments :
  forall data batch w,
    let cs := createdOf data in
    let w' := fst (handleBatchResponse data batch w) in
    let before :=
      fst (handleBatchResponse
             {| intervalMs := intervalMs data; results := results data;
                created := None; cleanupCount := cleanupCount data |} batch w) in
    (forall typed, created data = Some (map Some typed) ->
       resultsThrow data = false -> cs = typed)
    /\ (forall k,
          JsMap.get k (active w')
          = match promoted batch cs k with
            | Some req => Some req
            | None => JsMap.get k (active before)
            end)
    /\ (forall item req,
          In item cs ->
          String.eqb (Created.status item) "pending" = false ->
          JsMap.get (Created.requestKey item) batch = Some req ->
          In (Reject (promise req) "Failed to enqueue request") (effects w'))
    /\ (forall p,
          In (Reject p "Failed to enqueue request") (effects w') ->
          In (Reject p "Failed to enqueue request") (effects before)
          \/ exists item req,
               In item cs
               /\ String.eqb (Created.status item) "pending" = false
               /\ JsMap.get (Created.requestKey item) batch = Some req
               /\ promise req = p)
    /\ ((forall item, In item cs ->
           JsMap.get (Created.requestKey item) batch = None) ->
        active w' = active before)
    /\ pending w' = pending w.
Proof.
  intros data batch w cs w' before.
  split.
  { intros typed Hc Hr. subst cs. unfold createdOf. rewrite Hr, Hc.
    clear. induction typed as [ | item typed IH]; simpl; [ | rewrite IH];
      reflexivity. }
  set (data0 := {| intervalMs := intervalMs data; results := results data;
                   created := None; cleanupCount := cleanupCount data |}) in *.
  assert (Happ : applied data batch w
                 = fold_left (fun w item => handleCreated batch item w) cs
                     (applied data0 batch w)).
  { assert (Hc0 : createdOf data0 = [])
      by (unfold createdOf; destruct (resultsThrow data0); reflexivity).
    subst cs. unfold applied. rewrite Hc0. reflexivity. }
  assert (Hpend2 : pending (applied data0 batch w) = pending w)
    by apply (applied_frame JSON_parse data0 batch w).
  subst w' before. rewrite !handleBatchResponse_eq, Happ.
  seal (applied data0 batch w). clear Happ. clearbody cs.
  assert (Heff : forall (b : bool) x e,
            (forall st, e <> Notify st) ->
            (In e (effects (fst (if b then (x, Some nullItem)
                                 else (notifyStateChange x, None)))) <->
             In e (effects x))).
  { intros b x e Hn. destruct b; simpl; [reflexivity | ].
    split; [intros [H | H]; [symmetry in H; destruct (Hn _ H) | exact H] | auto]. }
  assert (Hact : forall (b : bool) x,
            active (fst (if b then (x, Some nullItem)
                         else (notifyStateChange x, None))) = active x)
    by (intros [ | ] x; reflexivity).
  assert (Hpe : forall (b : bool) x,
            pending (fst (if b then (x, Some nullItem)
                          else (notifyStateChange x, None))) = pending x)
    by (intros [ | ] x; reflexivity).
  split; [ | split; [ | split; [ | split]]].
  - intros k. rewrite !Hact. apply handleCreateds_lookup.
  - intros item req Hin Hst Hg. apply Heff; [discriminate | ].
    apply (handleCreateds_rejects batch cs wx item req Hin Hst Hg).
  - intros p H. apply Heff in H; [ | discriminate].
    destruct (handleCreateds_rejects_only batch cs wx p H) as [H1 | H1].
    + left. apply Heff; [discriminate | exact H1].
    + right. exact H1.
  - intros Hnone. rewrite !Hact.
    rewrite (handleCreateds_ignores batch cs wx Hnone). reflexivity.
  - rewrite Hpe, <- Hpend2.
    apply (proj1 (proj2 (fold_left_rel (reconciled) _
             reconciled_refl reconciled_trans
             (fun w item => handleCreated_reconciled batch item w) cs wx))).
Qed.

(** X3. What one result of a response does.  A result whose key is not in
    [active], or whose status is not done, changes nothing.  A done result
    for an active request invokes one continuation: [reject] with the
    result when the result is flagged as an error (with the result itself
    when it is a string, with Execution failed otherwise), [resolve]
    with the parsed result otherwise.  When [active] holds no key twice,
    the key is then gone from [active] and is in [completed], and the
    other keys of [active] are as they were. *)
Theorem done_result_settles :
  forall res w,
    (JsMap.get (ServerResult.requestKey res) (active w) = None ->
     handleResult res w = w)
    /\ (ServerResult.status res = StatusPending -> handleResult res w = w)
    /\ (forall req,
          JsMap.get (ServerResult.requestKey res) (active w) = Some req ->
          ServerResult.status res = StatusDone ->
          NoDup (JsMap.keys (active w)) ->
          let w' := handleResult res w in
          effects w'
          = (if match ServerResult.isError res with
                | Some true => true
                | _ => false
                end
             then Reject (promise req) (failureReason res)
             else Resolve (promise req) (parseResult (ServerResult.result res)))
            :: effects w
          /\ JsMap.get (ServerResult.requestKey res) (active w') = None
          /\ In (ServerResult.requestKey res) (completed w')
          /\ (forall k, k <> ServerResult.requestKey res ->
                JsMap.get k (active w') = JsMap.get k (active w))
          /\ (forall k, In k (completed w) -> In k (completed w'))
          /\ pending w' = pending w).
Proof.
  intros res w. split; [ | split].
  - intros Hg. unfold handleResult. rewrite Hg. reflexivity.
  - intros Hst. unfold handleResult. rewrite Hst.
    destruct (JsMap.get (ServerResult.requestKey res) (active w)); reflexivity.
  - intros req Hg Hst Hnd w'. subst w'. unfold handleResult, failureReason.
    rewrite Hg, Hst.
    destruct (ServerResult.isError res) as [[ | ] | ]; simpl;
      (split; [reflexivity | ]);
      (split; [apply JsMap_get_delete_eq; exact Hnd | ]);
      (split; [apply JsSet_add_In; left; reflexivity | ]);
      (split; [intros k Hk; apply JsMap_get_delete_ne; congruence | ]);
      (split; [intros k Hk; apply JsSet_add_In; right; exact Hk | reflexivity]).
Qed.

(** ** Responses that are not accepted *)

(** X4. A response is accepted when its body is an object with an [ok]
    and a [data] field and [ok] is true, or an object with at least one of
    [intervalMs], [results], [created], [cleanupCount].  A batch round
    whose response is not accepted, or whose accepted [data] is null, ends
    as a round that failed with an error without HTTP status: the
    snapshots are put back, [broken] and the key are as they were, the
    error message is recorded, and one retry is armed after
    [min(2000, pollRate)] milliseconds. *)
Theorem unaccepted_response_is_transient :
  forall r body w,
    (forall d, validateInitResponse body = inr (Some d) <->
       body = Wrapped true (Some d)
       \/ (body = Direct d
           /\ (intervalMs d <> None \/ results d <> None
               \/ created d <> None \/ cleanupCount d <> None)))
    /\ ((forall d, validateInitResponse body <> inr (Some d)) ->
        exists msg,
          In msg ["Invalid response structure"; "Server returned error status";
                  "Unrecognized response format"; "Invalid batch response"]
          /\ processBatch_resolved r body w = processBatch_rejected r (Error msg) w
          /\ error (processBatch_resolved r body w) = Some msg
          /\ broken (processBatch_resolved r body w) = broken w
          /\ key (processBatch_resolved r body w) = key w
          /\ pending (processBatch_resolved r body w)
             = restorePending (batchToSend r) (pending w)
          /\ completed (processBatch_resolved r body w)
             = restoreCompleted (completedSnapshot r) (completed w)
          /\ timers (processBatch_resolved r body w)
             = timers w ++ [Z.min 2000 (pollRate w)]).
Proof.
  intros r body w. split.
  - intros d. unfold validateInitResponse. split.
    + destruct body as [ | ok d0 | d0].
      * discriminate.
      * destruct ok; simpl; [ | discriminate]. intros [= ->]. left. reflexivity.
      * destruct (intervalMs d0) eqn:H1, (results d0) eqn:H2,
          (created d0) eqn:H3, (cleanupCount d0) eqn:H4;
          try discriminate; intros [= <-]; right; split; try reflexivity;
          rewrite ?H1, ?H2, ?H3, ?H4;
          first [left; discriminate | right; left; discriminate
                | right; right; left; discriminate
                | right; right; right; discriminate].
    + intros [-> | [-> H]]; [reflexivity | ].
      destruct (intervalMs d), (results d), (created d), (cleanupCount d);
        try reflexivity.
      destruct H as [H | [H | [H | H]]]; congruence.
  - intros Hno.
    assert (Hcase : exists msg,
              In msg ["Invalid response structure"; "Server returned error status";
                      "Unrecognized response format"; "Invalid batch response"]
              /\ processBatch_resolved r body w
                 = processBatch_rejected r (Error msg) w).
    { unfold processBatch_resolved, processBatch_rejected.
      destruct (validateInitResponse body) as [err | [d | ]] eqn:Hv.
      - unfold validateInitResponse in Hv.
        destruct body as [ | ok d0 | d0].
        + injection Hv as <-. eexists. split; [left; reflexivity | reflexivity].
        + destruct ok; simpl in Hv; [discriminate | ]. injection Hv as <-.
          eexists. split; [right; left; reflexivity | reflexivity].
        + destruct (intervalMs d0), (results d0), (created d0), (cleanupCount d0);
            try discriminate.
          injection Hv as <-.
          eexists. split; [right; right; left; reflexivity | reflexivity].
      - exfalso. exact (Hno d eq_refl).
      - eexists. split; [right; right; right; left; reflexivity | reflexivity]. }
    destruct Hcase as (msg & Hin & Heq).
    exists msg. split; [exact Hin | split; [exact Heq | ]].
    rewrite Heq. unfold processBatch_rejected.
    rewrite (handleBatchError_transient (Error msg) r w eq_refl).
    simpl. repeat split.
Qed.

(** ** The effects of a turn *)

Lemma extends_refl Q w : extends Q w w.
Proof. exists []. split; [reflexivity | constructor]. Qed.

Lemma extends_trans Q w1 w2 w3 :
  extends Q w1 w2 -> extends Q w2 w3 -> extends Q w1 w3.
Proof.
  intros (n1 & H1 & F1) (n2 & H2 & F2). exists (n2 ++ n1). split.
  - rewrite H2, H1, app_assoc. reflexivity.
  - apply Forall_app. split; assumption.
Qed.

Lemma extends_weaken (Q Q' : Effect -> Prop) w w' :
  (forall e, Q e -> Q' e) -> extends Q w w' -> extends Q' w w'.
Proof.
  intros HQ (new & H & F). exists new. split; [exact H | ].
  eapply Forall_impl; [ | exact F]. exact HQ.
Qed.

Lemma rejections_internal reason reqs :
  Forall internalEffect (rev (rejections reason reqs)).
Proof.
  apply Forall_rev. unfold rejections.
  induction reqs; simpl; constructor; simpl; auto.
Qed.

Lemma resetState_internal w : extends internalEffect w (resetState w).
Proof.
  rewrite resetState_eq. eexists (_ :: rev (rejections _ _)). split.
  - simpl. reflexivity.
  - constructor; [exact I | apply rejections_internal].
Qed.

Lemma handleResult_internal res w : extends internalEffect w (handleResult res w).
Proof.
  unfold handleResult.
  destruct (JsMap.get (ServerResult.requestKey res) (active w));
    [ | apply extends_refl].
  destruct (ServerResult.status res); [ | apply extends_refl].
  destruct (ServerResult.isError res) as [[ | ] | ];
    (eexists [_]; split; [reflexivity | repeat constructor]).
Qed.

Lemma handleCreated_internal batch item w :
  extends internalEffect w (handleCreated batch item w).
Proof.
  unfold handleCreated.
  destruct (JsMap.get (Created.requestKey item) batch); [ | apply extends_refl].
  destruct (String.eqb (Created.status item) "pending").
  - exists []. split; [reflexivity | constructor].
  - eexists [_]. split; [reflexivity | repeat constructor].
Qed.

Lemma emit_internal e w : internalEffect e -> extends internalEffect w (emit e w).
Proof.
  intros He. exists [e]. split; [reflexivity | ].
  constructor; [exact He | constructor].
Qed.

Lemma applied_internal data batch w :
  extends internalEffect w (applied data batch w).
Proof.
  unfold applied.
  set (w1 := match intervalMs data with
             | Some n => set_pollRate (clamp n) w | None => w end).
  assert (H1 : extends internalEffect w w1).
  { subst w1. destruct (intervalMs data); exists []; split;
      try reflexivity; constructor. }
  set (w2 := fold_left (fun w res => handleResult res w) (resultsOf data) w1).
  assert (H2 : extends internalEffect w1 w2).
  { subst w2.
    apply (fold_left_rel (extends internalEffect));
      [apply extends_refl | apply extends_trans | ].
    intros; apply handleResult_internal. }
  eapply extends_trans; [exact H1 | ].
  eapply extends_trans; [exact H2 | ].
  apply (fold_left_rel (extends internalEffect));
    [apply extends_refl | apply extends_trans | ].
  intros; apply handleCreated_internal.
Qed.

Lemma handleBatchResponse_internal data batch w :
  extends internalEffect w (fst (handleBatchResponse data batch w)).
Proof.
  rewrite handleBatchResponse_eq.
  destruct (throws data); simpl; [apply applied_internal | ].
  eapply extends_trans; [apply applied_internal | ].
  apply emit_internal. exact I.
Qed.

Lemma handleBatchError_internal e r w :
  extends internalEffect w (handleBatchError e r w).
Proof.
  destruct (isCritical e) eqn:Hc.
  - rewrite (handleBatchError_critical e r w Hc).
    eapply extends_trans; [ | apply emit_internal; exact I].
    match goal with
    | |- extends _ _ (resetState ?x) =>
        assert (Hx : effects x = effects w)
          by (destruct (response e) as [rsp | ];
              [destruct (status rsp =? 404) | ]; reflexivity);
        pose proof (resetState_internal x) as (new & Hn & Hf)
    end.
    exists new. split; [rewrite Hn, Hx; reflexivity | exact Hf].
  - rewrite (handleBatchError_transient e r w Hc).
    eexists [_; _]. split; [reflexivity | repeat constructor].
Qed.

Lemma processBatch_resolved_internal r body w :
  extends internalEffect w (processBatch_resolved r body w).
Proof.
  unfold processBatch_resolved.
  eapply extends_trans; [ | apply emit_internal; exact I].
  assert (H : forall x, extends internalEffect w x ->
                extends internalEffect w (set_processing false x)).
  { intros x (new & Hn & Hf). exists new. split; [exact Hn | exact Hf]. }
  apply H.
  destruct (validateInitResponse body) as [err | [d | ]].
  - apply handleBatchError_internal.
  - pose proof (handleBatchResponse_internal d (batchToSend r) w) as Hd.
    destruct (handleBatchResponse d (batchToSend r) w) as [wx [e0 | ]];
      simpl in Hd.
    + eapply extends_trans; [exact Hd | apply handleBatchError_internal].
    + destruct (hasWork wx); [ | exact Hd].
      eapply extends_trans; [exact Hd | ].
      eexists [_]. split; [reflexivity | repeat constructor].
  - apply handleBatchError_internal.
Qed.

Lemma processBatch_rejected_internal r e w :
  extends internalEffect w (processBatch_rejected r e w).
Proof.
  unfold processBatch_rejected.
  eapply extends_trans; [ | apply emit_internal; exact I].
  pose proof (handleBatchError_internal e r w) as (new & Hn & Hf).
  exists new. split; [exact Hn | exact Hf].
Qed.

Lemma initializeConnection_catch_internal e w :
  extends internalEffect w (initializeConnection_catch e w).
Proof.
  unfold initializeConnection_catch, setKey_catch.
  destruct (response e) as [rsp | ]; [destruct (status rsp =? 404) | ];
    (eexists [_; _]; split; [reflexivity | repeat constructor]).
Qed.

Lemma initializeConnection_resolved_internal body w :
  extends internalEffect w (initializeConnection_resolved body w).
Proof.
  unfold initializeConnection_resolved.
  destruct (validateInitResponse body) as [err | [d | ]];
    try apply initializeConnection_catch_internal.
  destruct (intervalMs d) as [n | ]; [destruct (0 <? n) | ];
    (eexists [_; _]; split; [reflexivity | repeat constructor]).
Qed.

(** A round that starts sends the payload of the state it starts in. *)
Lemma processIfNeeded_payload w k :
  key w = Some k -> k <> EmptyString ->
  broken w = false -> processing w = false -> hasWork w = true ->
  processIfNeeded w
  = set_awaitingBatch
      (awaitingBatch w ++
         [{| batchToSend := pending w; completedSnapshot := completed w |}])
      (emit (PostBatch (payloadOf k w) (pollRate w * 2))
         (set_completed []
            (set_pending []
               (notifyStateChange (set_processing true w))))).
Proof.
  intros Hk Hne Hb Hp Hw. unfold processIfNeeded.
  rewrite Hb, Hp, Hk, Hw. destruct k as [ | c k]; [congruence | ]. simpl.
  unfold processBatch. simpl. rewrite Hk, Hb. reflexivity.
Qed.

Lemma extends_internal_counts w w' :
  extends internalEffect w w' ->
  posts (effects w') = posts (effects w)
  /\ fallbacks (effects w') = fallbacks (effects w).
Proof.
  intros (new & Hn & Hf). destruct (internal_counts new Hf) as [H1 H2].
  rewrite Hn, posts_app, fallbacks_app, H1, H2. auto.
Qed.

(** ** Without a key *)

Lemma no_key_step w ev w' :
  key w = None -> isSetKey ev = false -> step w ev = Some w' ->
  key w' = None /\ posts (effects w') = posts (effects w)
  /\ promises w' = promises w
  /\ fallbacks (effects w')
     = (fallbacks (effects w) + submissions [ev])%nat.
Proof.
  intros Hk Hev Hstep. destruct ev; simpl in Hev, Hstep; try discriminate.
  - destruct (awaitingInit w) as [ | n]; [discriminate | ]. injection Hstep as <-.
    destruct (extends_internal_counts _ _
                (initializeConnection_resolved_internal body (set_awaitingInit n w)))
      as [Hp Hf].
    destruct (initializeConnection_resolved_frame body (set_awaitingInit n w))
      as (_ & _ & _ & _ & Hpr & _).
    rewrite Hp, Hf, Hpr. simpl. repeat split; try lia.
    unfold initializeConnection_resolved, initializeConnection_catch, setKey_catch.
    repeat break_match; simpl; auto.
  - destruct (awaitingInit w) as [ | n]; [discriminate | ]. injection Hstep as <-.
    unfold initializeConnection_rejected.
    destruct (extends_internal_counts _ _
                (initializeConnection_catch_internal e (set_awaitingInit n w)))
      as [Hp Hf].
    destruct (initializeConnection_catch_frame e (set_awaitingInit n w))
      as (_ & _ & _ & _ & Hpr & _).
    rewrite Hp, Hf, Hpr. simpl. repeat split; try lia.
    unfold initializeConnection_catch, setKey_catch.
    repeat break_match; simpl; auto.
  - injection Hstep as <-. unfold executeOrFallback. rewrite Hk. simpl.
    rewrite Bool.orb_true_r. simpl. repeat split; auto. lia.
  - destruct (nth_error (awaitingBatch w) i) as [r | ] eqn:Hn; [ | discriminate].
    injection Hstep as <-.
    set (w0 := set_awaitingBatch (remove_nth i (awaitingBatch w)) w).
    destruct (extends_internal_counts _ _
                (processBatch_resolved_internal r body w0)) as [Hp Hf].
    rewrite Hp, Hf. cbn [submissions]. change (effects w0) with (effects w).
    assert (Hk0 : key w0 = None) by exact Hk.
    assert (Hpr0 : promises w0 = promises w) by reflexivity.
    rewrite <- Hpr0. clearbody w0.
    unfold processBatch_resolved.
    destruct (validateInitResponse body) as [err | [d | ]].
    + destruct (handleBatchError_frame err r w0) as (_ & _ & _ & Hpr & Hk' & _).
      seal (handleBatchError err r w0). simpl. rewrite Hpr.
      repeat split; try lia. destruct Hk' as [-> | ->]; auto.
    + destruct (handleBatchResponse_frame JSON_parse d (batchToSend r) w0)
        as (Hk' & _ & _ & _ & _ & _ & _ & Hpr & _).
      destruct (handleBatchResponse d (batchToSend r) w0) as [wx [e0 | ]];
        simpl in Hk', Hpr.
      * destruct (handleBatchError_frame e0 r wx) as (_ & _ & _ & Hpr2 & Hk2 & _).
        seal (handleBatchError e0 r wx). simpl. rewrite Hpr2, Hpr.
        repeat split; try lia. destruct Hk2 as [-> | ->]; [congruence | auto].
      * destruct (hasWork wx); simpl; rewrite Hk', Hpr; repeat split; auto.
    + destruct (handleBatchError_frame (Error "Invalid batch response") r w0)
        as (_ & _ & _ & Hpr & Hk' & _).
      seal (handleBatchError (Error "Invalid batch response") r w0).
      simpl. rewrite Hpr.
      repeat split; try lia. destruct Hk' as [-> | ->]; auto.
  - destruct (nth_error (awaitingBatch w) i) as [r | ] eqn:Hn; [ | discriminate].
    injection Hstep as <-.
    set (w0 := set_awaitingBatch (remove_nth i (awaitingBatch w)) w).
    destruct (extends_internal_counts _ _
                (processBatch_rejected_internal r e w0)) as [Hp Hf].
    rewrite Hp, Hf. cbn [submissions]. change (effects w0) with (effects w).
    assert (Hk0 : key w0 = None) by exact Hk.
    assert (Hpr0 : promises w0 = promises w) by reflexivity.
    rewrite <- Hpr0. clearbody w0.
    unfold processBatch_rejected.
    destruct (handleBatchError_frame e r w0) as (_ & _ & _ & Hpr & Hk' & _).
    seal (handleBatchError e r w0). simpl. rewrite Hpr.
    repeat split; try lia. destruct Hk' as [-> | ->]; auto.
  - destruct (nth_error (timers w) i); [ | discriminate].
    injection Hstep as <-.
    rewrite processIfNeeded_skips.
    + simpl. repeat split; auto.
    + right; right; left. simpl. rewrite Hk. reflexivity.
Qed.

(** X5. While the key is null (before the first [setKey], after
    [setKey(null)], after a 404) and until [setKey] is called, the key
    stays null, every call of [executeOrFallback] is handed to its
    fallback, no promise is created, and nothing is posted: not by the
    calls, not by the timers that fire, not by the rounds that end. *)
Theorem no_key_no_traffic :
  forall evs w w',
    key w = None ->
    Forall (fun ev => isSetKey ev = false) evs ->
    run w evs = Some w' ->
    key w' = None
    /\ posts (effects w') = posts (effects w)
    /\ promises w' = promises w
    /\ fallbacks (effects w') = (fallbacks (effects w) + submissions evs)%nat.
Proof.
  induction evs as [ | ev evs IH]; intros w w' Hk Hok Hrun; simpl in Hrun.
  - injection Hrun as <-. simpl. repeat split; auto.
  - inversion Hok as [ | ? ? Hev Hevs]; subst.
    destruct (step w ev) as [w1 | ] eqn:Hs; [ | discriminate].
    destruct (no_key_step w ev w1 Hk Hev Hs) as (Hk1 & Hp1 & Hpr1 & Hf1).
    destruct (IH w1 w' Hk1 Hevs Hrun) as (Hk2 & Hp2 & Hpr2 & Hf2).
    repeat split; try congruence.
    rewrite Hf2, Hf1. destruct ev; simpl; lia.
Qed.

(** ** What is posted *)

Lemma internal_postOk e : internalEffect e -> postOk e.
Proof. destruct e; simpl; intros H; try exact I; contradiction. Qed.

Lemma extends_postOk w w' :
  extends postOk w w' -> Forall postOk (effects w) -> Forall postOk (effects w').
Proof.
  intros (new & Hn & Hf) H. rewrite Hn. apply Forall_app. split; assumption.
Qed.

Lemma processIfNeeded_postOk w :
  (forall k, key w = Some k -> normalKey k) ->
  500 <= pollRate w <= 10000 ->
  extends postOk w (processIfNeeded w).
Proof.
  intros Hk Hr.
  destruct (broken w) eqn:Hb;
    [rewrite processIfNeeded_skips; auto; apply extends_refl | ].
  destruct (processing w) eqn:Hp;
    [rewrite processIfNeeded_skips; auto; apply extends_refl | ].
  destruct (key w) as [k | ] eqn:Hkey;
    [ | rewrite processIfNeeded_skips;
        [apply extends_refl | right; right; left; rewrite Hkey; reflexivity]].
  destruct (hasWork w) eqn:Hw.
  - destruct (Hk k eq_refl) as [Hne Htrim].
    rewrite (processIfNeeded_payload w k Hkey Hne Hb Hp Hw).
    eexists [_; _]. split; [reflexivity | ].
    constructor; [ | repeat constructor].
    simpl. split; [split; assumption | lia].
  - rewrite processIfNeeded_skips; [apply extends_refl | ].
    right; right; right. apply hasWork_false. exact Hw.
Qed.

Lemma setKey_postOk k w : extends postOk w (setKey k w).
Proof.
  unfold setKey, initializeConnection, setKey_catch. rewrite resetState_eq.
  simpl. destruct (trim (or_else k EmptyString)) as [ | c t] eqn:Ht; simpl.
  - eexists (_ :: _ :: _ :: rev (rejections _ _)). split; [reflexivity | ].
    repeat (constructor; [exact I | ]).
    eapply Forall_impl; [exact internal_postOk | apply rejections_internal].
  - eexists (_ :: _ :: rev (rejections _ _)). split; [reflexivity | ].
    constructor.
    + simpl. split; [ | reflexivity]. split; [discriminate | ].
      rewrite <- Ht. apply trim_idempotent.
    + constructor; [exact I | ].
      eapply Forall_impl; [exact internal_postOk | apply rejections_internal].
Qed.

Lemma setKey_key_normal k w :
  forall k', key (setKey k w) = Some k' -> normalKey k'.
Proof.
  unfold setKey, initializeConnection, setKey_catch. rewrite resetState_eq.
  simpl. destruct (trim (or_else k EmptyString)) as [ | c t] eqn:Ht; simpl;
    intros k' Hk'; [discriminate | ].
  injection Hk' as <-. split; [discriminate | ].
  rewrite <- Ht. apply trim_idempotent.
Qed.

(** The key changes only in [setKey], or becomes null. *)
Lemma step_key w ev w' :
  step w ev = Some w' ->
  key w' = key w \/ key w' = None
  \/ exists k, ev = CallSetKey k /\ key w' = key (setKey k w).
Proof.
  intros Hstep. destruct ev; simpl in Hstep.
  - injection Hstep as <-. right; right. exists k. split; reflexivity.
  - destruct (awaitingInit w) as [ | n]; [discriminate | ]. injection Hstep as <-.
    unfold initializeConnection_resolved, initializeConnection_catch, setKey_catch.
    repeat break_match; simpl; auto.
  - destruct (awaitingInit w) as [ | n]; [discriminate | ]. injection Hstep as <-.
    unfold initializeConnection_rejected, initializeConnection_catch, setKey_catch.
    repeat break_match; simpl; auto.
  - injection Hstep as <-. unfold executeOrFallback.
    destruct (broken w || negb (truthy (key w))); [left; reflexivity | ].
    match goal with
    | |- context [processIfNeeded ?x] =>
        destruct (processIfNeeded_frame x) as (-> & _)
    end.
    left. reflexivity.
  - destruct (nth_error (awaitingBatch w) i) as [r | ] eqn:Hn; [ | discriminate].
    injection Hstep as <-. unfold processBatch_resolved.
    set (w0 := set_awaitingBatch (remove_nth i (awaitingBatch w)) w).
    change (key w) with (key w0). clearbody w0.
    destruct (validateInitResponse body) as [err | [d | ]].
    + destruct (handleBatchError_frame err r w0) as (_ & _ & _ & _ & Hk' & _).
      seal (handleBatchError err r w0). simpl. tauto.
    + destruct (handleBatchResponse_frame JSON_parse d (batchToSend r) w0)
        as (Hk' & _).
      destruct (handleBatchResponse d (batchToSend r) w0) as [wx [e0 | ]];
        simpl in Hk'.
      * destruct (handleBatchError_frame e0 r wx) as (_ & _ & _ & _ & Hk2 & _).
        seal (handleBatchError e0 r wx). simpl. rewrite <- Hk'. tauto.
      * destruct (hasWork wx); simpl; auto.
    + destruct (handleBatchError_frame (Error "Invalid batch response") r w0)
        as (_ & _ & _ & _ & Hk' & _).
      seal (handleBatchError (Error "Invalid batch response") r w0). simpl. tauto.
  - destruct (nth_error (awaitingBatch w) i) as [r | ] eqn:Hn; [ | discriminate].
    injection Hstep as <-. unfold processBatch_rejected.
    set (w0 := set_awaitingBatch (remove_nth i (awaitingBatch w)) w).
    change (key w) with (key w0). clearbody w0.
    destruct (handleBatchError_frame e r w0) as (_ & _ & _ & _ & Hk' & _).
    seal (handleBatchError e r w0). simpl. tauto.
  - destruct (nth_error (timers w) i); [ | discriminate].
    injection Hstep as <-.
    match goal with
    | |- context [processIfNeeded ?x] =>
        destruct (processIfNeeded_frame x) as (-> & _)
    end.
    left. reflexivity.
Qed.

Lemma step_postOk w ev w' :
  step w ev = Some w' -> wellConnected w -> extends postOk w w'.
Proof.
  intros Hstep (Hk & Hr & _). destruct ev; simpl in Hstep.
  - injection Hstep as <-. apply setKey_postOk.
  - destruct (awaitingInit w) as [ | n]; [discriminate | ]. injection Hstep as <-.
    apply (extends_weaken internalEffect); [exact internal_postOk | ].
    exact (initializeConnection_resolved_internal body (set_awaitingInit n w)).
  - destruct (awaitingInit w) as [ | n]; [discriminate | ]. injection Hstep as <-.
    apply (extends_weaken internalEffect); [exact internal_postOk | ].
    exact (initializeConnection_catch_internal e (set_awaitingInit n w)).
  - injection Hstep as <-. unfold executeOrFallback.
    destruct (broken w || negb (truthy (key w))).
    + eexists [_]. split; [reflexivity | repeat constructor].
    + match goal with
      | |- extends _ _ (processIfNeeded ?x) =>
          pose proof (processIfNeeded_postOk x Hk Hr) as (new & Hn & Hf)
      end.
      exists (new ++ [Notify (getState
                 (set_pending
                    (JsMap.set requestKey0
                       {| requestKey := requestKey0; call := apiCall;
                          promise := promises w; timestamp := now |}
                       (pending w))
                    (set_promises (S (promises w)) w)))]).
      split.
      * rewrite Hn. simpl. rewrite <- app_assoc. reflexivity.
      * apply Forall_app. split; [exact Hf | repeat constructor].
  - destruct (nth_error (awaitingBatch w) i) as [r | ] eqn:Hn; [ | discriminate].
    injection Hstep as <-.
    apply (extends_weaken internalEffect); [exact internal_postOk | ].
    exact (processBatch_resolved_internal r body
             (set_awaitingBatch (remove_nth i (awaitingBatch w)) w)).
  - destruct (nth_error (awaitingBatch w) i) as [r | ] eqn:Hn; [ | discriminate].
    injection Hstep as <-.
    apply (extends_weaken internalEffect); [exact internal_postOk | ].
    exact (processBatch_rejected_internal r e
             (set_awaitingBatch (remove_nth i (awaitingBatch w)) w)).
  - destruct (nth_error (timers w) i); [ | discriminate].
    injection Hstep as <-.
    exact (processIfNeeded_postOk (set_timers (remove_nth i (timers w)) w) Hk Hr).
Qed.

Lemma step_wellConnected w ev w' :
  step w ev = Some w' -> wellConnected w -> wellConnected w'.
Proof.
  intros Hstep Hw. pose proof Hw as (Hk & Hr & Hp). split; [ | split].
  - intros k' Hk'.
    destruct (step_key w ev w' Hstep) as [H | [H | (k & -> & H)]].
    + apply Hk. congruence.
    + congruence.
    + apply (setKey_key_normal k w). congruence.
  - exact (step_pollRate JSON_parse w ev w' Hstep Hr).
  - exact (extends_postOk w w' (step_postOk w ev w' Hstep Hw) Hp).
Qed.

Lemma reachable_wellConnected w : reachable w -> wellConnected w.
Proof.
  apply reachable_invariant.
  - split; [intros k H; discriminate | split; [simpl; lia | constructor]].
  - intros w0 ev w' Hinv Hstep. exact (step_wellConnected w0 ev w' Hstep Hinv).
Qed.

Lemma reachable_queuesWellFormed w : reachable w -> queuesWellFormed w.
Proof.
  apply reachable_invariant.
  - unfold queuesWellFormed. simpl.
    repeat split; try constructor; intros k req [].
  - intros w0 ev w' Hinv Hstep. exact (step_wellFormed w0 ev w' Hstep Hinv).
Qed.

(** X6. In every reachable state the key is null or a string that is not
    empty and has no white space at its ends, and every post sent so far
    carried such a key; every initialization was posted with a timeout of
    5000 ms and every batch with a timeout between 1000 and 20000 ms
    (twice the poll rate). *)
Theorem posts_are_in_order :
  forall w, reachable w ->
    (forall k, key w = Some k -> k <> EmptyString /\ trim k = k)
    /\ (forall k t, In (PostInit k t) (effects w) ->
          k <> EmptyString /\ trim k = k /\ t = 5000)
    /\ (forall pl t, In (PostBatch pl t) (effects w) ->
          pl_key pl <> EmptyString /\ trim (pl_key pl) = pl_key pl
          /\ 1000 <= t <= 20000).
Proof.
  intros w Hr. destruct (reachable_wellConnected w Hr) as (Hk & _ & Hp).
  rewrite Forall_forall in Hp. split; [exact Hk | split].
  - intros k t Hin. destruct (Hp _ Hin) as [[H1 H2] H3]. auto.
  - intros pl t Hin. destruct (Hp _ Hin) as [[H1 H2] H3]. auto.
Qed.

(** X7. The body of a batch request.  When a round starts in a reachable
    state, under the key [k], one post is sent, with a timeout of twice
    the poll rate; its [calls] are the requests of [pending], one for each
    key and under that key, in the order of [pending]; its
    [statusRequestKeys] are the keys of [active] and its [completedKeys]
    the keys of [completed], none of them twice.  The round holds
    [pending] and [completed] as its snapshots and leaves both empty;
    [active] is not touched. *)
Theorem round_payload :
  forall w k,
    reachable w ->
    key w = Some k -> broken w = false -> processing w = false ->
    hasWork w = true ->
    let w' := processIfNeeded w in
    (exists st,
        effects w' = PostBatch (payloadOf k w) (pollRate w * 2) :: Notify st
                       :: effects w
        /\ st_processing st = true)
    /\ map cp_requestKey (calls (payloadOf k w)) = JsMap.keys (pending w)
    /\ NoDup (map cp_requestKey (calls (payloadOf k w)))
    /\ NoDup (statusRequestKeys (payloadOf k w))
    /\ NoDup (completedKeys (payloadOf k w))
    /\ awaitingBatch w'
       = awaitingBatch w
           ++ [{| batchToSend := pending w; completedSnapshot := completed w |}]
    /\ pending w' = [] /\ completed w' = [] /\ active w' = active w
    /\ processing w' = true.
Proof.
  intros w k Hr Hk Hb Hp Hw w'.
  destruct (reachable_wellConnected w Hr) as (Hkn & _ & _).
  destruct (Hkn k Hk) as [Hne _].
  destruct (reachable_queuesWellFormed w Hr) as ([Hnd Hkeys] & [Hna _] & Hnc & _).
  subst w'. rewrite (processIfNeeded_payload w k Hk Hne Hb Hp Hw). simpl.
  assert (Hcalls : map cp_requestKey (map callPayload (JsMap.values (pending w)))
                   = JsMap.keys (pending w)).
  { unfold JsMap.values, JsMap.keys. rewrite !map_map.
    apply map_ext_in. intros [k0 req] Hin. simpl. apply Hkeys. exact Hin. }
  split; [eexists; split; reflexivity | ].
  split; [exact Hcalls | ].
  split; [rewrite Hcalls; exact Hnd | ].
  split; [exact Hna | ].
  split; [exact Hnc | ].
  repeat split.
Qed.

(** ** The end of an initialization *)

Lemma setKey_started k w :
  allWhiteSpace (or_else k EmptyString) = false ->
  setKey k w
  = set_awaitingInit (S (awaitingInit w))
      (emit (PostInit (trim (or_else k EmptyString)) 5000)
         (set_key (Some (trim (or_else k EmptyString)))
            (resetState (set_error None (set_broken false w))))).
Proof.
  intros Hw. unfold setKey, initializeConnection. cbv zeta.
  destruct (trim (or_else k EmptyString)) as [ | c t] eqn:Ht.
  - apply trim_empty in Ht. congruence.
  - rewrite resetState_eq. reflexivity.
Qed.

(** X8. The end of an initialization that fails.  On status 404 the
    connection is broken, the key is null, and the last error is
    KEY_NOT_FOUND, whatever message the server sent: the catch of [setKey]
    overwrites the message that [initializeConnection] recorded, and
    [setKey] throws KEY_NOT_FOUND.  On any other failure [broken] and the
    key are as they were, the last error is the message of the failure,
    and [setKey] throws it.  The queues are not touched in either case.
    So after [setKey] with a key that is not blank and a failure other
    than 404, [isConnected] is false but the channel works: the next call
    is queued and posted at once. *)
Theorem failed_initialization :
  forall e w,
    (forall rsp, response e = Some rsp -> status rsp = 404 ->
       let w' := initializeConnection_rejected e w in
       broken w' = true /\ key w' = None
       /\ error w' = Some "KEY_NOT_FOUND"
       /\ (exists st, effects w'
                      = SetKeyThrew "KEY_NOT_FOUND" :: Notify st :: effects w
                      /\ st_error st = Some "KEY_NOT_FOUND"
                      /\ st_connected st = false)
       /\ pending w' = pending w /\ active w' = active w
       /\ completed w' = completed w)
    /\ ((forall rsp, response e = Some rsp -> status rsp <> 404) ->
        let w' := initializeConnection_rejected e w in
        broken w' = broken w /\ key w' = key w
        /\ error w' = Some (getErrorMessage e)
        /\ (exists st, effects w'
                       = SetKeyThrew (getErrorMessage e) :: Notify st :: effects w)
        /\ pending w' = pending w /\ active w' = active w
        /\ completed w' = completed w)
    /\ (forall k rk now c w2,
          allWhiteSpace (or_else k EmptyString) = false ->
          (forall rsp, response e = Some rsp -> status rsp <> 404) ->
          getErrorMessage e <> EmptyString ->
          run w [CallSetKey k; InitRejected e] = Some w2 ->
          isConnected w2 = false
          /\ st_connected (getState w2) = true
          /\ posts (effects (executeOrFallback rk now c w2))
             = S (posts (effects w2))
          /\ fallbacks (effects (executeOrFallback rk now c w2))
             = fallbacks (effects w2)
          /\ JsMap.keys (batchToSend
                           (last (awaitingBatch (executeOrFallback rk now c w2))
                              {| batchToSend := []; completedSnapshot := [] |}))
             = [rk]).
Proof.
  intros e w. split; [ | split].
  - intros rsp Hrsp H404 w'. subst w'.
    unfold initializeConnection_rejected, initializeConnection_catch, setKey_catch.
    rewrite Hrsp, H404. simpl. repeat split.
    eexists. repeat split.
  - intros Hno w'. subst w'.
    unfold initializeConnection_rejected, initializeConnection_catch, setKey_catch.
    destruct (response e) as [rsp | ] eqn:Hrsp.
    + destruct (status rsp =? 404) eqn:Hs.
      * apply Z.eqb_eq in Hs. exfalso. exact (Hno rsp eq_refl Hs).
      * simpl. repeat split. eexists. reflexivity.
    + simpl. repeat split. eexists. reflexivity.
  - intros k rk now c w2 Hk Hno Hmsg Hrun.
    pose proof (setKey_started k w Hk) as Hset.
    simpl in Hrun. rewrite Hset, resetState_eq in Hrun. simpl in Hrun.
    injection Hrun as <-.
    unfold initializeConnection_rejected, initializeConnection_catch, setKey_catch.
    assert (Htrim : exists c0 t0, trim (or_else k EmptyString) = String c0 t0).
    { destruct (trim (or_else k EmptyString)) eqn:Ht; [ | eauto].
      apply trim_empty in Ht. congruence. }
    destruct Htrim as (c0 & t0 & Ht).
    assert (Hcatch :
      forall x : World,
        match response e with
        | Some rsp =>
            if status rsp =? 404
            then
              setKey_catch (Error "KEY_NOT_FOUND")
                (set_key None
                   (set_error
                      (Some (or_else (data_message rsp)
                               "Session not found. Create key again."))
                      (set_broken true x)))
            else setKey_catch e x
        | None => setKey_catch e x
        end = setKey_catch e x).
    { intros x. destruct (response e) as [rsp | ] eqn:Hrsp; [ | reflexivity].
      destruct (status rsp =? 404) eqn:Hs; [ | reflexivity].
      apply Z.eqb_eq in Hs. exfalso. exact (Hno rsp eq_refl Hs). }
    unfold setKey_catch in Hcatch. rewrite Hcatch. clear Hcatch.
    rewrite Ht. unfold isConnected, executeOrFallback, processIfNeeded. simpl.
    rewrite last_last. simpl. repeat split.
    destruct (getErrorMessage e); [congruence | reflexivity].
Qed.

(** X9. The end of an initialization that succeeds.  After [setKey] with
    a key that is not blank and an accepted response, the key is the
    trimmed key, [broken] is false, the last error is null and
    [isConnected] is true; the poll rate is the interval of the response
    clamped to [500, 10000] when the response has a positive one, and is
    as it was otherwise; the queues are empty and [setKey] returns. *)
Theorem successful_initialization :
  forall k w body d w2,
    allWhiteSpace (or_else k EmptyString) = false ->
    validateInitResponse body = inr (Some d) ->
    run w [CallSetKey k; InitResolved body] = Some w2 ->
    key w2 = Some (trim (or_else k EmptyString))
    /\ broken w2 = false /\ error w2 = None
    /\ isConnected w2 = true /\ st_connected (getState w2) = true
    /\ pollRate w2 = match intervalMs d with
                     | Some n => if 0 <? n then clamp n else pollRate w
                     | None => pollRate w
                     end
    /\ pending w2 = [] /\ active w2 = [] /\ completed w2 = []
    /\ exists st, effects w2 = SetKeyReturned :: Notify st
                                 :: effects (setKey k w)
                  /\ st_connected st = true /\ st_error st = None.
Proof.
  intros k w body d w2 Hk Hv Hrun.
  pose proof (setKey_started k w Hk) as Hset.
  simpl in Hrun. rewrite Hset, resetState_eq in Hrun. simpl in Hrun.
  injection Hrun as <-.
  rewrite Hset, resetState_eq.
  assert (Htrim : exists c0 t0, trim (or_else k EmptyString) = String c0 t0).
  { destruct (trim (or_else k EmptyString)) eqn:Ht; [ | eauto].
    apply trim_empty in Ht. congruence. }
  destruct Htrim as (c0 & t0 & Ht).
  unfold initializeConnection_resolved. rewrite Hv. rewrite Ht.
  unfold isConnected.
  destruct (intervalMs d) as [n | ]; [destruct (0 <? n) | ]; simpl;
    repeat split; eexists; repeat split.
Qed.

(** ** Calling twice *)

(** X10. [processIfNeeded] is idempotent: a second call right after the
    first changes nothing, whether the first started a round or not. *)
Theorem processIfNeeded_idempotent :
  forall w, processIfNeeded (processIfNeeded w) = processIfNeeded w.
Proof.
  intros w. destruct (processIfNeeded_cases w) as [H | (payload & H)].
  - rewrite H. exact H.
  - rewrite H. apply processIfNeeded_skips. right. left. reflexivity.
Qed.

(** ** The keys of [completed] *)

Lemma JsMap_get_keys {V : Type} k (m : JsMap.t V) v :
  JsMap.get k m = Some v -> In k (JsMap.keys m).
Proof.
  intros H. apply JsMap_get_In in H.
  unfold JsMap.keys. apply (in_map fst) in H. exact H.
Qed.

Lemma JsMap_keys_get {V : Type} k (m : JsMap.t V) :
  In k (JsMap.keys m) -> exists v, JsMap.get k m = Some v.
Proof.
  intros H. destruct (JsMap.get k m) as [v | ] eqn:Hg; [eauto | ].
  exfalso. revert H Hg. induction m as [ | [k0 v0] m IH]; simpl; [intros [] | ].
  destruct (String.eqb_spec k k0) as [Heq | Hne]; [discriminate | ].
  intros [H | H] Hg; [congruence | exact (IH H Hg)].
Qed.

Lemma JsMap_delete_keys_ne {V : Type} k k0 (m : JsMap.t V) :
  k <> k0 -> In k (JsMap.keys m) -> In k (JsMap.keys (JsMap.delete k0 m)).
Proof.
  intros Hne Hin. destruct (JsMap_keys_get k m Hin) as [v Hv].
  apply (JsMap_get_keys k _ v). rewrite JsMap_get_delete_ne; auto.
Qed.

Lemma restoreCompleted_fresh snapshot : forall done,
  NoDup (done ++ snapshot) -> restoreCompleted snapshot done = done ++ snapshot.
Proof.
  unfold restoreCompleted.
  induction snapshot as [ | k snapshot IH]; intros done Hnd; simpl.
  - rewrite app_nil_r. reflexivity.
  - assert (Hk : JsSet.has k done = false).
    { destruct (JsSet.has k done) eqn:Hh; [ | reflexivity].
      apply JsSet_has_In in Hh. apply NoDup_remove_2 in Hnd.
      exfalso. apply Hnd. apply in_or_app. left. exact Hh. }
    unfold JsSet.add at 2. rewrite Hk. rewrite IH.
    + rewrite <- app_assoc. reflexivity.
    + rewrite <- app_assoc. exact Hnd.
Qed.

Lemma handleResult_completed_from res w k :
  In k (completed (handleResult res w)) ->
  In k (completed w)
  \/ (ServerResult.requestKey res = k
      /\ ServerResult.status res = StatusDone
      /\ In k (JsMap.keys (active w))).
Proof.
  unfold handleResult.
  destruct (JsMap.get (ServerResult.requestKey res) (active w)) as [req | ] eqn:Hg;
    [ | auto].
  destruct (ServerResult.status res) eqn:Hst; [ | auto].
  intros H.
  assert (H' : In k (JsSet.add (ServerResult.requestKey res) (completed w))).
  { destruct (ServerResult.isError res) as [[ | ] | ]; exact H. }
  apply JsSet_add_In in H'. destruct H' as [-> | H']; [ | auto].
  right. repeat split. exact (JsMap_get_keys _ _ _ Hg).
Qed.

Lemma handleResult_active_keys res w k :
  In k (JsMap.keys (active (handleResult res w))) -> In k (JsMap.keys (active w)).
Proof.
  unfold handleResult. repeat break_match; simpl; auto;
    apply JsMap_delete_keys_In.
Qed.

Lemma handleResults_completed_from rs : forall w k,
  In k (completed (fold_left (fun w res => handleResult res w) rs w)) ->
  In k (completed w)
  \/ exists res,
       In res rs /\ ServerResult.requestKey res = k
       /\ ServerResult.status res = StatusDone
       /\ In k (JsMap.keys (active w)).
Proof.
  induction rs as [ | r0 rs IH]; intros w k H; simpl in H; [auto | ].
  destruct (IH _ k H) as [H1 | (res & Hin & Hk & Hst & Ha)].
  - destruct (handleResult_completed_from r0 w k H1) as [H2 | (H2 & H3 & H4)];
      [auto | ].
    right. exists r0. repeat split; auto. left. reflexivity.
  - right. exists res. repeat split; auto.
    + right. exact Hin.
    + exact (handleResult_active_keys r0 w k Ha).
Qed.

Lemma handleResult_keeps res w k :
  In k (JsMap.keys (active w)) \/ In k (completed w) ->
  In k (JsMap.keys (active (handleResult res w)))
  \/ In k (completed (handleResult res w)).
Proof.
  intros H. unfold handleResult.
  destruct (JsMap.get (ServerResult.requestKey res) (active w)) as [req | ] eqn:Hg;
    [ | exact H].
  destruct (ServerResult.status res); [ | exact H].
  assert (Hgoal : In k (JsMap.keys (JsMap.delete (ServerResult.requestKey res)
                                      (active w)))
                  \/ In k (JsSet.add (ServerResult.requestKey res) (completed w))).
  { destruct (String.eqb_spec k (ServerResult.requestKey res)) as [-> | Hne].
    - right. apply JsSet_add_In. left. reflexivity.
    - destruct H as [H | H].
      + left. apply JsMap_delete_keys_ne; assumption.
      + right. apply JsSet_add_In. right. exact H. }
  destruct (ServerResult.isError res) as [[ | ] | ]; exact Hgoal.
Qed.

Lemma handleResult_done res w :
  ServerResult.status res = StatusDone ->
  In (ServerResult.requestKey res) (JsMap.keys (active w))
  \/ In (ServerResult.requestKey res) (completed w) ->
  In (ServerResult.requestKey res) (completed (handleResult res w)).
Proof.
  intros Hst H. unfold handleResult. rewrite Hst.
  destruct (JsMap.get (ServerResult.requestKey res) (active w)) as [req | ] eqn:Hg.
  - assert (Hin : In (ServerResult.requestKey res)
                    (JsSet.add (ServerResult.requestKey res) (completed w)))
      by (apply JsSet_add_In; left; reflexivity).
    destruct (ServerResult.isError res) as [[ | ] | ]; exact Hin.
  - destruct H as [H | H]; [ | exact H].
    destruct (JsMap_keys_get _ _ H) as [v Hv]. congruence.
Qed.

Lemma handleResults_keep_completed rs : forall w k,
  In k (completed w) ->
  In k (completed (fold_left (fun w res => handleResult res w) rs w)).
Proof.
  induction rs as [ | r0 rs IH]; intros w k H; simpl; [exact H | ].
  apply IH.
  destruct (handleResult_keeps r0 w k (or_intror H)) as [H1 | H1]; [ | exact H1].
  unfold handleResult in *.
  destruct (JsMap.get (ServerResult.requestKey r0) (active w)); [ | exact H].
  destruct (ServerResult.status r0); [ | exact H].
  assert (Hin : In k (JsSet.add (ServerResult.requestKey r0) (completed w)))
    by (apply JsSet_add_In; right; exact H).
  destruct (ServerResult.isError r0) as [[ | ] | ]; exact Hin.
Qed.

Lemma handleResults_completed_to rs : forall w res,
  In res rs -> ServerResult.status res = StatusDone ->
  In (ServerResult.requestKey res) (JsMap.keys (active w))
  \/ In (ServerResult.requestKey res) (completed w) ->
  In (ServerResult.requestKey res)
    (completed (fold_left (fun w res => handleResult res w) rs w)).
Proof.
  induction rs as [ | r0 rs IH]; intros w res Hin Hst H; simpl; [destruct Hin | ].
  destruct Hin as [-> | Hin].
  - apply handleResults_keep_completed. apply handleResult_done; assumption.
  - apply (IH _ res Hin Hst). apply handleResult_keeps. exact H.
Qed.

Lemma applied_completed data batch w :
  completed (applied data batch w)
  = completed (fold_left (fun w res => handleResult res w) (resultsOf data) w).
Proof.
  unfold applied.
  assert (Hc : forall cs x,
            completed (fold_left (fun w item => handleCreated batch item w) cs x)
            = completed x).
  { induction cs as [ | item cs IH]; intros x; simpl; [reflexivity | ].
    rewrite IH. unfold handleCreated. repeat break_match; reflexivity. }
  assert (Hr : forall rs x n,
            completed (fold_left (fun w res => handleResult res w) rs
                         (set_pollRate n x))
            = completed (fold_left (fun w res => handleResult res w) rs x)
            /\ active (fold_left (fun w res => handleResult res w) rs
                         (set_pollRate n x))
               = active (fold_left (fun w res => handleResult res w) rs x)).
  { induction rs as [ | r0 rs IH]; intros x n; simpl; [split; reflexivity | ].
    assert (Hstep : handleResult r0 (set_pollRate n x)
                    = set_pollRate n (handleResult r0 x)).
    { unfold handleResult. simpl. repeat break_match; reflexivity. }
    rewrite Hstep. apply IH. }
  rewrite Hc. destruct (intervalMs data) as [n | ]; [ | reflexivity].
  apply (Hr (resultsOf data) w (clamp n)).
Qed.

(** X11. The keys of [completed] are reported once.  A round that starts
    in a reachable state sends the keys of [completed] and empties the
    set.  When that round succeeds, [completed] holds exactly the keys of
    the done results of the response that were in [active]: the keys that
    were sent are gone.  When it fails with a transient error,
    [completed] is again what it was before the round, to be sent
    again.  When [handleBatchResponse] throws part of the way through the
    response, [completed] holds the keys it held before the round and the
    keys of the done results that were handled before the throw. *)
Theorem completed_keys_are_reported :
  forall w k,
    reachable w ->
    key w = Some k -> broken w = false -> processing w = false ->
    hasWork w = true ->
    let w1 := processIfNeeded w in
    let i := List.length (awaitingBatch w) in
    completed w1 = []
    /\ (forall body d w2,
          validateInitResponse body = inr (Some d) ->
          throws d = false ->
          step w1 (BatchResolved i body) = Some w2 ->
          forall key,
            In key (completed w2) <->
            exists res,
              In res (resultsOf d) /\ ServerResult.requestKey res = key
              /\ ServerResult.status res = StatusDone
              /\ In key (JsMap.keys (active w)))
    /\ (forall e w2,
          (forall rsp, response e = Some rsp ->
             status rsp <> 404 /\ status rsp <> 500) ->
          step w1 (BatchRejected i e) = Some w2 ->
          completed w2 = completed w)
    /\ (forall body d w2,
          validateInitResponse body = inr (Some d) ->
          throws d = true ->
          step w1 (BatchResolved i body) = Some w2 ->
          forall key,
            In key (completed w2) <->
            In key (completed w)
            \/ exists res,
                 In res (resultsOf d) /\ ServerResult.requestKey res = key
                 /\ ServerResult.status res = StatusDone
                 /\ In key (JsMap.keys (active w))).
Proof.
  intros w k Hr Hk Hb Hp Hw w1 i.
  destruct (reachable_wellConnected w Hr) as (Hkn & _ & _).
  destruct (Hkn k Hk) as [Hne _].
  destruct (reachable_queuesWellFormed w Hr) as (_ & _ & Hnc & _).
  subst w1 i. rewrite (processIfNeeded_payload w k Hk Hne Hb Hp Hw).
  split; [reflexivity | split; [ | split]].
  - intros body d w2 Hv Hth Hstep key0.
    simpl in Hstep. rewrite nth_error_snoc in Hstep. injection Hstep as <-.
    unfold processBatch_resolved. rewrite Hv, handleBatchResponse_eq, Hth.
    match goal with
    | |- context [applied d ?b ?x] =>
        pose proof (applied_completed d b x) as Hc;
        set (w0 := x) in *; seal (applied d b w0)
    end.
    assert (Hcw : completed (processIfNeeded_finally
                               (if hasWork (notifyStateChange wx)
                                then setTimeout (pollRate (notifyStateChange wx))
                                       (notifyStateChange wx)
                                else notifyStateChange wx)) = completed wx)
      by (destruct (hasWork (notifyStateChange wx)); reflexivity).
    rewrite Hcw, Hc. split.
    + intros H. destruct (handleResults_completed_from _ _ _ H) as [[] | H1].
      exact H1.
    + intros (res & Hin & <- & Hst & Ha).
      apply handleResults_completed_to; auto.
  - intros e w2 Ht Hstep.
    simpl in Hstep. rewrite nth_error_snoc in Hstep. injection Hstep as <-.
    unfold processBatch_rejected.
    rewrite (handleBatchError_transient e _ _ (isCritical_false e Ht)).
    simpl. apply (restoreCompleted_fresh (completed w) []). exact Hnc.
  - intros body d w2 Hv Hth Hstep key0.
    simpl in Hstep. rewrite nth_error_snoc in Hstep. injection Hstep as <-.
    unfold processBatch_resolved. rewrite Hv, handleBatchResponse_eq, Hth.
    rewrite (handleBatchError_transient nullItem _ _ nullItem_transient).
    match goal with
    | |- context [applied d ?b ?x] =>
        pose proof (applied_completed d b x) as Hc;
        set (w0 := x) in *; seal (applied d b w0)
    end.
    simpl. rewrite restoreCompleted_In, Hc. split.
    + intros [H | H]; [right | left; exact H].
      destruct (handleResults_completed_from _ _ _ H) as [[] | H1]. exact H1.
    + intros [H | (res & Hin & <- & Hst & Ha)]; [right; exact H | left].
      apply handleResults_completed_to; auto.
Qed.

(** ** The two copies of [parseResult] *)

(** X12. The copy of the class in src/unnamed/part_000 decodes a string
    result and stops there; [parseResult] of KeyBridgeClient.ts also
    unwraps.  The two give the same value for every result, except where
    the named file unwraps: a string that decodes to an object with a
    [result] field, or an object with a [method] and a [result] field.
    There the named file gives the field and the older copy the whole
    object. *)
Theorem parseResult_copies_agree :
  forall result,
    parseResult result = OtherCopy.parseResult JSON_parse result
    \/ exists fields r,
         get_field "result" fields = Some r
         /\ parseResult result = Some r
         /\ ((exists s, result = Some (JStr s)
                        /\ JSON_parse s = Some (JObj fields)
                        /\ OtherCopy.parseResult JSON_parse result
                           = Some (JObj fields))
             \/ (result = Some (JObj fields)
                 /\ get_field "method" fields <> None
                 /\ OtherCopy.parseResult JSON_parse result = result)).
Proof.
  intros [[ | b | n | s | l | fields] | ]; simpl; auto.
  - destruct (JSON_parse s) as [[ | b | n | s' | l | fields] | ] eqn:Hp; auto.
    destruct (get_field "result" fields) as [r | ] eqn:Hr; auto.
    right. exists fields, r. split; [exact Hr | split; [reflexivity | ]].
    left. exists s. auto.
  - destruct (get_field "method" fields) as [m | ] eqn:Hm; auto.
    destruct (get_field "result" fields) as [r | ] eqn:Hr; auto.
    right. exists fields, r. split; [exact Hr | split; [reflexivity | ]].
    right. split; [reflexivity | split; [congruence | reflexivity]].
Qed.

(** ** Work never stalls *)

Lemma processIfNeeded_not_waiting w : ~ waiting (processIfNeeded w).
Proof.
  unfold waiting, processIfNeeded.
  destruct (broken w) eqn:Hb; simpl; [intros (_ & _ & H & _); congruence | ].
  destruct (processing w) eqn:Hp; simpl; [intros (_ & _ & _ & H); congruence | ].
  destruct (truthy (key w)) eqn:Hk; simpl; [ | intros (_ & H & _); congruence].
  destruct (hasWork w) eqn:Hw; simpl; [ | intros (H & _); congruence].
  unfold processBatch. simpl. rewrite Hb.
  destruct (key w) as [[ | c k] | ]; try discriminate.
  simpl. intros (_ & _ & _ & H). discriminate.
Qed.

Lemma setKey_not_waiting k w : ~ waiting (setKey k w).
Proof.
  unfold waiting, setKey. rewrite resetState_eq. simpl.
  destruct (trim (or_else k EmptyString)) as [ | c s]; simpl;
    intros (H & _); discriminate.
Qed.

Lemma initializeConnection_catch_waiting e w :
  waiting (initializeConnection_catch e w) -> waiting w.
Proof.
  unfold waiting, initializeConnection_catch, setKey_catch.
  destruct (response e) as [rsp | ]; [destruct (status rsp =? 404) | ]; simpl;
    auto.
  intros (_ & H & _). discriminate.
Qed.

Lemma initializeConnection_catch_timers e w :
  timers (initializeConnection_catch e w) = timers w.
Proof.
  unfold initializeConnection_catch, setKey_catch.
  destruct (response e) as [rsp | ]; [destruct (status rsp =? 404) | ];
    reflexivity.
Qed.

Lemma initializeConnection_resolved_waiting body w :
  waiting (initializeConnection_resolved body w) ->
  waiting w
  /\ timers (initializeConnection_resolved body w) = timers w.
Proof.
  unfold initializeConnection_resolved.
  destruct (validateInitResponse body) as [err | [d | ]].
  - intros H. split; [exact (initializeConnection_catch_waiting _ _ H) | ].
    apply initializeConnection_catch_timers.
  - destruct (intervalMs d) as [n | ]; [destruct (0 <? n) | ]; simpl; auto.
  - intros H. split; [exact (initializeConnection_catch_waiting _ _ H) | ].
    apply initializeConnection_catch_timers.
Qed.

Lemma finally_waiting w :
  waiting (processIfNeeded_finally w) ->
  hasWork w = true /\ truthy (key w) = true /\ broken w = false.
Proof.
  unfold waiting, processIfNeeded_finally. simpl. intros (H1 & H2 & H3 & _).
  auto.
Qed.

Lemma processBatch_resolved_awake r body w :
  waiting (processBatch_resolved r body w) ->
  timers (processBatch_resolved r body w) <> [].
Proof.
  unfold processBatch_resolved.
  assert (Herr : forall e x,
            waiting (processIfNeeded_finally (handleBatchError e r x)) ->
            timers (processIfNeeded_finally (handleBatchError e r x)) <> []).
  { intros e x H.
    destruct (isCritical e) eqn:Hc.
    - destruct (finally_waiting _ H) as (Hw & _). revert Hw.
      rewrite (handleBatchError_critical e r x Hc), resetState_eq. simpl.
      discriminate.
    - rewrite (handleBatchError_transient e r x Hc). simpl.
      destruct (timers x); discriminate. }
  destruct (validateInitResponse body) as [err | [d | ]]; try apply Herr.
  destruct (handleBatchResponse d (batchToSend r) w) as [wx [e0 | ]];
    [apply Herr | ].
  destruct (hasWork wx) eqn:Hw.
  - intros _. simpl. destruct (timers wx); discriminate.
  - intros H. destruct (finally_waiting _ H) as (Hw' & _). congruence.
Qed.

Lemma processBatch_rejected_awake r e w :
  waiting (processBatch_rejected r e w) ->
  timers (processBatch_rejected r e w) <> [].
Proof.
  unfold processBatch_rejected. intros H.
  destruct (isCritical e) eqn:Hc.
  - destruct (finally_waiting _ H) as (Hw & _). revert Hw.
    rewrite (handleBatchError_critical e r w Hc), resetState_eq. simpl.
    discriminate.
  - rewrite (handleBatchError_transient e r w Hc). simpl.
    destruct (timers w); discriminate.
Qed.

Lemma step_awake w ev w' :
  (waiting w -> timers w <> []) ->
  step w ev = Some w' ->
  waiting w' -> timers w' <> [].
Proof.
  intros Hinv Hstep Hw. destruct ev; simpl in Hstep.
  - injection Hstep as <-. destruct (setKey_not_waiting _ _ Hw).
  - destruct (awaitingInit w) as [ | n]; [discriminate | ]. injection Hstep as <-.
    destruct (initializeConnection_resolved_waiting _ _ Hw) as [Hw0 Ht].
    rewrite Ht. apply Hinv. exact Hw0.
  - destruct (awaitingInit w) as [ | n]; [discriminate | ]. injection Hstep as <-.
    unfold initializeConnection_rejected in *.
    rewrite initializeConnection_catch_timers.
    apply Hinv. exact (initializeConnection_catch_waiting _ _ Hw).
  - injection Hstep as <-. exfalso. revert Hw. unfold executeOrFallback.
    destruct (broken w || negb (truthy (key w))) eqn:Hg.
    + unfold waiting. simpl. intros (_ & Hk & Hb & _).
      rewrite Hk, Hb in Hg. discriminate.
    + apply processIfNeeded_not_waiting.
  - destruct (nth_error (awaitingBatch w) i) as [r | ]; [ | discriminate].
    injection Hstep as <-. apply processBatch_resolved_awake. exact Hw.
  - destruct (nth_error (awaitingBatch w) i) as [r | ]; [ | discriminate].
    injection Hstep as <-. apply processBatch_rejected_awake. exact Hw.
  - destruct (nth_error (timers w) i); [ | discriminate].
    injection Hstep as <-. destruct (processIfNeeded_not_waiting _ Hw).
Qed.

Lemma reachable_awake w : reachable w -> waiting w -> timers w <> [].
Proof.
  revert w.
  apply (reachable_invariant JSON_parse (fun w => waiting w -> timers w <> [])).
  - intros (H & _). discriminate.
  - intros w0 ev w' Hinv Hstep. exact (step_awake w0 ev w' Hinv Hstep).
Qed.

(** X13. Work never stalls.  In every reachable state in which the
    client has work (a request pending or active, or a completed key to
    report), a key and a connection that is not broken, and no round is
    running, a timer is armed that will start the next round.  Right
    after [setKey], after a call of [executeOrFallback] and after a timer
    has fired, the client is never in that state: it has no work, or a
    round is running, or it is not connected. *)
Theorem work_is_never_stalled :
  forall w,
    reachable w ->
    (hasWork w = true -> truthy (key w) = true -> broken w = false ->
     processing w = false -> timers w <> [])
    /\ (forall ev w',
          step w ev = Some w' ->
          match ev with
          | CallSetKey _ | CallExecuteOrFallback _ _ _ | TimerFired _ =>
              hasWork w' = false \/ truthy (key w') = false
              \/ broken w' = true \/ processing w' = true
          | _ => True
          end).
Proof.
  intros w Hr. split.
  - intros H1 H2 H3 H4. apply (reachable_awake w Hr). repeat split; assumption.
  - intros ev w' Hstep.
    assert (Hdec : ~ waiting w' ->
              hasWork w' = false \/ truthy (key w') = false
              \/ broken w' = true \/ processing w' = true).
    { unfold waiting. intros H.
      destruct (hasWork w'); [ | auto].
      destruct (truthy (key w')); [ | auto].
      destruct (broken w'); [auto | ].
      destruct (processing w'); [auto | ].
      exfalso. apply H. auto. }
    destruct ev; simpl in Hstep; try exact I; apply Hdec.
    + injection Hstep as <-. apply setKey_not_waiting.
    + injection Hstep as <-. unfold executeOrFallback.
      destruct (broken w || negb (truthy (key w))) eqn:Hg.
      * unfold waiting. simpl. intros (_ & Hk & Hb & _).
        rewrite Hk, Hb in Hg. discriminate.
      * apply processIfNeeded_not_waiting.
    + destruct (nth_error (timers w) i); [ | discriminate].
      injection Hstep as <-. apply processIfNeeded_not_waiting.
Qed.

End Further.

(** ** The further properties at the scenarios *)

Lemma queues_are_maps_witness :
  reachable JSON.parse (worldAfter resolvedA)
  /\ queuesWellFormed (worldAfter resolvedA).
Proof.
  assert (Hr : reachable JSON.parse (worldAfter resolvedA)).
  { exists resolvedA. vm_compute. reflexivity. }
  split; [exact Hr | ].
  exact (queues_are_maps JSON.parse (worldAfter resolvedA) Hr).
Defined.

Lemma created_acknowledgments_witness :
  created (withCreated [acknowledged "A"]) = Some (map Some [acknowledged "A"])
  /\ resultsThrow (withCreated [acknowledged "A"]) = false
  /\ createdOf (withCreated [acknowledged "A"]) = [acknowledged "A"]
  /\ JsMap.get "A"
       (active (fst (handleBatchResponse JSON.parse
                       (withCreated [acknowledged "A"])
                       (batchToSend roundA)
                       (set_awaitingBatch [] (worldAfter submitA)))))
     = JsMap.get "A" (batchToSend roundA)
  /\ pending (fst (handleBatchResponse JSON.parse
                     (withCreated [acknowledged "A"])
                     (batchToSend roundA)
                     (set_awaitingBatch [] (worldAfter submitA))))
     = pending (set_awaitingBatch [] (worldAfter submitA)).
Proof.
  destruct (created_acknowledgments JSON.parse (withCreated [acknowledged "A"])
              (batchToSend roundA) (set_awaitingBatch [] (worldAfter submitA)))
    as (H0 & H1 & _ & _ & _ & H5).
  split; [reflexivity | split; [reflexivity | ]].
  split; [exact (H0 [acknowledged "A"] eq_refl eq_refl) | ].
  split; [ | exact H5].
  rewrite (H1 "A"). reflexivity.
Defined.

Lemma done_result_settles_witness :
  JsMap.get "A" (active (worldAfter activeA)) = JsMap.get "A" (batchToSend roundA)
  /\ NoDup (JsMap.keys (active (worldAfter activeA)))
  /\ JsMap.get "A" (active (handleResult JSON.parse (done42 "A")
                              (worldAfter activeA))) = None
  /\ In "A" (completed (handleResult JSON.parse (done42 "A")
                          (worldAfter activeA))).
Proof.
  assert (Hg : JsMap.get "A" (active (worldAfter activeA))
               = JsMap.get "A" (batchToSend roundA)).
  { vm_compute. reflexivity. }
  assert (Hn : NoDup (JsMap.keys (active (worldAfter activeA)))).
  { vm_compute. repeat constructor; simpl; auto. }
  split; [exact Hg | split; [exact Hn | ]].
  destruct (done_result_settles JSON.parse (done42 "A") (worldAfter activeA))
    as (_ & _ & H3).
  destruct (H3 {| requestKey := "A"; call := userCurrent; promise := 0;
                  timestamp := 1 |} Hg eq_refl Hn) as (_ & Hgone & Hdone & _).
  split; [exact Hgone | exact Hdone].
Defined.

Lemma unaccepted_response_is_transient_witness :
  (forall d, validateInitResponse NotAnObject <> inr (Some d))
  /\ error (processBatch_resolved JSON.parse roundA NotAnObject
              (set_awaitingBatch [] (worldAfter submitA)))
     = Some "Invalid response structure"
  /\ timers (processBatch_resolved JSON.parse roundA NotAnObject
               (set_awaitingBatch [] (worldAfter submitA)))
     = timers (set_awaitingBatch [] (worldAfter submitA))
         ++ [Z.min 2000 (pollRate (set_awaitingBatch [] (worldAfter submitA)))].
Proof.
  assert (Hv : forall d, validateInitResponse NotAnObject <> inr (Some d)).
  { intros d. discriminate. }
  split; [exact Hv | ].
  destruct (unaccepted_response_is_transient JSON.parse roundA NotAnObject
              (set_awaitingBatch [] (worldAfter submitA))) as [_ H].
  destruct (H Hv) as (msg & _ & _ & _ & _ & _ & _ & _ & Ht).
  split; [reflexivity | exact Ht].
Defined.

Lemma no_key_no_traffic_witness :
  key initial = None
  /\ run JSON.parse initial [CallExecuteOrFallback "A" 1 userCurrent]
     = Some (worldAfter [CallExecuteOrFallback "A" 1 userCurrent])
  /\ posts (effects (worldAfter [CallExecuteOrFallback "A" 1 userCurrent]))
     = posts (effects initial)
  /\ fallbacks (effects (worldAfter [CallExecuteOrFallback "A" 1 userCurrent]))
     = 1%nat.
Proof.
  assert (Hrun : run JSON.parse initial [CallExecuteOrFallback "A" 1 userCurrent]
                 = Some (worldAfter [CallExecuteOrFallback "A" 1 userCurrent]))
    by reflexivity.
  assert (Hev : Forall (fun ev => isSetKey ev = false)
                  [CallExecuteOrFallback "A" 1 userCurrent]).
  { repeat constructor. }
  destruct (no_key_no_traffic JSON.parse _ initial _ eq_refl Hev Hrun)
    as (_ & Hp & _ & Hf).
  split; [reflexivity | split; [exact Hrun | split; [exact Hp | exact Hf]]].
Defined.

Lemma posts_are_in_order_witness :
  reachable JSON.parse (worldAfter resolvedA)
  /\ In (PostInit "abc" 5000) (effects (worldAfter resolvedA))
  /\ trim "abc" = "abc".
Proof.
  assert (Hr : reachable JSON.parse (worldAfter resolvedA)).
  { exists resolvedA. vm_compute. reflexivity. }
  assert (Hin : In (PostInit "abc" 5000) (effects (worldAfter resolvedA))).
  { vm_compute. repeat (try (left; reflexivity); right). }
  split; [exact Hr | split; [exact Hin | ]].
  destruct (posts_are_in_order JSON.parse (worldAfter resolvedA) Hr)
    as (_ & Hinit & _).
  exact (proj1 (proj2 (Hinit "abc" 5000 Hin))).
Defined.

Lemma round_payload_witness :
  reachable JSON.parse (worldAfter activeA)
  /\ hasWork (worldAfter activeA) = true
  /\ statusRequestKeys (payloadOf "abc" (worldAfter activeA)) = ["A"]
  /\ NoDup (statusRequestKeys (payloadOf "abc" (worldAfter activeA)))
  /\ processing (processIfNeeded (worldAfter activeA)) = true.
Proof.
  assert (Hr : reachable JSON.parse (worldAfter activeA)).
  { exists activeA. vm_compute. reflexivity. }
  destruct (round_payload JSON.parse (worldAfter activeA) "abc" Hr
              eq_refl eq_refl eq_refl eq_refl)
    as (_ & _ & _ & Hnd & _ & _ & _ & _ & _ & Hp).
  split; [exact Hr | split; [reflexivity | split; [reflexivity | ]]].
  split; [exact Hnd | exact Hp].
Defined.

Lemma failed_initialization_witness :
  broken (initializeConnection_rejected (httpError 404 (Some "gone")) initial) = true
  /\ error (initializeConnection_rejected (httpError 404 (Some "gone")) initial)
     = Some "KEY_NOT_FOUND"
  /\ run JSON.parse initial [CallSetKey (Some "abc"); InitRejected timeoutError]
     = Some (worldAfter [CallSetKey (Some "abc"); InitRejected timeoutError])
  /\ isConnected (worldAfter [CallSetKey (Some "abc"); InitRejected timeoutError])
     = false
  /\ st_connected (getState (worldAfter [CallSetKey (Some "abc");
                                         InitRejected timeoutError]))
     = true.
Proof.
  destruct (failed_initialization JSON.parse (httpError 404 (Some "gone")) initial)
    as (H404 & _ & _).
  destruct (H404 _ eq_refl eq_refl) as (Hb & _ & He & _).
  split; [exact Hb | split; [exact He | ]].
  assert (Hrun : run JSON.parse initial
                   [CallSetKey (Some "abc"); InitRejected timeoutError]
                 = Some (worldAfter [CallSetKey (Some "abc");
                                     InitRejected timeoutError]))
    by reflexivity.
  split; [exact Hrun | ].
  destruct (failed_initialization JSON.parse timeoutError initial)
    as (_ & _ & Hretry).
  assert (Hno : forall rsp, response timeoutError = Some rsp -> status rsp <> 404).
  { intros rsp H. discriminate H. }
  assert (Hmsg : getErrorMessage timeoutError <> EmptyString).
  { discriminate. }
  destruct (Hretry (Some "abc") "A" 1 userCurrent _ eq_refl Hno Hmsg Hrun)
    as (Hc & Hs & _).
  split; [exact Hc | exact Hs].
Defined.

Lemma successful_initialization_witness :
  validateInitResponse (Wrapped true (Some (withInterval 1000)))
  = inr (Some (withInterval 1000))
  /\ run JSON.parse initial connect = Some (worldAfter connect)
  /\ key (worldAfter connect) = Some "abc"
  /\ isConnected (worldAfter connect) = true
  /\ pollRate (worldAfter connect) = 1000.
Proof.
  assert (Hrun : run JSON.parse initial connect = Some (worldAfter connect))
    by reflexivity.
  destruct (successful_initialization JSON.parse (Some " abc ") initial
              (Wrapped true (Some (withInterval 1000))) (withInterval 1000)
              (worldAfter connect) eq_refl eq_refl Hrun)
    as (Hk & _ & _ & Hc & _ & Hp & _).
  split; [reflexivity | split; [exact Hrun | split; [exact Hk | ]]].
  split; [exact Hc | exact Hp].
Defined.

Lemma completed_keys_are_reported_witness :
  reachable JSON.parse (worldAfter activeA)
  /\ hasWork (worldAfter activeA) = true
  /\ step JSON.parse (processIfNeeded (worldAfter activeA))
       (BatchResolved 0 (Direct (withResults [done42 "A"])))
     = Some (after (processIfNeeded (worldAfter activeA))
               [BatchResolved 0 (Direct (withResults [done42 "A"]))])
  /\ In "A" (completed (after (processIfNeeded (worldAfter activeA))
                          [BatchResolved 0 (Direct (withResults [done42 "A"]))])).
Proof.
  assert (Hr : reachable JSON.parse (worldAfter activeA)).
  { exists activeA. vm_compute. reflexivity. }
  assert (Hk : key (worldAfter activeA) = Some "abc") by (vm_compute; reflexivity).
  assert (Hb : broken (worldAfter activeA) = false) by (vm_compute; reflexivity).
  assert (Hp : processing (worldAfter activeA) = false)
    by (vm_compute; reflexivity).
  assert (Hw : hasWork (worldAfter activeA) = true) by (vm_compute; reflexivity).
  assert (Hstep : step JSON.parse (processIfNeeded (worldAfter activeA))
                    (BatchResolved (List.length (awaitingBatch (worldAfter activeA)))
                       (Direct (withResults [done42 "A"])))
                  = Some (after (processIfNeeded (worldAfter activeA))
                            [BatchResolved 0 (Direct (withResults [done42 "A"]))])).
  { vm_compute. reflexivity. }
  assert (Hres : exists res,
             In res (resultsOf (withResults [done42 "A"]))
             /\ ServerResult.requestKey res = "A"
             /\ ServerResult.status res = StatusDone
             /\ In "A" (JsMap.keys (active (worldAfter activeA)))).
  { exists (done42 "A"). split; [left; reflexivity | ].
    split; [reflexivity | split; [reflexivity | ]].
    vm_compute. left. reflexivity. }
  split; [exact Hr | split; [exact Hw | split; [vm_compute; reflexivity | ]]].
  destruct (completed_keys_are_reported JSON.parse (worldAfter activeA) "abc" Hr
              Hk Hb Hp Hw) as (_ & Hok & _).
  exact (proj2 (Hok (Direct (withResults [done42 "A"])) (withResults [done42 "A"])
                  _ eq_refl eq_refl Hstep "A") Hres).
Defined.

(** * The mock data *)

Lemma normalizeParams_idempotent params :
  normalizeParams (normalizeParams params) = normalizeParams params.
Proof.
  destruct params as [[ | b | n | s | [ | x l] | [ | f fs]] | ]; reflexivity.
Qed.

Lemma normalizeParams_noParams params :
  noParams params -> params <> None -> normalizeParams params = Some (JObj []).
Proof.
  intros [H | [H | H]] Hne; subst; [congruence | reflexivity | reflexivity].
Qed.

Lemma strictEq_refl a : strictEq a a = true.
Proof.
  destruct a as [s | ]; simpl; [apply String.eqb_refl | reflexivity].
Qed.

Lemma strictEq_sym a b : strictEq a b = strictEq b a.
Proof.
  destruct a as [x | ], b as [y | ]; simpl; try reflexivity.
  apply String.eqb_sym.
Qed.

Lemma strictEq_eq a b : strictEq a b = true <-> a = b.
Proof.
  destruct a as [x | ], b as [y | ]; simpl.
  - rewrite String.eqb_eq. split; congruence.
  - split; discriminate.
  - split; discriminate.
  - split; reflexivity.
Qed.

Lemma find_ext_eq {A : Type} (f g : A -> bool) (l : list A) :
  (forall x, f x = g x) -> find f l = find g l.
Proof.
  intros H. induction l as [ | x l IH]; simpl; [reflexivity | ].
  rewrite H, IH. reflexivity.
Qed.

Lemma get_field_set_field_eq name v fields :
  get_field name (set_field name v fields) = Some v.
Proof.
  induction fields as [ | [k x] rest IH]; simpl.
  - rewrite String.eqb_refl. reflexivity.
  - destruct (String.eqb name k) eqn:E; simpl; rewrite E; [reflexivity | exact IH].
Qed.

Lemma get_field_set_field_ne name other v fields :
  other <> name ->
  get_field other (set_field name v fields) = get_field other fields.
Proof.
  intros Hne. induction fields as [ | [k x] rest IH]; simpl.
  - destruct (String.eqb_spec other name); [contradiction | reflexivity].
  - destruct (String.eqb_spec name k) as [-> | Hk]; simpl.
    + destruct (String.eqb_spec other k); [contradiction | reflexivity].
    + destruct (String.eqb other k); [reflexivity | exact IH].
Qed.

(** ** The loop of [loadMockData] *)

Lemma loadFiles_eq files : forall acc,
  fold_left loadFile files acc
  = (fst acc
       ++ flat_map (fun f : Json * Z =>
                      if isApiObjectFieldsType (Some (fst f))
                      then [{| ff_data := fst f; ff_mtime := snd f |}]
                      else []) files,
     snd acc
       ++ flat_map (fun f : Json * Z =>
                      if isMockFile (fst f) then [mockOf (fst f)] else []) files).
Proof.
  induction files as [ | [c t] files IH]; intros [ff mm].
  - simpl. rewrite !app_nil_r. reflexivity.
  - change (fold_left loadFile ((c, t) :: files) (ff, mm))
      with (fold_left loadFile files (loadFile (ff, mm) (c, t))).
    rewrite IH. unfold loadFile, isMockFile. cbn [flat_map fst snd].
    fold (mockOf c).
    destruct (isApiObjectFieldsType (Some c));
      destruct (isMockMethodType (Some c));
      cbn [fst snd negb andb app]; rewrite <- ?app_assoc; reflexivity.
Qed.

Lemma flat_map_mocks files :
  flat_map (fun f : Json * Z =>
              if isMockFile (fst f) then [mockOf (fst f)] else []) files
  = map mockOf (filter isMockFile (map fst files)).
Proof.
  induction files as [ | [c t] files IH]; simpl; [reflexivity | ].
  rewrite IH. destruct (isMockFile c); reflexivity.
Qed.

Lemma loadMockData_mocks files :
  methodMocks (loadMockData true files)
  = map mockOf (filter isMockFile (map fst files)).
Proof.
  unfold loadMockData. simpl. rewrite loadFiles_eq. simpl.
  apply flat_map_mocks.
Qed.

Lemma loadMockData_fields files :
  latestFields (loadMockData true files)
  = match sortByMtime
            (flat_map (fun f : Json * Z =>
                         if isApiObjectFieldsType (Some (fst f))
                         then [{| ff_data := fst f; ff_mtime := snd f |}]
                         else []) files) with
    | f :: _ => if truthyValue (Some (ff_data f)) then ff_data f else JNull
    | [] => JNull
    end.
Proof.
  unfold loadMockData. simpl. rewrite loadFiles_eq. reflexivity.
Qed.

Lemma isMockFile_inv c :
  isMockFile c = true ->
  exists fields s r,
    c = JObj fields
    /\ get_field "placement" fields = None
    /\ get_field "method" fields = Some (JStr s)
    /\ get_field "result" fields = Some r.
Proof.
  unfold isMockFile, isApiObjectFieldsType, isMockMethodType, has_field.
  destruct c as [ | b | n | s | l | fields]; try (simpl; discriminate).
  destruct (get_field "placement" fields) eqn:Hp; [simpl; discriminate | ].
  destruct (get_field "method" fields) as [[ | b | n | s | l | fs] | ] eqn:Hm;
    try (simpl; discriminate).
  destruct (get_field "result" fields) as [r | ] eqn:Hr; [ | simpl; discriminate].
  intros _. exists fields, s, r. repeat split; assumption.
Qed.

Lemma mockOf_params c :
  mm_params (mockOf c) <> None
  /\ mm_params (mockOf c) <> Some JNull
  /\ mm_params (mockOf c) <> Some (JArr [])
  /\ normalizeParams (mm_params (mockOf c)) = mm_params (mockOf c).
Proof.
  unfold mockOf. cbn [mm_params].
  split; [ | split; [ | split; [ | apply normalizeParams_idempotent]]];
    destruct (field "params" c) as [[ | b | n | s | [ | x l] | [ | f fs]] | ];
    simpl; discriminate.
Qed.

Lemma mockOf_noParams c :
  noParams (field "params" c) \/ field "params" c = Some JNull ->
  mm_params (mockOf c) = Some (JObj []).
Proof.
  unfold mockOf, noParams. simpl.
  intros [[H | [H | H]] | H]; rewrite H; reflexivity.
Qed.

(** ** The sort of the fields files *)

Lemma sortByMtime_head l :
  l <> [] ->
  exists h rest,
    sortByMtime l = h :: rest
    /\ In h l
    /\ forall g, In g l -> ff_mtime g <= ff_mtime h.
Proof.
  induction l as [ | f l IH]; intros Hne; [congruence | ].
  simpl. destruct l as [ | f' l'].
  - simpl. exists f, []. split; [reflexivity | split; [left; reflexivity | ]].
    intros g [<- | []]. apply Z.le_refl.
  - destruct IH as (h & rest & Hs & Hin & Hmax); [discriminate | ].
    change (fold_right insertByMtime [] (f' :: l')) with (sortByMtime (f' :: l')).
    rewrite Hs. simpl.
    destruct (Z.leb_spec (ff_mtime h) (ff_mtime f)) as [Hle | Hlt].
    + exists f, (h :: rest). split; [reflexivity | split; [left; reflexivity | ]].
      intros g [<- | Hg]; [apply Z.le_refl | ].
      apply Z.le_trans with (ff_mtime h); [apply Hmax, Hg | exact Hle].
    + exists h, (insertByMtime f rest).
      split; [reflexivity | split; [right; exact Hin | ]].
      intros g [<- | Hg]; [apply Z.lt_le_incl, Hlt | apply Hmax, Hg].
Qed.

Lemma fieldsFiles_In files f :
  In f (flat_map (fun f : Json * Z =>
                    if isApiObjectFieldsType (Some (fst f))
                    then [{| ff_data := fst f; ff_mtime := snd f |}]
                    else []) files)
  <-> In (ff_data f, ff_mtime f) files
      /\ isApiObjectFieldsType (Some (ff_data f)) = true.
Proof.
  rewrite in_flat_map. split.
  - intros ([c t] & Hin & Hf). cbn [fst snd] in Hf.
    destruct (isApiObjectFieldsType (Some c)) eqn:E; [ | destruct Hf].
    destruct Hf as [<- | []]. cbn [ff_data ff_mtime]. auto.
  - intros [Hin Hf]. exists (ff_data f, ff_mtime f). split; [exact Hin | ].
    cbn [fst snd]. rewrite Hf. left. destruct f; reflexivity.
Qed.

Lemma isApiObjectFieldsType_truthy c :
  isApiObjectFieldsType (Some c) = true -> truthyValue (Some c) = true /\ c <> JNull.
Proof.
  destruct c; simpl; try discriminate. intros _. split; [reflexivity | discriminate].
Qed.

Section MockProperties.

Variable JSON_parse : string -> option Json.
Variable JSON_stringify : unknown -> option string.

Set Default Proof Using "Type".

Abbreviation areParamsEqual := (areParamsEqual JSON_stringify).
Abbreviation findMock := (findMock JSON_stringify).
Abbreviation normalizeMockFile := (normalizeMockFile JSON_parse).
Abbreviation normalizeMockFiles := (normalizeMockFiles JSON_parse).

(** ** The comparison of parameters *)

Lemma areParamsEqual_normalized p q :
  normalizeParams p = normalizeParams q ->
  forall x, areParamsEqual x p = areParamsEqual x q.
Proof.
  intros H x. unfold areParamsEqual. rewrite H. reflexivity.
Qed.

Lemma areParamsEqual_sym p q : areParamsEqual p q = areParamsEqual q p.
Proof.
  unfold areParamsEqual. apply strictEq_sym.
Qed.

(** X14. [areParamsEqual] is an equivalence that normalization does not
    change: it holds of a value and itself, does not depend on the order
    of its arguments, is transitive, gives the same for a value and for
    its normal form, and holds whenever the normal forms are the same,
    whatever [JSON.stringify] is; and [normalizeParams] changes nothing
    the second time. *)
Theorem params_comparison :
  forall x y z,
    areParamsEqual x x = true
    /\ areParamsEqual x y = areParamsEqual y x
    /\ (areParamsEqual x y = true -> areParamsEqual y z = true ->
        areParamsEqual x z = true)
    /\ areParamsEqual (normalizeParams x) y = areParamsEqual x y
    /\ (normalizeParams x = normalizeParams y -> areParamsEqual x y = true)
    /\ normalizeParams (normalizeParams x) = normalizeParams x.
Proof.
  intros x y z.
  split; [unfold areParamsEqual; apply strictEq_refl | ].
  split; [apply areParamsEqual_sym | ].
  split.
  { unfold areParamsEqual. rewrite !strictEq_eq. congruence. }
  split.
  { unfold areParamsEqual. rewrite normalizeParams_idempotent. reflexivity. }
  split; [ | apply normalizeParams_idempotent].
  intros H. unfold areParamsEqual. rewrite H. apply strictEq_refl.
Qed.

(** X15. No parameters, an empty array and an empty object are the same
    to [findMock]: over any mocks and for any method it gives the same
    answer, with the same delay, and reports a missing mock in the same
    cases.  To [areParamsEqual] the empty array and the empty object are
    equal to each other, and equal to the same values. *)
Theorem empty_params_are_interchangeable :
  forall p q,
    noParams p -> noParams q ->
    (forall methodMocks method,
        findMock methodMocks method p = findMock methodMocks method q)
    /\ (p <> None -> q <> None ->
        areParamsEqual p q = true
        /\ forall x, areParamsEqual x p = areParamsEqual x q
                     /\ areParamsEqual p x = areParamsEqual q x).
Proof.
  intros p q Hp Hq.
  assert (Hd : forall r, noParams r ->
            normalizeParams match r with
                            | None => Some (JObj [])
                            | Some _ => r
                            end = Some (JObj [])).
  { intros r [H | [H | H]]; subst; reflexivity. }
  split.
  - intros mocks method. unfold findMock.
    rewrite (find_ext_eq
               (fun m => String.eqb (mm_method m) method
                         && areParamsEqual (Some (nullish (mm_params m) (JObj [])))
                              match p with
                              | None => Some (JObj [])
                              | Some _ => p
                              end)
               (fun m => String.eqb (mm_method m) method
                         && areParamsEqual (Some (nullish (mm_params m) (JObj [])))
                              match q with
                              | None => Some (JObj [])
                              | Some _ => q
                              end)); [reflexivity | ].
    intros m. f_equal. apply areParamsEqual_normalized.
    rewrite (Hd p Hp), (Hd q Hq). reflexivity.
  - intros Hpn Hqn.
    assert (Hpq : normalizeParams p = normalizeParams q).
    { rewrite (normalizeParams_noParams p Hp Hpn),
        (normalizeParams_noParams q Hq Hqn). reflexivity. }
    split.
    + unfold areParamsEqual. rewrite Hpq. apply strictEq_refl.
    + intros x. split; [apply areParamsEqual_normalized, Hpq | ].
      rewrite (areParamsEqual_sym p x), (areParamsEqual_sym q x).
      apply areParamsEqual_normalized, Hpq.
Qed.

(** ** What [loadMockData] loads *)

(** X16. Outside the development mode [loadMockData] loads nothing.  In
    the development mode its mocks are, in the order of the files, the
    contents that have a string [method] and a [result] but no
    [placement]; a content with a [placement] is never a mock.  Every
    loaded mock has a result and parameters that are defined, not null,
    not the empty array and in normal form: absent or null parameters and
    the empty array are loaded as the empty object. *)
Theorem loaded_mocks :
  forall DEV files,
    (DEV = false -> loadMockData DEV files = defaultMockData)
    /\ (DEV = true ->
        methodMocks (loadMockData DEV files)
        = map mockOf (filter isMockFile (map fst files)))
    /\ (forall c, isApiObjectFieldsType (Some c) = true -> isMockFile c = false)
    /\ (forall m, In m (methodMocks (loadMockData DEV files)) ->
          mm_params m <> None /\ mm_params m <> Some JNull
          /\ mm_params m <> Some (JArr [])
          /\ normalizeParams (mm_params m) = mm_params m
          /\ mm_result m <> None)
    /\ (forall c, In c (map fst files) -> isMockFile c = true -> DEV = true ->
          (noParams (field "params" c) \/ field "params" c = Some JNull) ->
          In {| mm_method := methodOf c; mm_params := Some (JObj []);
                mm_result := field "result" c; mm_delay := field "delay" c |}
            (methodMocks (loadMockData DEV files))).
Proof.
  intros DEV files.
  split; [intros ->; reflexivity | ].
  split; [intros ->; apply loadMockData_mocks | ].
  split.
  { intros c H. unfold isMockFile. rewrite H. reflexivity. }
  split.
  - intros m Hin. destruct DEV; [ | destruct Hin].
    rewrite loadMockData_mocks in Hin. apply in_map_iff in Hin.
    destruct Hin as (c & <- & Hc). apply filter_In in Hc. destruct Hc as [_ Hc].
    destruct (mockOf_params c) as (H1 & H2 & H3 & H4).
    split; [exact H1 | split; [exact H2 | split; [exact H3 | split; [exact H4 | ]]]].
    destruct (isMockFile_inv c Hc) as (fields & s & r & -> & _ & _ & Hr).
    simpl. rewrite Hr. discriminate.
  - intros c Hin Hc -> Hp. rewrite loadMockData_mocks.
    apply in_map_iff. exists c. split.
    + pose proof (mockOf_noParams c Hp) as Hn.
      unfold mockOf in *. cbn [mm_params] in Hn. rewrite Hn. reflexivity.
    + apply filter_In. split; assumption.
Qed.

(** X17. The fields the development API hands to the application always
    have a [placement].  The loader gives null for the latest fields
    exactly when it runs in the development mode over files none of which
    has a [placement]; otherwise it gives a content with a [placement]:
    in the development mode, a file on which the clock read the latest
    time of all such files. *)
Theorem latest_fields :
  forall DEV files,
    (latestFields (getMockData DEV files) = JNull <->
       DEV = true
       /\ forall c, In c (map fst files) -> isApiObjectFieldsType (Some c) = false)
    /\ (latestFields (getMockData DEV files) <> JNull ->
        isApiObjectFieldsType (Some (latestFields (getMockData DEV files))) = true)
    /\ (DEV = true -> latestFields (getMockData DEV files) <> JNull ->
        exists t,
          In (latestFields (getMockData DEV files), t) files
          /\ forall c t', In (c, t') files ->
               isApiObjectFieldsType (Some c) = true -> t' <= t)
    /\ isApiObjectFieldsType
         (Some (devFields (latestFields (getMockData DEV files)))) = true.
Proof.
  intros DEV files. unfold getMockData. destruct DEV.
  2:{ simpl. split; [split; [discriminate | intros [H _]; discriminate] | ].
      split; [reflexivity | split; [discriminate | reflexivity]]. }
  rewrite loadMockData_fields.
  set (ffs := flat_map _ files).
  assert (Hffs : forall f, In f ffs <->
            In (ff_data f, ff_mtime f) files
            /\ isApiObjectFieldsType (Some (ff_data f)) = true)
    by (intros f; apply fieldsFiles_In).
  destruct ffs as [ | f0 ffs'] eqn:E.
  - simpl.
    assert (Hnone : forall c, In c (map fst files) ->
              isApiObjectFieldsType (Some c) = false).
    { intros c Hin. apply in_map_iff in Hin. destruct Hin as ([c' t] & <- & Hin).
      cbn [fst]. destruct (isApiObjectFieldsType (Some c')) eqn:Hc; [ | reflexivity].
      exfalso. apply (proj2 (Hffs {| ff_data := c'; ff_mtime := t |})).
      split; assumption. }
    split; [split; auto | ].
    split; [congruence | split; [congruence | reflexivity]].
  - destruct (sortByMtime_head (f0 :: ffs')) as (h & rest & Hs & Hin & Hmax);
      [discriminate | ].
    rewrite Hs. apply Hffs in Hin. destruct Hin as [Hin Hf].
    destruct (isApiObjectFieldsType_truthy _ Hf) as [Ht Hnn].
    rewrite Ht.
    split.
    { split; [intros H; contradiction | ].
      intros [_ Hnone]. exfalso.
      assert (Hc : isApiObjectFieldsType (Some (ff_data h)) = false).
      { apply Hnone. apply in_map_iff. exists (ff_data h, ff_mtime h). auto. }
      congruence. }
    split; [intros _; exact Hf | ].
    split.
    { intros _ _. exists (ff_mtime h). split; [exact Hin | ].
      intros c t' Hc Hcf.
      apply (Hmax {| ff_data := c; ff_mtime := t' |}).
      apply Hffs. simpl. auto. }
    destruct (ff_data h); simpl in *; try discriminate. exact Hf.
Qed.

(** ** The script and the loader *)

Lemma normalizeContent_rewritten c c' :
  normalizeContent c = Rewritten c' ->
  exists fields,
    c = JObj fields /\ get_field "params" fields = Some (JArr [])
    /\ c' = JObj (set_field "params" (JObj []) fields).
Proof.
  destruct c as [ | b | n | s | l | fields]; simpl; try discriminate.
  destruct (get_field "params" fields) as [[ | b | n | s | [ | x l] | fs] | ] eqn:E;
    try discriminate.
  intros H. injection H as <-. exists fields. auto.
Qed.

Lemma normalized_field name c :
  name <> "params" -> field name (normalized c) = field name c.
Proof.
  intros Hne. unfold normalized.
  destruct (normalizeContent c) as [ | c' | ] eqn:E; try reflexivity.
  destruct (normalizeContent_rewritten c c' E) as (fields & -> & _ & ->).
  simpl. apply get_field_set_field_ne. exact Hne.
Qed.

Lemma normalized_params c :
  normalizeParams (Some (nullish (field "params" (normalized c)) (JObj [])))
  = normalizeParams (Some (nullish (field "params" c) (JObj []))).
Proof.
  unfold normalized.
  destruct (normalizeContent c) as [ | c' | ] eqn:E; try reflexivity.
  destruct (normalizeContent_rewritten c c' E) as (fields & -> & Hp & ->).
  simpl. rewrite get_field_set_field_eq, Hp. reflexivity.
Qed.

Lemma normalized_isObject c :
  match normalized c, c with
  | JObj _, JObj _ => True
  | JObj _, _ => False
  | _, JObj _ => False
  | _, _ => True
  end.
Proof.
  unfold normalized.
  destruct (normalizeContent c) as [ | c' | ] eqn:E.
  - destruct c; exact I.
  - destruct (normalizeContent_rewritten c c' E) as (fields & -> & _ & ->). exact I.
  - destruct c; exact I.
Qed.

Lemma guards_by_fields c c' :
  (forall name, name <> "params" -> field name c' = field name c) ->
  match c', c with
  | JObj _, JObj _ => True
  | JObj _, _ => False
  | _, JObj _ => False
  | _, _ => True
  end ->
  isApiObjectFieldsType (Some c') = isApiObjectFieldsType (Some c)
  /\ isMockMethodType (Some c') = isMockMethodType (Some c).
Proof.
  intros Hf Ho.
  assert (Hpl := Hf "placement" ltac:(discriminate)).
  assert (Hme := Hf "method" ltac:(discriminate)).
  assert (Hre := Hf "result" ltac:(discriminate)).
  destruct c' as [ | b | n | s | l | fs'], c as [ | b0 | n0 | s0 | l0 | fs];
    try reflexivity; try destruct Ho; try (split; reflexivity).
  simpl in *. unfold has_field. rewrite Hpl, Hme, Hre. split; reflexivity.
Qed.

Lemma normalized_mock c :
  isMockFile (normalized c) = isMockFile c
  /\ mockOf (normalized c) = mockOf c.
Proof.
  destruct (guards_by_fields c (normalized c)
              (fun name H => normalized_field name c H) (normalized_isObject c))
    as [Hf Hm].
  split.
  - unfold isMockFile. rewrite Hf, Hm. reflexivity.
  - unfold mockOf, methodOf.
    rewrite normalized_params.
    rewrite !(normalized_field _ c) by discriminate. reflexivity.
Qed.

(** X18. The script of normalizeMockFiles.ts does not change what the
    loader loads: over the contents the script leaves behind,
    [loadMockData] gives the same mocks as before.  The script rewrites
    only a content whose [params] is the empty array; it changes no other
    field, makes [params] the empty object, and a second run leaves the
    file alone.  It writes only files whose name ends in .json, and each
    for a text of the directory that decodes to such a content. *)
Theorem script_keeps_the_mocks :
  forall DEV files,
    methodMocks (loadMockData DEV (map (fun f => (normalized (fst f), snd f)) files))
    = methodMocks (loadMockData DEV files)
    /\ (forall c c',
          normalizeContent c = Rewritten c' ->
          field "params" c = Some (JArr [])
          /\ field "params" c' = Some (JObj [])
          /\ (forall name, name <> "params" -> field name c' = field name c)
          /\ normalizeContent c' = Untouched)
    /\ (forall dir name c',
          In (name, c') (normalizeMockFiles dir) ->
          endsWith name ".json" = true
          /\ exists entries text c,
               dir = Some entries /\ In (name, text) entries
               /\ JSON_parse text = Some c
               /\ normalizeContent c = Rewritten c').
Proof.
  intros DEV files. split; [ | split].
  - destruct DEV; [ | reflexivity].
    rewrite !loadMockData_mocks, map_map. simpl.
    induction files as [ | [c t] files IH]; simpl; [reflexivity | ].
    destruct (normalized_mock c) as [Hf Hm]. rewrite Hf.
    destruct (isMockFile c); simpl; rewrite IH; [rewrite Hm | ]; reflexivity.
  - intros c c' H.
    destruct (normalizeContent_rewritten c c' H) as (fields & -> & Hp & ->).
    simpl. split; [exact Hp | ].
    split; [apply get_field_set_field_eq | ].
    split; [intros name Hne; apply get_field_set_field_ne; exact Hne | ].
    rewrite get_field_set_field_eq. reflexivity.
  - intros dir name c' Hin. destruct dir as [entries | ]; [ | destruct Hin].
    simpl in Hin. apply in_flat_map in Hin.
    destruct Hin as ([name0 text] & Hin & Hw).
    destruct (endsWith name0 ".json") eqn:He; [ | destruct Hw].
    unfold normalizeMockFile in Hw.
    destruct (JSON_parse text) as [c | ] eqn:Hp; [ | destruct Hw].
    destruct (normalizeContent c) as [ | c0 | ] eqn:Hn;
      [destruct Hw | | destruct Hw].
    destruct Hw as [Hw | []]. injection Hw as H1 H2. subst name0 c0.
    split; [exact He | ]. exists entries, text, c. auto.
Qed.

(** ** From the files to the answer *)

(** X19. A call without parameters is answered by a mock file without
    parameters.  When the files of the development mode hold a mock of a
    method whose [params] is absent, null, the empty array or the empty
    object, [findMock] called for that method with no parameters, the
    empty array or the empty object reports no missing mock: its answer is
    the [result] of a mock file of that method. *)
Theorem empty_call_finds_empty_mock :
  forall files c t p,
    In (c, t) files ->
    isMockFile c = true ->
    (noParams (field "params" c) \/ field "params" c = Some JNull) ->
    noParams p ->
    let a := findMock (methodMocks (loadMockData true files)) (methodOf c) p in
    reported a = false
    /\ exists c' t',
         In (c', t') files /\ isMockFile c' = true
         /\ methodOf c' = methodOf c
         /\ answer a = field "result" c'
         /\ answer a <> None.
Proof.
  intros files c t p Hin Hc Hcp Hp. cbv zeta.
  rewrite loadMockData_mocks. unfold findMock.
  set (pred := fun m : MockMethodType => _).
  assert (Hpn : normalizeParams match p with
                                | None => Some (JObj [])
                                | Some _ => p
                                end = Some (JObj [])).
  { destruct Hp as [H | [H | H]]; subst; reflexivity. }
  assert (Hpred : pred (mockOf c) = true).
  { subst pred. cbv beta. apply andb_true_intro. split.
    - apply String.eqb_refl.
    - rewrite (mockOf_noParams c Hcp). simpl.
      unfold areParamsEqual. rewrite Hpn. apply strictEq_refl. }
  assert (Hmem : In (mockOf c) (map mockOf (filter isMockFile (map fst files)))).
  { apply in_map. apply filter_In. split; [ | exact Hc].
    apply in_map_iff. exists (c, t). auto. }
  destruct (find pred (map mockOf (filter isMockFile (map fst files))))
    as [mock | ] eqn:Hfind.
  - simpl. split; [reflexivity | ].
    apply find_some in Hfind. destruct Hfind as [Hm Hpm].
    apply in_map_iff in Hm. destruct Hm as (c' & <- & Hc').
    apply filter_In in Hc'. destruct Hc' as [Hc'in Hc'ok].
    apply in_map_iff in Hc'in. destruct Hc'in as ([c0 t'] & Heq & Hin').
    simpl in Heq. subst c0.
    exists c', t'. split; [exact Hin' | split; [exact Hc'ok | ]].
    subst pred. cbv beta in Hpm. apply andb_prop in Hpm. destruct Hpm as [Hmeth _].
    apply String.eqb_eq in Hmeth. simpl in Hmeth.
    split; [exact Hmeth | split; [reflexivity | ]].
    destruct (isMockFile_inv c' Hc'ok) as (fields & s & r & -> & _ & _ & Hr).
    simpl. rewrite Hr. discriminate.
  - exfalso. pose proof (find_none _ _ Hfind _ Hmem) as Hno. congruence.
Qed.

End MockProperties.

(** ** The mock data at the files *)

Lemma params_comparison_witness :
  normalizeParams (Some (JArr [])) = normalizeParams (Some (JObj []))
  /\ areParamsEqual JSON.stringify (Some (JArr [])) (Some (JObj [])) = true.
Proof.
  split; [reflexivity | ].
  destruct (params_comparison JSON.stringify (Some (JArr [])) (Some (JObj [])) None)
    as (_ & _ & _ & _ & H & _).
  exact (H eq_refl).
Defined.

Lemma empty_params_are_interchangeable_witness :
  noParams None /\ noParams (Some (JArr []))
  /\ findMock JSON.stringify (methodMocks (loadMockData true mockFiles))
       "user.current" None
     = findMock JSON.stringify (methodMocks (loadMockData true mockFiles))
         "user.current" (Some (JArr [])).
Proof.
  assert (Hp : noParams None) by (left; reflexivity).
  assert (Hq : noParams (Some (JArr []))) by (right; left; reflexivity).
  split; [exact Hp | split; [exact Hq | ]].
  exact (proj1 (empty_params_are_interchangeable JSON.stringify None
                  (Some (JArr [])) Hp Hq)
           (methodMocks (loadMockData true mockFiles)) "user.current").
Defined.

Lemma loaded_mocks_witness :
  In mockUser (map fst mockFiles)
  /\ isMockFile mockUser = true
  /\ methodMocks (loadMockData true mockFiles)
     = map mockOf (filter isMockFile (map fst mockFiles))
  /\ In {| mm_method := "user.current"; mm_params := Some (JObj []);
           mm_result := Some (JObj [("ID", JNum 1)]); mm_delay := None |}
       (methodMocks (loadMockData true mockFiles)).
Proof.
  assert (Hin : In mockUser (map fst mockFiles)) by (right; left; reflexivity).
  assert (Hm : isMockFile mockUser = true) by reflexivity.
  destruct (loaded_mocks true mockFiles) as (_ & Heq & _ & _ & Hload).
  split; [exact Hin | split; [exact Hm | split; [exact (Heq eq_refl) | ]]].
  apply (Hload mockUser Hin Hm eq_refl).
  left. right. left. reflexivity.
Defined.

Lemma latest_fields_witness :
  latestFields (getMockData true mockFiles) <> JNull
  /\ isApiObjectFieldsType (Some (latestFields (getMockData true mockFiles)))
     = true.
Proof.
  assert (Hne : latestFields (getMockData true mockFiles) <> JNull).
  { vm_compute. discriminate. }
  split; [exact Hne | ].
  destruct (latest_fields true mockFiles) as (_ & H & _).
  exact (H Hne).
Defined.

Lemma script_keeps_the_mocks_witness :
  normalizeContent mockUser = Rewritten (normalized mockUser)
  /\ field "params" (normalized mockUser) = Some (JObj [])
  /\ normalizeContent (normalized mockUser) = Untouched.
Proof.
  assert (Hn : normalizeContent mockUser = Rewritten (normalized mockUser))
    by reflexivity.
  destruct (script_keeps_the_mocks JSON.parse true mockFiles) as (_ & H & _).
  destruct (H mockUser (normalized mockUser) Hn) as (_ & Hp & _ & Hu).
  split; [exact Hn | split; [exact Hp | exact Hu]].
Defined.

Lemma empty_call_finds_empty_mock_witness :
  In (mockUser, 10) mockFiles
  /\ isMockFile mockUser = true
  /\ noParams (field "params" mockUser)
  /\ reported (findMock JSON.stringify (methodMocks (loadMockData true mockFiles))
                 "user.current" None)
     = false.
Proof.
  assert (Hin : In (mockUser, 10) mockFiles) by (right; left; reflexivity).
  assert (Hm : isMockFile mockUser = true) by reflexivity.
  assert (Hp : noParams (field "params" mockUser)) by (right; left; reflexivity).
  assert (Hq : noParams None) by (left; reflexivity).
  split; [exact Hin | split; [exact Hm | split; [exact Hp | ]]].
  exact (proj1 (empty_call_finds_empty_mock JSON.stringify mockFiles mockUser 10
                  None Hin Hm (or_introl Hp) Hq)).
Defined.

(** * The status panel *)

(** X20. The two views of the status agree.  The icon of the detailed
    status is the icon of the status button, and the detailed status is
    running exactly when that icon is the hourglass, which is when the
    panel is loading or the client has pending or active requests.  The
    colours agree unless there was recent activity (the button is orange)
    or the panel is loading (the button is blue, the detailed status
    orange). *)
Theorem status_views_agree :
  forall p,
    ConnectionKeyPanel.s_icon (ConnectionKeyPanel.connectionStatus p)
    = ConnectionKeyPanel.statusIcon p
    /\ (ConnectionKeyPanel.s_isRunning (ConnectionKeyPanel.connectionStatus p) = true
        <-> ConnectionKeyPanel.statusIcon p = "mdi-timer-sand")
    /\ (ConnectionKeyPanel.s_isRunning (ConnectionKeyPanel.connectionStatus p) = true
        <-> ConnectionKeyPanel.isLoading p = true
            \/ ConnectionKeyPanel.hasActiveOperations p = true)
    /\ (ConnectionKeyPanel.hasRecentActivity p = false ->
        ConnectionKeyPanel.isLoading p = false ->
        ConnectionKeyPanel.s_color (ConnectionKeyPanel.connectionStatus p)
        = ConnectionKeyPanel.statusColor p)
    /\ (ConnectionKeyPanel.hasRecentActivity p = true ->
        ConnectionKeyPanel.statusColor p = "warning")
    /\ (ConnectionKeyPanel.hasRecentActivity p = false ->
        ConnectionKeyPanel.isLoading p = true ->
        ConnectionKeyPanel.statusColor p = "primary"
        /\ ConnectionKeyPanel.s_color (ConnectionKeyPanel.connectionStatus p)
           = "warning").
Proof.
  intros p.
  unfold ConnectionKeyPanel.connectionStatus, ConnectionKeyPanel.statusIcon,
    ConnectionKeyPanel.statusColor.
  destruct (ConnectionKeyPanel.isLoading p),
    (ConnectionKeyPanel.hasActiveOperations p),
    (ConnectionKeyPanel.isConnected p),
    (truthy (ConnectionKeyPanel.displayError p)),
    (truthy (Some (ConnectionKeyPanel.keyInput p))),
    (ConnectionKeyPanel.hasRecentActivity p); simpl;
    (split; [reflexivity | ]);
    (split; [split; intros H; first [reflexivity | discriminate H] | ]);
    (split; [split; [intros H; first [discriminate H | auto]
                    | intros [H | H]; first [reflexivity | discriminate H]] | ]);
    (split; [intros H1 H2; first [reflexivity | discriminate] | ]);
    (split; [intros H; first [reflexivity | discriminate H] | ]);
    intros H1 H2; first [split; reflexivity | discriminate].
Qed.

Lemma status_views_agree_witness :
  ConnectionKeyPanel.hasRecentActivity
    (ConnectionKeyPanel.showing (getState (worldAfter connect))) = false
  /\ ConnectionKeyPanel.isLoading
       (ConnectionKeyPanel.showing (getState (worldAfter connect))) = false
  /\ ConnectionKeyPanel.s_color
       (ConnectionKeyPanel.connectionStatus
          (ConnectionKeyPanel.showing (getState (worldAfter connect))))
     = ConnectionKeyPanel.statusColor
         (ConnectionKeyPanel.showing (getState (worldAfter connect))).
Proof.
  split; [reflexivity | split; [reflexivity | ]].
  destruct (status_views_agree
              (ConnectionKeyPanel.showing (getState (worldAfter connect))))
    as (_ & _ & _ & H & _).
  exact (H eq_refl eq_refl).
Defined.

Lemma work_is_never_stalled_witness :
  reachable JSON.parse (worldAfter activeA)
  /\ hasWork (worldAfter activeA) = true
  /\ processing (worldAfter activeA) = false
  /\ timers (worldAfter activeA) <> [].
Proof.
  assert (Hr : reachable JSON.parse (worldAfter activeA)).
  { exists activeA. vm_compute. reflexivity. }
  assert (Hw : hasWork (worldAfter activeA) = true) by (vm_compute; reflexivity).
  assert (Hk : truthy (key (worldAfter activeA)) = true)
    by (vm_compute; reflexivity).
  assert (Hb : broken (worldAfter activeA) = false) by (vm_compute; reflexivity).
  assert (Hp : processing (worldAfter activeA) = false)
    by (vm_compute; reflexivity).
  split; [exact Hr | split; [exact Hw | split; [exact Hp | ]]].
  exact (proj1 (work_is_never_stalled JSON.parse (worldAfter activeA) Hr)
           Hw Hk Hb Hp).
Defined.
